(** * Shallow embedding of db_llm_query_v1.py (ChEMBL text-to-SQL loop)

    The functions of [src/src/db_llm_query_v1.py] that the specification's
    properties are about, translated to Rocq: the model scheduler, the judge
    output parser and judge call, the unrequested-LIMIT stripper, the
    history window, the result samplers, the sample-size chooser and the
    iteration loop [ChEMBLLLMQuery.query]; then the model lists, identifier
    quoting, the choice of strata columns and the judge model rotation. *)

From Stdlib Require Import String Ascii ZArith QArith Qround Qpower Lqa Sorted Bool Lia List.
Import ListNotations.
Set Warnings "-register-all".
Open Scope string_scope.
Open Scope nat_scope.
Open Scope list_scope.

(* ------------------------------------------------------------------ *)
(** ** Python runtime helpers *)

(** Results of Python code that may raise. *)
Inductive py_result (A : Type) : Type :=
| PyOk (a : A)
| PyErr (exc : string).
Arguments PyOk {A} a.
Arguments PyErr {A} exc.

(** [lst[i] = v]: raises IndexError outside the list. *)
Definition py_setitem {A} (l : list A) (i : nat) (v : A) : option (list A) :=
  if (i <? length l)%nat then Some (firstn i l ++ v :: skipn (S i) l) else None.

(** [lst[-k:]] for [k >= 0]: [lst[-0:]] is [lst[0:]], the whole list. *)
Definition py_slice_last {A} (l : list A) (k : Z) : list A :=
  let n := Z.of_nat (length l) in
  let start := if (k =? 0)%Z then 0%Z
               else if (n - k <? 0)%Z then 0%Z else (n - k)%Z in
  skipn (Z.to_nat start) l.

(** [range(k)] for a Python int [k]. *)
Definition py_range (k : Z) : list nat := seq 0 (Z.to_nat k).

(* ------------------------------------------------------------------ *)
(** ** Model scheduler: [cic_find_primes], [cic_schedule],
       [generate_model_schedule] *)

Module Scheduler.

(** [sieve[i*i::i] = [False] * len(sieve[i*i::i])]. *)
Definition clear_multiples (sieve : list bool) (i : nat) : list bool :=
  map (fun '(k, b) =>
         if ((i * i <=? k) && ((k - i * i) mod i =? 0))%nat then false else b)
      (combine (seq 0 (length sieve)) sieve).

(** [cic_find_primes(limit)]; [int(limit**0.5)] is the integer square
    root. [sieve[0] = sieve[1] = False] raises for [limit = 0]. *)
Definition cic_find_primes (limit : nat) : option (list nat) :=
  let sieve := repeat true (limit + 1) in
  match py_setitem sieve 1 false with
  | None => None
  | Some s1 =>
    match py_setitem s1 0 false with
    | None => None
    | Some s0 =>
      let s := fold_left
                 (fun sv i => if nth i sv false then clear_multiples sv i else sv)
                 (seq 2 (Nat.sqrt limit + 1 - 2)) s0 in
      Some (map fst (filter snd (combine (seq 0 (length s)) s)))
    end
  end.

(** [cic_schedule(n)]. *)
Definition cic_schedule (n : Z) : option (list nat) :=
  match cic_find_primes 100 with
  | None => None
  | Some primes =>
    Some (map (fun i => (i * nth (i mod length primes) primes 0) mod 233)
              (py_range n))
  end.

(** The [random] branch. [draws k] is the value of the [k]-th call of
    [random.randint(0, num_models - 1)]. *)
Fixpoint random_loop (draws : nat -> nat) (models : list string)
         (k fuel : nat) (last_idx : Z) : list string :=
  match fuel with
  | O => []
  | S fuel' =>
    let num_models := length models in
    let idx0 := draws k in
    let idx := if (Z.of_nat idx0 =? last_idx)%Z && (1 <? num_models)%nat
               then (idx0 + 1) mod num_models else idx0 in
    nth idx models "" :: random_loop draws models (S k) fuel' (Z.of_nat idx)
  end.

(** [generate_model_schedule(num_retries, models, cycle_method)]. *)
Definition generate_model_schedule (draws : nat -> nat) (num_retries : Z)
           (models : list string) (cycle_method : string)
  : py_result (list string) :=
  let num_models := length models in
  if (num_models =? 0)%nat then PyOk []
  else if String.eqb cycle_method "random" then
    PyOk (random_loop draws models 0 (Z.to_nat num_retries) (-1)%Z)
  else if String.eqb cycle_method "orderly" then
    PyOk (map (fun i => nth (i mod num_models) models "") (py_range num_retries))
  else if String.eqb cycle_method "cicada" then
    match cic_schedule num_retries with
    | None => PyErr "IndexError"
    | Some positions =>
      PyOk (map (fun pos => nth (pos mod num_models) models "") positions)
    end
  else PyErr "ValueError".

(** Reference definition of the cicada policy, following the
    specification's words: primes up to 100 by trial division,
    [pos[i] = (i * primes[i mod |primes|]) mod 233],
    [schedule[i] = models[pos[i] mod N]]. *)
Definition is_prime_ref (p : nat) : bool :=
  ((2 <=? p) && forallb (fun d => negb (p mod d =? 0)) (seq 2 (p - 2)))%nat.

Definition primes_upto_100_ref : list nat := filter is_prime_ref (seq 0 101).

Definition cicada_ref (models : list string) (i : nat) : string :=
  let primes := primes_upto_100_ref in
  nth (((i * nth (i mod length primes) primes 0) mod 233) mod length models)
      models "".

End Scheduler.

(* ------------------------------------------------------------------ *)
(** ** Python floats and characters *)

(** A Python [float]: finite values are kept as exact rationals. *)
Inductive pyfloat : Type :=
| PFin (q : Q)
| PInf
| PNInf
| PNaN.

(** [x <= y] on floats; comparisons with NaN are false. *)
Definition py_le (x y : pyfloat) : bool :=
  match x, y with
  | PNaN, _ | _, PNaN => false
  | PNInf, _ | _, PInf => true
  | PInf, _ | _, PNInf => false
  | PFin a, PFin b => Qle_bool a b
  end.

(** [x < y] on floats. *)
Definition py_lt (x y : pyfloat) : bool :=
  match x, y with
  | PNaN, _ | _, PNaN => false
  | PNInf, PNInf | PInf, PInf => false
  | PNInf, _ | _, PInf => true
  | PInf, _ | _, PNInf => false
  | PFin a, PFin b => negb (Qle_bool b a)
  end.

(** [x >= y]. *)
Definition py_ge (x y : pyfloat) : bool := py_le y x.

Definition is_nan (x : pyfloat) : bool :=
  match x with PNaN => true | _ => false end.

(** Characters for which [str.isspace()] holds (and which [\s] matches),
    restricted to ASCII: tab, LF, VT, FF, CR, the separators 0x1c-0x1f and
    space. *)
Definition is_py_space (c : ascii) : bool :=
  let n := nat_of_ascii c in
  ((9 <=? n) && (n <=? 13)) || ((28 <=? n) && (n <=? 32)).

Definition is_digit (c : ascii) : bool :=
  let n := nat_of_ascii c in (48 <=? n) && (n <=? 57).

(** Word characters of [\w] (ASCII part): letters, digits and [_]. *)
Definition is_word (c : ascii) : bool :=
  let n := nat_of_ascii c in
  is_digit c || ((65 <=? n) && (n <=? 90)) || ((97 <=? n) && (n <=? 122))
  || (n =? 95).

Definition ascii_lower (c : ascii) : ascii :=
  let n := nat_of_ascii c in
  if (65 <=? n) && (n <=? 90) then ascii_of_nat (n + 32) else c.

Definition ascii_upper (c : ascii) : ascii :=
  let n := nat_of_ascii c in
  if (97 <=? n) && (n <=? 122) then ascii_of_nat (n - 32) else c.

Definition chars (s : string) : list ascii := list_ascii_of_string s.
Definition str (l : list ascii) : string := string_of_list_ascii l.

Fixpoint drop_space (l : list ascii) : list ascii :=
  match l with
  | c :: t => if is_py_space c then drop_space t else l
  | [] => []
  end.

(** [s.strip()]. *)
Definition py_strip_l (l : list ascii) : list ascii :=
  rev (drop_space (rev (drop_space l))).
Definition py_strip (s : string) : string := str (py_strip_l (chars s)).

(** [s.lower()] and [s.upper()]. *)
Definition py_lower (s : string) : string := str (map ascii_lower (chars s)).
Definition py_upper (s : string) : string := str (map ascii_upper (chars s)).

Definition ascii_eqb (a b : ascii) : bool := Ascii.eqb a b.

(** Case-insensitive prefix test on character lists. *)
Fixpoint prefix_ci (p l : list ascii) : bool :=
  match p, l with
  | [], _ => true
  | a :: p', b :: l' => ascii_eqb (ascii_lower a) (ascii_lower b) && prefix_ci p' l'
  | _ :: _, [] => false
  end.

(** [s.find(c)]: the first index of [c], or -1. *)
Fixpoint find_index (c : ascii) (l : list ascii) (i : nat) : Z :=
  match l with
  | [] => (-1)%Z
  | d :: t => if ascii_eqb c d then Z.of_nat i else find_index c t (S i)
  end.
Definition py_find (l : list ascii) (c : ascii) : Z := find_index c l 0.

(** [s.rfind(c)]: the last index of [c], or -1. *)
Definition py_rfind (l : list ascii) (c : ascii) : Z :=
  match find_index c (rev l) 0 with
  | (-1)%Z => (-1)%Z
  | k => (Z.of_nat (length l) - 1 - k)%Z
  end.

Definition nl : ascii := ascii_of_nat 10.
(** The double quote character. *)
Definition dquote : ascii := ascii_of_nat 34.
(** A JSON text written with single quotes in place of double quotes. *)
Definition json_text (s : string) : string :=
  str (map (fun c => if ascii_eqb c "'"%char then dquote else c) (chars s)).
Definition backticks : list ascii := chars "```".

Fixpoint span_space (l : list ascii) : list ascii * list ascii :=
  match l with
  | c :: t => if is_py_space c then let '(w, r) := span_space t in (c :: w, r)
              else ([], l)
  | [] => ([], [])
  end.

(* ------------------------------------------------------------------ *)
(** ** Judge output parser: [parse_judge_output] *)

(** Python objects produced by [json.loads]. Dict entries keep the
    document order; [dict.get] sees the last binding of a key. *)
Inductive pyobj : Type :=
| ONone
| OBool (b : bool)
| OInt (z : Z)
| OFloat (f : pyfloat)
| OStr (s : string)
| OList (l : list pyobj)
| ODict (kv : list (string * pyobj)).

Fixpoint assoc_last (k : string) (kv : list (string * pyobj)) : option pyobj :=
  match kv with
  | [] => None
  | (k', v) :: t =>
    match assoc_last k t with
    | Some w => Some w
    | None => if String.eqb k k' then Some v else None
    end
  end.

(** [re.sub(r'^```(?:json)?\s*', '', s, flags=IGNORECASE|MULTILINE)]:
    [bol] says whether the current position is a line start. *)
Fixpoint sub_open_fence (fuel : nat) (l : list ascii) (bol : bool) : list ascii :=
  match fuel with
  | O => l
  | S fuel' =>
    match l with
    | [] => []
    | c :: t =>
      if bol && prefix_ci backticks l then
        let r := skipn 3 l in
        let r' := if prefix_ci (chars "json") r then skipn 4 r else r in
        let '(w, r'') := span_space r' in
        let consumed := firstn 3 l ++ firstn (length r - length r') r ++ w in
        let bol' := match rev consumed with d :: _ => ascii_eqb d nl | [] => false end in
        sub_open_fence fuel' r'' bol'
      else c :: sub_open_fence fuel' t (ascii_eqb c nl)
    end
  end.

(** Where [$] (MULTILINE) can hold after a whitespace run [w] followed by
    [r] (which does not start with whitespace): the largest number of
    characters of [w] that the greedy [\s*] keeps. *)
Definition dollar_cut (w r : list ascii) : option nat :=
  match r with
  | [] => Some (length w)
  | _ =>
    let ks := filter (fun k => ascii_eqb (nth k w " "%char) nl) (seq 0 (length w)) in
    match rev ks with k :: _ => Some k | [] => None end
  end.

(** [re.sub(r'\s*```\s*$', '', s, flags=MULTILINE)]. *)
Fixpoint sub_close_fence (fuel : nat) (l : list ascii) : list ascii :=
  match fuel with
  | O => l
  | S fuel' =>
    match l with
    | [] => []
    | c :: t =>
      let '(_, r1) := span_space l in
      let matched :=
        if prefix_ci backticks r1 then
          let '(w2, r3) := span_space (skipn 3 r1) in
          match dollar_cut w2 r3 with
          | Some k => Some (skipn k w2 ++ r3)
          | None => None
          end
        else None in
      match matched with
      | Some rest => sub_close_fence fuel' rest
      | None => c :: sub_close_fence fuel' t
      end
    end
  end.

(** [str(x).strip().upper()] compared with YES/NO. The [str] of a
    non-string JSON value ([True], [None], a number, a list or a dict)
    never reads YES or NO, so only strings give a decision. *)
Definition decision_of (v : option pyobj) : option bool :=
  match v with
  | Some (OStr s) =>
    let d := py_upper (py_strip s) in
    if String.eqb d "YES" then Some true
    else if String.eqb d "NO" then Some false
    else None
  | _ => None
  end.

Section ParseJudge.

(** [json.loads] ([None] when it raises) and [float(s)] on a string
    ([None] when it raises): the Python library's parsers. *)
Variable json_loads : string -> option pyobj.
Variable float_of_str : string -> option pyfloat.

(** [float(obj.get("score"))], [None] when it raises. *)
Definition py_float (v : option pyobj) : option pyfloat :=
  match v with
  | Some (OBool b) => Some (PFin (if b then 1 else 0)%Q)
  | Some (OInt z) => Some (PFin (inject_Z z))
  | Some (OFloat f) => Some f
  | Some (OStr s) => float_of_str s
  | _ => None
  end.

(** The [candidate] substring of [parse_judge_output]: the stripped text
    with code fences removed, from its first [{] to its last [}];
    [None] when there is no such substring. *)
Definition judge_candidate (text : string) : option string :=
  let cleaned0 := py_strip_l (chars text) in
  match cleaned0 with
  | [] => None
  | _ =>
    let c1 := sub_open_fence (length cleaned0) cleaned0 true in
    let cleaned := sub_close_fence (length c1) c1 in
    let start := py_find cleaned "{"%char in
    let end_ := py_rfind cleaned "}"%char in
    if negb (start =? -1)%Z && negb (end_ =? -1)%Z && (start <? end_)%Z then
      Some (str (firstn (Z.to_nat (end_ + 1 - start)) (skipn (Z.to_nat start) cleaned)))
    else None
  end.

(** [parse_judge_output(text)]: [(decision, score)]. *)
Definition parse_judge_output (text : string) : option bool * option pyfloat :=
  match judge_candidate text with
  | None => (None, None)
  | Some candidate =>
    match json_loads candidate with
    | Some (ODict kv) =>
      let decision := decision_of (match assoc_last "decision" kv with
                                   | Some v => Some v
                                   | None => Some (OStr "")
                                   end) in
      let score0 := py_float (assoc_last "score" kv) in
      let score := match score0 with
                   | Some f => if py_le (PFin 0) f && py_le f (PFin 1)
                               then Some f else None
                   | None => None
                   end in
      match decision, score with
      | Some d, Some f => (Some d, Some f)
      | _, _ => (None, None)
      end
    | _ => (None, None)
    end
  end.

End ParseJudge.

(** A concrete [json.loads] and [float(str)] for running the model on
    sample texts: a JSON reader for objects, arrays, strings with the
    simple escapes, numbers (decimal values kept exact), [true], [false],
    [null], [NaN] and [Infinity]; [\u] escapes are not read. *)
Module JsonModel.

Fixpoint digits_val (l : list ascii) (acc : Z) : Z :=
  match l with
  | [] => acc
  | c :: t => digits_val t (acc * 10 + Z.of_nat (nat_of_ascii c - 48))%Z
  end.

Fixpoint span_digits (l : list ascii) : list ascii * list ascii :=
  match l with
  | c :: t => if is_digit c then let '(d, r) := span_digits t in (c :: d, r)
              else ([], l)
  | [] => ([], [])
  end.

(** A JSON number at the head of [l]: [Some (value, is_int, rest)]. *)
Definition read_number (l : list ascii) : option (Q * Z * bool * list ascii) :=
  let '(neg, l1) := match l with
                    | "-"%char :: t => (true, t)
                    | _ => (false, l)
                    end in
  let '(ip, l2) := span_digits l1 in
  match ip with
  | [] => None
  | "0"%char :: _ :: _ => None
  | _ =>
    let '(fp, l3, has_frac) :=
      match l2 with
      | "."%char :: t => let '(f, r) := span_digits t in (f, r, true)
      | _ => ([], l2, false)
      end in
    if has_frac && (length fp =? 0) then None else
    let '(ex, l4, has_exp) :=
      match l3 with
      | c :: t =>
        if ascii_eqb (ascii_lower c) "e"%char then
          let '(sgn, t') := match t with
                            | "-"%char :: u => ((-1)%Z, u)
                            | "+"%char :: u => (1%Z, u)
                            | _ => (1%Z, t)
                            end in
          let '(e, r) := span_digits t' in
          (if length e =? 0 then None else Some (sgn * digits_val e 0)%Z, r, true)
        else (Some 0%Z, l3, false)
      | [] => (Some 0%Z, l3, false)
      end in
    match ex with
    | None => None
    | Some e =>
      let mant := digits_val (ip ++ fp) 0 in
      let scale := (e - Z.of_nat (length fp))%Z in
      let q := if (0 <=? scale)%Z then inject_Z (mant * 10 ^ scale)
               else Qmake mant (Z.to_pos (10 ^ (- scale))) in
      let q' := if neg then Qopp q else q in
      let iv := if neg then (- mant)%Z else mant in
      Some (q', iv, negb has_frac && negb has_exp, l4)
    end
  end.

(** The body of a JSON string after its opening quote. *)
Fixpoint read_string (l : list ascii) (acc : list ascii)
  : option (list ascii * list ascii) :=
  match l with
  | [] => None
  | c :: t =>
    if ascii_eqb c dquote then Some (rev acc, t)
    else if nat_of_ascii c <? 32 then None
    else if ascii_eqb c "\"%char then
      match t with
      | e :: t' =>
        let dec := if ascii_eqb e dquote then Some e
                   else if ascii_eqb e "\"%char then Some e
                   else if ascii_eqb e "/"%char then Some e
                   else if ascii_eqb e "b"%char then Some (ascii_of_nat 8)
                   else if ascii_eqb e "f"%char then Some (ascii_of_nat 12)
                   else if ascii_eqb e "n"%char then Some (ascii_of_nat 10)
                   else if ascii_eqb e "r"%char then Some (ascii_of_nat 13)
                   else if ascii_eqb e "t"%char then Some (ascii_of_nat 9)
                   else None in
        match dec with
        | Some d => read_string t' (d :: acc)
        | None => None
        end
      | [] => None
      end
    else read_string t (c :: acc)
  end.

(** JSON whitespace. *)
Fixpoint skip_ws (l : list ascii) : list ascii :=
  match l with
  | c :: t => let n := nat_of_ascii c in
              if (n =? 32) || (n =? 9) || (n =? 10) || (n =? 13) then skip_ws t else l
  | [] => []
  end.

Definition starts (p : string) (l : list ascii) : bool :=
  let pl := chars p in
  (length pl <=? length l) && forallb (fun '(a, b) => ascii_eqb a b) (combine pl l).

Fixpoint read_value (fuel : nat) (l : list ascii) : option (pyobj * list ascii) :=
  match fuel with
  | O => None
  | S fuel' =>
    let l := skip_ws l in
    match l with
    | [] => None
    | c :: t =>
      if ascii_eqb c "{"%char then
        match skip_ws t with
        | "}"%char :: r => Some (ODict [], r)
        | _ => read_members fuel' t []
        end
      else if ascii_eqb c "["%char then
        match skip_ws t with
        | "]"%char :: r => Some (OList [], r)
        | _ => read_elements fuel' t []
        end
      else if ascii_eqb c dquote then
        match read_string t [] with
        | Some (s, r) => Some (OStr (str s), r)
        | None => None
        end
      else if starts "true" l then Some (OBool true, skipn 4 l)
      else if starts "false" l then Some (OBool false, skipn 5 l)
      else if starts "null" l then Some (ONone, skipn 4 l)
      else if starts "NaN" l then Some (OFloat PNaN, skipn 3 l)
      else if starts "Infinity" l then Some (OFloat PInf, skipn 8 l)
      else if starts "-Infinity" l then Some (OFloat PNInf, skipn 9 l)
      else
        match read_number l with
        | Some (q, z, true, r) => Some (OInt z, r)
        | Some (q, _, false, r) => Some (OFloat (PFin q), r)
        | None => None
        end
    end
  end
with read_members (fuel : nat) (l : list ascii) (acc : list (string * pyobj))
  : option (pyobj * list ascii) :=
  match fuel with
  | O => None
  | S fuel' =>
    match skip_ws l with
    | c :: t =>
      if ascii_eqb c dquote then
        match read_string t [] with
        | Some (k, r) =>
          match skip_ws r with
          | ":"%char :: r' =>
            match read_value fuel' r' with
            | Some (v, r'') =>
              match skip_ws r'' with
              | ","%char :: r3 => read_members fuel' r3 ((str k, v) :: acc)
              | "}"%char :: r3 => Some (ODict (rev ((str k, v) :: acc)), r3)
              | _ => None
              end
            | None => None
            end
          | _ => None
          end
        | None => None
        end
      else None
    | [] => None
    end
  end
with read_elements (fuel : nat) (l : list ascii) (acc : list pyobj)
  : option (pyobj * list ascii) :=
  match fuel with
  | O => None
  | S fuel' =>
    match read_value fuel' l with
    | Some (v, r) =>
      match skip_ws r with
      | ","%char :: r3 => read_elements fuel' r3 (v :: acc)
      | "]"%char :: r3 => Some (OList (rev (v :: acc)), r3)
      | _ => None
      end
    | None => None
    end
  end.

Definition json_loads (s : string) : option pyobj :=
  let l := chars s in
  match read_value (S (length l)) l with
  | Some (v, r) => match skip_ws r with [] => Some v | _ => None end
  | None => None
  end.

(** [float(s)] on decimal strings, [inf], [infinity] and [nan]. *)
Definition float_of_str (s : string) : option pyfloat :=
  let l := py_strip_l (chars s) in
  let '(neg, body) := match l with
                      | "-"%char :: t => (true, t)
                      | "+"%char :: t => (false, t)
                      | _ => (false, l)
                      end in
  let low := str (map ascii_lower body) in
  if String.eqb low "inf" || String.eqb low "infinity" then
    Some (if neg then PNInf else PInf)
  else if String.eqb low "nan" then Some PNaN
  else
    let body' := match body with "."%char :: _ => "0"%char :: body | _ => body end in
    match read_number body' with
    | Some (q, _, _, []) => Some (PFin (if neg then Qopp q else q))
    | _ => None
    end.

End JsonModel.

(* ------------------------------------------------------------------ *)
(** ** The judge call: [ChEMBLLLMQuery._call_judge] *)

(** How the retry loop of [_call_judge] ends: a [return] from inside the
    loop, or falling out of it with the last stripped response text. *)
Inductive judge_loop_end : Type :=
| LoopReturned (decision : bool) (score : pyfloat) (text : string)
| LoopExhausted (last_text : option string).

Section CallJudge.

Variable json_loads : string -> option pyobj.
Variable float_of_str : string -> option pyfloat.

(** [judge_score_threshold]. *)
Variable threshold : pyfloat.
(** [generate_text] of the judge model selected for retry [offset]:
    [None] when the call fails. *)
Variable generate_text : nat -> option string.

(** [for offset in range(...)]: [offset] is the current retry and [fuel]
    the retries left. *)
Fixpoint judge_loop (offset fuel : nat) (last_text : option string)
  : judge_loop_end :=
  match fuel with
  | O => LoopExhausted last_text
  | S fuel' =>
    match generate_text offset with
    | None => judge_loop (S offset) fuel' last_text
    | Some text =>
      let lt := py_strip text in
      match parse_judge_output json_loads float_of_str lt with
      | (Some decision, Some score) =>
        if decision && py_lt score threshold then
          judge_loop (S offset) fuel' (Some lt)
        else if negb decision && py_ge score threshold then
          judge_loop (S offset) fuel' (Some lt)
        else LoopReturned decision score lt
      | _ => judge_loop (S offset) fuel' (Some lt)
      end
    end
  end.

(** [_call_judge]: [(decision, score, text)]. *)
Definition call_judge (judge_available : bool) (judge_call_retries : Z)
  : option bool * option pyfloat * string :=
  if negb judge_available then (None, None, "Judge disabled" ++ String nl "0" ++ String nl "NO")%string
  else
    match judge_loop 0 (Z.to_nat (Z.max 1 judge_call_retries)) None with
    | LoopReturned d s t => (Some d, Some s, t)
    | LoopExhausted None => (None, None, "Judge failed" ++ String nl "0" ++ String nl "NO")%string
    | LoopExhausted (Some lt) =>
      (fst (parse_judge_output json_loads float_of_str lt),
       snd (parse_judge_output json_loads float_of_str lt), lt)
    end.

End CallJudge.

(* ------------------------------------------------------------------ *)
(** ** The unrequested-LIMIT stripper *)

Module LimitStrip.

(** A word of a pattern, and whether an [s] may follow it ([rows?]). *)
Definition word : Type := list ascii * bool.

Definition w (s : string) : word := (chars s, false).

(** The thirteen patterns of [_user_requested_limit], each
    [\b w1 \s+ w2 ... \s+ \d+ \b]. *)
Definition patterns : list (list word) :=
  [ [w "limit"]; [w "top"]; [w "first"]; [w "last"]; [w "at"; w "most"];
    [w "no"; w "more"; w "than"]; [w "maximum"]; [w "minimum"]; [w "only"];
    [w "return"]; [w "show"]; [(chars "row", true)]; [w "sample"] ].

Fixpoint prefix_exact (p l : list ascii) : bool :=
  match p, l with
  | [], _ => true
  | a :: p', b :: l' => ascii_eqb a b && prefix_exact p' l'
  | _ :: _, [] => false
  end.

Fixpoint span_digits (l : list ascii) : list ascii * list ascii :=
  match l with
  | c :: t => if is_digit c then let '(d, r) := span_digits t in (c :: d, r)
              else ([], l)
  | [] => ([], [])
  end.

(** [\b] after a match, when the rest of the text is [r]. *)
Definition boundary_after (r : list ascii) : bool :=
  match r with [] => true | c :: _ => negb (is_word c) end.

(** [\b] before a word character, when the previous character is [prev]. *)
Definition boundary_before (prev : option ascii) : bool :=
  match prev with None => true | Some c => negb (is_word c) end.

(** The pattern after its leading [\b], at the head of [l]. *)
Fixpoint match_words (ws : list word) (l : list ascii) : bool :=
  match ws with
  | [] => let '(d, r) := span_digits l in
          negb (length d =? 0) && boundary_after r
  | (wd, opt_s) :: ws' =>
    prefix_exact wd l &&
    (let l1 := skipn (length wd) l in
     let l2 := match l1 with
               | c :: t => if opt_s && ascii_eqb c "s"%char then t else l1
               | [] => l1
               end in
     let '(sp, l3) := span_space l2 in
     negb (length sp =? 0) && match_words ws' l3)
  end.

(** [re.search(pat, text)] for one pattern. *)
Fixpoint search_from (ws : list word) (prev : option ascii) (l : list ascii) : bool :=
  (boundary_before prev && match_words ws l) ||
  match l with
  | [] => false
  | c :: t => search_from ws (Some c) t
  end.

(** [_user_requested_limit(text)]. *)
Definition user_requested_limit (text : string) : bool :=
  let lowered := chars (py_lower text) in
  existsb (fun ws => search_from ws None lowered) patterns.

(** [re.search(r"\blimit\b", sql, flags=re.IGNORECASE)]. *)
Fixpoint has_limit_word (prev : option ascii) (l : list ascii) : bool :=
  (boundary_before prev && prefix_ci (chars "limit") l
   && boundary_after (skipn 5 l)) ||
  match l with
  | [] => false
  | c :: t => has_limit_word (Some c) t
  end.

(** One match of [\s+limit\s+\d+(?:\s+offset\s+\d+)?] (IGNORECASE) at the
    head of [l]: the text after it. *)
Definition match_clause (l : list ascii) : option (list ascii) :=
  let '(w1, r1) := span_space l in
  if (length w1 =? 0) || negb (prefix_ci (chars "limit") r1) then None else
  let '(w2, r3) := span_space (skipn 5 r1) in
  if length w2 =? 0 then None else
  let '(d, r4) := span_digits r3 in
  if length d =? 0 then None else
  let offset_part :=
    let '(w3, r5) := span_space r4 in
    if (length w3 =? 0) || negb (prefix_ci (chars "offset") r5) then None else
    let '(w4, r6) := span_space (skipn 6 r5) in
    if length w4 =? 0 then None else
    let '(d2, r7) := span_digits r6 in
    if length d2 =? 0 then None else Some r7 in
  match offset_part with
  | Some r7 => Some r7
  | None => Some r4
  end.

(** [clause_re.subn("", sql)]: leftmost matches, left to right. *)
Fixpoint sub_clauses (fuel : nat) (l : list ascii) : list ascii :=
  match fuel with
  | O => l
  | S fuel' =>
    match l with
    | [] => []
    | c :: t =>
      match match_clause l with
      | Some r => sub_clauses fuel' r
      | None => c :: sub_clauses fuel' t
      end
    end
  end.

(** [re.sub(r"\s+;", ";", s)]. *)
Fixpoint sub_space_semicolon (fuel : nat) (l : list ascii) : list ascii :=
  match fuel with
  | O => l
  | S fuel' =>
    match l with
    | [] => []
    | c :: t =>
      let '(sp, r) := span_space l in
      match r with
      | ";"%char :: r' =>
        if length sp =? 0 then c :: sub_space_semicolon fuel' t
        else ";"%char :: sub_space_semicolon fuel' r'
      | _ => c :: sub_space_semicolon fuel' t
      end
    end
  end.

(** [_strip_unrequested_limit(sql=sql, uq=uq, up=up)];
    [enabled] is [self.strip_unrequested_limit]. *)
Definition strip_unrequested_limit (enabled : bool) (sql uq up : string) : string :=
  if negb enabled then sql
  else if user_requested_limit (uq ++ String nl up)%string then sql
  else if negb (has_limit_word None (chars sql)) then sql
  else
    let l := chars sql in
    let cleaned := sub_clauses (length l) l in
    let cleaned := sub_space_semicolon (length cleaned) cleaned in
    str (py_strip_l cleaned).

End LimitStrip.

(* ------------------------------------------------------------------ *)
(** ** Python [repr] and [str] of the values the prompts render *)

Fixpoint digits_of (fuel n : nat) (acc : list ascii) : list ascii :=
  match fuel with
  | O => acc
  | S f =>
    let acc' := ascii_of_nat (48 + n mod 10) :: acc in
    if n <? 10 then acc' else digits_of f (n / 10) acc'
  end.

(** [str(n)] for a non-negative int. *)
Definition nat_str (n : nat) : string := str (digits_of (S n) n []).

Definition hex_digit (n : nat) : ascii :=
  if n <? 10 then ascii_of_nat (48 + n) else ascii_of_nat (87 + n).

(** One character inside [repr(s)] quoted with [q]. *)
Definition repr_char (q c : ascii) : list ascii :=
  let n := nat_of_ascii c in
  if ascii_eqb c "\"%char then ["\"%char; "\"%char]
  else if ascii_eqb c q then ["\"%char; q]
  else if n =? 9 then ["\"%char; "t"%char]
  else if n =? 10 then ["\"%char; "n"%char]
  else if n =? 13 then ["\"%char; "r"%char]
  else if (n <? 32) || ((127 <=? n) && (n <=? 160)) || (n =? 173) then
    ["\"%char; "x"%char; hex_digit (n / 16); hex_digit (n mod 16)]
  else [c].

(** [repr(s)] for a [str]. *)
Definition repr_str (s : string) : string :=
  let l := chars s in
  let q := if existsb (ascii_eqb "'"%char) l && negb (existsb (ascii_eqb dquote) l)
           then dquote else "'"%char in
  str (q :: flat_map (repr_char q) l ++ [q]).

Fixpoint join (sep : string) (l : list string) : string :=
  match l with
  | [] => ""
  | [x] => x
  | x :: t => (x ++ sep ++ join sep t)%string
  end.

(** [str(tuple_of_str)]. *)
Definition repr_tuple (l : list string) : string :=
  match l with
  | [] => "()"
  | [x] => ("(" ++ repr_str x ++ ",)")%string
  | _ => ("(" ++ join ", " (map repr_str l) ++ ")")%string
  end.

(** [str(list_of_str)]. *)
Definition repr_list (l : list string) : string :=
  ("[" ++ join ", " (map repr_str l) ++ "]")%string.

(* ------------------------------------------------------------------ *)
(** ** Iterations and the history window *)

(** The frozen dataclass [Iteration]; scores are floats, decisions
    booleans. *)
Record Iteration : Type := mkIteration {
  it_n : nat;
  it_up : string;
  it_sql : string;
  it_sql_model : option string;
  it_res_row_count : nat;
  it_res_columns : list string;
  it_res_samples : list (string * list string);
  it_res_error : option string;
  it_judge_text : string;
  it_judge_model : option string;
  it_judge_score : option pyfloat;
  it_judge_decision : option bool
}.

Definition lines (l : list string) : string := join (String nl "") l.

(** [_iteration_to_block(it)]. *)
Definition iteration_to_block (it : Iteration) : string :=
  let n := nat_str (it_n it) in
  let samples_lines :=
    map (fun '(pos, data) => (pos ++ ": " ++ repr_tuple data)%string) (it_res_samples it) in
  let res_body :=
    match it_res_error it with
    | Some e => if String.eqb e "" then [] else [("ERROR: " ++ e)%string]
    | None => []
    end ++
    [("row_count: " ++ nat_str (it_res_row_count it))%string;
     ("columns: " ++ repr_list (it_res_columns it))%string] ++
    match samples_lines with
    | [] => []
    | _ => "samples:" :: samples_lines
    end in
  lines [("<ITERATION " ++ n ++ ">")%string;
         ("<UP_" ++ n ++ ">")%string; it_up it; ("</UP_" ++ n ++ ">")%string;
         ("<SQL_" ++ n ++ ">")%string; it_sql it; ("</SQL_" ++ n ++ ">")%string;
         ("<RES_" ++ n ++ ">")%string; lines res_body; ("</RES_" ++ n ++ ">")%string;
         ("<J_" ++ n ++ ">")%string; it_judge_text it; ("</J_" ++ n ++ ">")%string;
         ("</ITERATION " ++ n ++ ">")%string].

(** The rendered [<HISTORY>] element: its iteration blocks and its text. *)
Record history_render : Type := mkHistory {
  hist_blocks : list string;
  hist_text : string
}.

(** [_history_blocks(iterations)]. *)
Definition history_blocks (iterations : list Iteration) : history_render :=
  match iterations with
  | [] => mkHistory [] ("<HISTORY/>" ++ String nl "")%string
  | first :: _ =>
    let start_n := nat_str (it_n first) in
    let end_n := nat_str (it_n (last iterations first)) in
    let blocks := map iteration_to_block iterations in
    mkHistory blocks
      ("<HISTORY from=" ++ String dquote start_n ++ String dquote " to="
       ++ String dquote end_n ++ String dquote ">" ++ String nl ""
       ++ lines blocks ++ String nl "" ++ "</HISTORY>")%string
  end.

(** The three prompt bodies, for the [iterations] passed to the builder
    (the loop passes [window_iters = iterations[-history_window:]]):
    each renders [_history_blocks(iterations[-self.history_window:])]. *)
Inductive prompt_role : Type := RolePromptWriter | RoleSqlWriter | RoleJudge.

Definition prompt_history (role : prompt_role) (history_window : Z)
           (iterations : list Iteration) : history_render :=
  match role with
  | RolePromptWriter => history_blocks (py_slice_last iterations history_window)
  | RoleSqlWriter => history_blocks (py_slice_last iterations history_window)
  | RoleJudge => history_blocks (py_slice_last iterations history_window)
  end.

(** The history rendered into a prompt at an iteration of [query], whose
    full history so far is [history]. *)
Definition loop_prompt_history (role : prompt_role) (history_window : Z)
           (history : list Iteration) : history_render :=
  prompt_history role history_window (py_slice_last history history_window).

(* ------------------------------------------------------------------ *)
(** ** The iteration loop: [ChEMBLLLMQuery.query] *)

(** A result row: each cell is [None] or the text [str(v)] of its value;
    a materialized table is its list of rows. *)
Definition row : Type := list (option string).
Definition table : Type := list row.

(** [execute_query_with_timeout]: [(True, df, None)] or
    [(False, None, msg)]. *)
Inductive exec_result : Type :=
| ExecOk (df : table)
| ExecErr (msg : string).

(** The observable effects of a run: calls to the three roles, SQL
    statements run against the database, and files written. *)
Inductive event : Type :=
| EvPromptWriter (n : nat)
| EvSqlWriter (n : nat)
| EvExecute (sql : string) (res : exec_result)
| EvJudge (n : nat) (decision : option bool) (score : option pyfloat)
| EvWriteIntermediate (n : nat)
| EvWriteResult (path : string).

(** What [query] does: return a value or raise. *)
Inductive outcome : Type :=
| QReturned (r : option table)
| QRaised (msg : string).

(** The results of the calls [query] makes (for the run's question UQ),
    as functions of the attempt index and of what the call sees: [_call_prompt_writer],
    [_call_sql_writer] (the cleaned SQL), [execute_query_with_timeout]
    and [_call_judge]; and the exceptions the steps that touch the result
    table may raise: sizing and summarising a materialized table
    ([_judge_context_limit], [_choose_sample_params], [_choose_strata_cols],
    [_summarize_result], e.g. [AttributeError] from [groups.take]), saving
    it as an intermediate CSV at iteration [n] ([mkdir], [write_csv]) and
    saving the final result to a path ([write_csv]). [None] is no
    exception. *)
Record env : Type := mkEnv {
  call_prompt_writer : nat -> list Iteration -> option string;
  call_sql_writer : nat -> string -> list Iteration -> option string;
  execute_query : string -> exec_result;
  call_judge_env : nat -> string -> string -> exec_result -> list Iteration ->
                   option bool * option pyfloat * string;
  summarize_error : nat -> table -> option string;
  write_intermediate_error : nat -> option string;
  write_result_error : string -> option string
}.

(** The configuration [query] reads from [self] and its arguments. *)
Record config : Type := mkConfig {
  max_retries : Z;
  history_window : Z;
  judge_score_threshold : pyfloat;
  save_intermediate : bool;
  save_to_file : option string;
  dry_run : bool
}.

(** The loop's stop test:
    [stop_by_threshold = judge_score is not None and judge_score >= t],
    [stop_by_yes = judge_decision is True and (judge_score is None or
    judge_score >= t)]. *)
Definition stop_test (thr : pyfloat) (decision : option bool) (score : option pyfloat) : bool :=
  let stop_by_threshold :=
    match score with Some s => py_ge s thr | None => false end in
  let stop_by_yes :=
    match decision with
    | Some true => match score with None => true | Some s => py_ge s thr end
    | _ => false
    end in
  stop_by_yes || stop_by_threshold.

Definition is_blank (s : string) : bool := String.eqb (py_strip s) "".

(** The summary fields stored in the [Iteration]: row count and columns
    of the result (samples are not needed here and kept empty). *)
Definition res_fields (res : exec_result) : nat * option string :=
  match res with
  | ExecOk df => (length df, None)
  | ExecErr msg => (0, Some msg)
  end.

Section Loop.
Variable E : env.
Variable cfg : config.

(** [for attempt_idx in range(self.max_retries)]: [fuel] iterations are
    left, [iterations] is the history and [up] the current UP. *)
Fixpoint query_loop (fuel attempt_idx : nat) (iterations : list Iteration)
         (up : option string) : outcome * list event :=
  match fuel with
  | O => (QReturned None, [])
  | S fuel' =>
    let n := S attempt_idx in
    let window_iters := py_slice_last iterations (history_window cfg) in
    let up_next := call_prompt_writer E attempt_idx window_iters in
    let ev_up := [EvPromptWriter n] in
    let up' := match up_next with
               | Some u => if is_blank u then up else Some (py_strip u)
               | None => up
               end in
    match up' with
    | None => (QRaised "Failed to generate UP_1", ev_up)
    | Some up_n =>
      let sql_opt := call_sql_writer E attempt_idx up_n window_iters in
      let ev_sql := ev_up ++ [EvSqlWriter n] in
      match sql_opt with
      | None => (QRaised "SQL generation returned None", ev_sql)
      | Some sql =>
        if dry_run cfg then (QReturned None, ev_sql) else
        let res := execute_query E sql in
        let df := match res with ExecOk t => Some t | ExecErr _ => None end in
        let ev_x := ev_sql ++ [EvExecute sql res] in
        match match df with Some t => summarize_error E n t | None => None end with
        | Some exc => (QRaised exc, ev_x)
        | None =>
        let '(jd, js, jt) := call_judge_env E attempt_idx up_n sql res window_iters in
        let ev_j := ev_x ++ [EvJudge n jd js] in
        let '(row_count, err) := res_fields res in
        let it := mkIteration n up_n sql None row_count [] [] err jt None js jd in
        let save_int := save_intermediate cfg && match df with Some _ => true | None => false end in
        match if save_int then write_intermediate_error E n else None with
        | Some exc => (QRaised exc, ev_j)
        | None =>
        let ev_w := ev_j ++ (if save_int then [EvWriteIntermediate n] else []) in
        if stop_test (judge_score_threshold cfg) jd js then
          match df with
          | None => (QReturned None, ev_w)
          | Some t =>
            match save_to_file cfg with
            | Some p =>
              if String.eqb p "" then (QReturned (Some t), ev_w) else
              match write_result_error E p with
              | Some exc => (QRaised exc, ev_w)
              | None => (QReturned (Some t), ev_w ++ [EvWriteResult p])
              end
            | None => (QReturned (Some t), ev_w)
            end
          end
        else
          let '(o, tr) := query_loop fuel' (S attempt_idx) (iterations ++ [it]) (Some up_n) in
          (o, ev_w ++ tr)
        end
        end
      end
    end
  end.
End Loop.

(** [ChEMBLLLMQuery.query(question, ...)]. *)
Definition query (E : env) (cfg : config) (question : string) : outcome * list event :=
  let uq := py_strip question in
  if String.eqb uq "" then (QReturned None, [])
  else query_loop E cfg (Z.to_nat (max_retries cfg)) 0 [] None.

(** The judgements and the executions recorded in a trace. *)
Definition judgements (tr : list event) : list (option bool * option pyfloat) :=
  flat_map (fun e => match e with EvJudge _ d s => [(d, s)] | _ => [] end) tr.
Definition executions (tr : list event) : list exec_result :=
  flat_map (fun e => match e with EvExecute _ r => [r] | _ => [] end) tr.

(* ------------------------------------------------------------------ *)
(** ** Result samplers: [sample_result_rows],
       [sample_result_rows_stratified] *)

Module Sampling.

(** [round(x)] of a float [x], given by its exact value: the nearest
    integer, ties to even. *)
Definition py_round (q : Q) : Z :=
  let f := Qfloor q in
  let r := (q - inject_Z f)%Q in
  if Qlt_le_dec r (1 # 2) then f
  else if Qlt_le_dec (1 # 2) r then (f + 1)%Z
  else if Z.even f then f else (f + 1)%Z.

(** Python floats are IEEE binary64 values, represented here by their
    exact value in [Q]. [2 ^ e] for an integer [e]. *)
Definition pow2 (e : Z) : Q := Qpower (2 # 1) e.

(** For [q > 0], the exponent [k] with [2 ^ k <= q < 2 ^ (k + 1)]. *)
Definition float_exp (q : Q) : Z :=
  let k0 := (Z.log2 (Qnum q) - Z.log2 (Zpos (Qden q)))%Z in
  if Qlt_le_dec q (pow2 k0) then (k0 - 1)%Z else k0.

(** The binary64 value nearest to [q > 0] (ties to even): a 53-bit
    significand, subnormal below [2 ^ -1022]. The exponent is not bounded
    above: the values rounded here are at most a row count, far below the
    overflow threshold [2 ^ 1024]. *)
Definition float_round_pos (q : Q) : Q :=
  let e := Z.max (float_exp q - 52) (-1074) in
  (inject_Z (py_round (q / pow2 e)) * pow2 e)%Q.

(** Rounding of an exact value to a float, as IEEE arithmetic and
    [float(int)] do it (round half to even). *)
Definition float_round (q : Q) : Q :=
  match (q ?= 0)%Q with
  | Eq => 0%Q
  | Gt => float_round_pos q
  | Lt => (- float_round_pos (- q))%Q
  end.

(** [a / b] on two ints (true division, correctly rounded). *)
Definition py_truediv (a b : Z) : Q := float_round (inject_Z a / inject_Z b).

(** [i * x] for an int [i] and a float [x]: [float(i) * x]. *)
Definition py_int_mul (i : Z) (x : Q) : Q := float_round (float_round (inject_Z i) * x).

Fixpoint insert_nat (x : nat) (l : list nat) : list nat :=
  match l with
  | [] => [x]
  | y :: t => if x <=? y then x :: l else y :: insert_nat x t
  end.

(** [sorted(set(l))]. *)
Definition sorted_set (l : list nat) : list nat :=
  fold_right insert_nat [] (nodup Nat.eq_dec l).

(** [l[:k]] for a Python int [k]. *)
Definition py_prefix {A} (l : list A) (k : Z) : list A :=
  if (0 <=? k)%Z then firstn (Z.to_nat k) l
  else firstn (Z.to_nat (Z.of_nat (length l) + k)) l.

(** [_truncate_cell(v, max_len)]. *)
Definition truncate_cell (v : option string) (max_len : Z) : string :=
  let s := match v with None => "NULL" | Some s => s end in
  let l := flat_map (fun c => if ascii_eqb c nl then ["\"%char; "n"%char] else [c]) (chars s) in
  if (max_len <? Z.of_nat (length l))%Z
  then str (py_prefix l (max_len - 3) ++ chars "...")
  else str l.

Inductive position : Type := Head | Middle | Tail.

(** An emitted sample: ['position': f'{position} (row {idx + 1})'] and
    ['data']. *)
Record sample : Type := mkSample {
  s_position : position;
  s_idx : nat;
  s_data : list string
}.

Definition position_name (p : position) : string :=
  match p with Head => "head" | Middle => "middle" | Tail => "tail" end.

(** The text of the ['position'] field. *)
Definition position_text (s : sample) : string :=
  (position_name (s_position s) ++ " (row " ++ nat_str (S (s_idx s)) ++ ")")%string.

(** [position = 'head' if idx < 3 else ('tail' if idx >= n - 3 else
    'middle')]. *)
Definition position_of (idx n : nat) : position :=
  if idx <? 3 then Head
  else if (Z.of_nat n - 3 <=? Z.of_nat idx)%Z then Tail else Middle.

(** [df.take(pl.Series(indices))]: [None] when it raises; [take_ok]
    says whether the installed polars provides [DataFrame.take]. *)
Definition df_take (take_ok : bool) (rows : table) (idx : list nat) : option table :=
  if take_ok && forallb (fun i => i <? length rows) idx
  then Some (map (fun i => nth i rows []) idx) else None.

(** The output loop shared by both samplers. *)
Definition emit (indices : list nat) (sampled : table) (n : nat) (max_cell_len : Z)
  : list sample :=
  map (fun '(local_i, r) =>
         let idx := if local_i <? length indices then nth local_i indices 0 else local_i in
         mkSample (position_of idx n) idx (map (fun v => truncate_cell v max_cell_len) r))
      (combine (seq 0 (length sampled)) sampled).

(** [for i in range(n): if i not in indices: indices.append(i); if
    len(indices) >= max_samples: break]. *)
Fixpoint fill_indices (todo : list nat) (indices : list nat) (max_samples : Z) : list nat :=
  match todo with
  | [] => indices
  | i :: t =>
    if existsb (Nat.eqb i) indices then fill_indices t indices max_samples
    else
      let indices' := indices ++ [i] in
      if (max_samples <=? Z.of_nat (length indices'))%Z then indices'
      else fill_indices t indices' max_samples
  end.

(** The indices chosen by [sample_result_rows] for [n > 0] rows. *)
Definition sample_indices (n : nat) (max_samples : Z) : list nat :=
  if (Z.of_nat n <=? max_samples)%Z then seq 0 n
  else if (max_samples <=? 9)%Z then
    let a := seq 0 (Nat.min 3 n) in
    let b := if 6 <? n then
               let mid_start := Nat.max 0 (n / 2 - 1) in
               map (fun i => mid_start + i) (seq 0 (Nat.min 3 (n - mid_start)))
             else [] in
    let c := if 9 <? n then seq (n - 3) 3 else [] in
    py_prefix (sorted_set (a ++ b ++ c)) max_samples
  else
    let step := py_truediv (Z.of_nat n - 1) (max_samples - 1) in
    let indices := sorted_set (map (fun i => Z.to_nat (py_round (py_int_mul (Z.of_nat i) step)))
                                   (py_range max_samples)) in
    if (Z.of_nat (length indices) <? max_samples)%Z then
      sorted_set (py_prefix (fill_indices (seq 0 n) indices max_samples) max_samples)
    else indices.

(** [sample_result_rows(result_df, max_samples, max_cell_len)]. *)
Definition sample_result_rows (take_ok : bool) (rows : table) (max_samples max_cell_len : Z)
  : list sample :=
  let n := length rows in
  if n =? 0 then [] else
  let indices := sample_indices n max_samples in
  match df_take take_ok rows indices with
  | Some sampled => emit indices sampled n max_cell_len
  | None =>
    let sampled := py_prefix rows (Z.min max_samples (Z.of_nat n)) in
    emit (seq 0 (length sampled)) sampled n max_cell_len
  end.

(** [_evenly_spaced_indices(count, max_items)]. *)
Definition evenly_spaced_indices (count max_items : Z) : list nat :=
  if (count <=? 0)%Z || (max_items <=? 0)%Z then []
  else if (count <=? max_items)%Z then py_range count
  else if (max_items =? 1)%Z then [0]
  else
    let step := py_truediv (count - 1) (max_items - 1) in
    sorted_set (map (fun i => Z.to_nat (py_round (py_int_mul (Z.of_nat i) step)))
                    (py_range max_items)).

(** [sorted(range(k), key=lambda i: sizes[i], reverse=True)] (stable). *)
Fixpoint insert_desc (sizes : list Z) (x : nat) (l : list nat) : list nat :=
  match l with
  | [] => [x]
  | y :: t => if (nth y sizes 0 <? nth x sizes 0)%Z then x :: l
              else y :: insert_desc sizes x t
  end.
Definition order_desc (sizes : list Z) : list nat :=
  fold_left (fun acc x => insert_desc sizes x acc) (seq 0 (length sizes)) [].

(** [extras[idx] += step] over [range(abs(diff))]. *)
Fixpoint adjust_extras (order : list nat) (gc : nat) (i k : nat) (step : Z)
         (extras : list Z) : list Z :=
  match k with
  | O => extras
  | S k' =>
    let idx := nth (i mod gc) order 0 in
    if (step <? 0)%Z && (nth idx extras 0 =? 0)%Z then
      adjust_extras order gc (S i) k' step extras
    else
      adjust_extras order gc (S i) k' step
        (firstn idx extras ++ (nth idx extras 0 + step)%Z :: skipn (S idx) extras)
  end.

(** The per-group sample counts [per_group]. *)
Definition per_group_counts (sizes : list Z) (target_total : Z) : list Z :=
  let gc := length sizes in
  let remaining := Z.max 0 (target_total - Z.of_nat gc) in
  if (0 <? remaining)%Z then
    let total_size := let t := fold_right Z.add 0%Z sizes in if (t =? 0)%Z then 1%Z else t in
    let extras := map (fun s => py_round (py_int_mul remaining (py_truediv s total_size))) sizes in
    let diff := (remaining - fold_right Z.add 0%Z extras)%Z in
    let extras := if (diff =? 0)%Z then extras
                  else adjust_extras (order_desc sizes) gc 0 (Z.to_nat (Z.abs diff))
                                     (if (0 <? diff)%Z then 1 else -1)%Z extras in
    map (fun e => 1 + e)%Z extras
  else map (fun _ => 1%Z) sizes.

(** [sample_result_rows_stratified(result_df, strata_cols=...,
    max_samples=..., max_cell_len=...)]. [strata_ok] says that
    [strata_cols] is non-empty and names columns of the frame;
    [groups] is the [_row_idx] column of
    [df.group_by(strata_cols).agg(...).sort(strata_cols)]: the row indices
    of each group, groups in sorted key order. *)
Definition sample_result_rows_stratified (take_ok strata_ok : bool)
           (groups : list (list nat)) (rows : table) (max_samples max_cell_len : Z)
  : py_result (list sample) :=
  let n := length rows in
  let fallback := sample_result_rows take_ok rows max_samples max_cell_len in
  if n =? 0 then PyOk [] else
  if negb strata_ok then PyOk fallback else
  match groups with
  | [] => PyOk fallback
  | _ =>
    let groups' :=
      if (max_samples <? Z.of_nat (length groups))%Z then
        let gi := evenly_spaced_indices (Z.of_nat (length groups)) max_samples in
        if take_ok then Some (map (fun i => nth i groups []) gi) else None
      else Some groups in
    match groups' with
    | None => PyErr "AttributeError"
    | Some [] => PyOk fallback
    | Some gs =>
      let sizes := map (fun g => Z.of_nat (length g)) gs in
      let per_group := per_group_counts sizes (Z.min max_samples (Z.of_nat n)) in
      let chosen :=
        flat_map (fun '(row_list, pg) =>
                    match row_list with
                    | [] => []
                    | _ =>
                      let want := Z.min pg (Z.of_nat (length row_list)) in
                      if (want <=? 0)%Z then []
                      else map (fun pos => nth pos row_list 0)
                               (evenly_spaced_indices (Z.of_nat (length row_list)) want)
                    end)
                 (combine gs per_group) in
      match chosen with
      | [] => PyOk fallback
      | _ =>
        let sample_indices := sorted_set chosen in
        match df_take take_ok rows sample_indices with
        | Some sampled => PyOk (emit sample_indices sampled n max_cell_len)
        | None =>
          PyOk (emit sample_indices (py_prefix rows (Z.min max_samples (Z.of_nat n))) n max_cell_len)
        end
      end
    end
  end.

End Sampling.

(* ------------------------------------------------------------------ *)
(** ** Sample sizing: [ChEMBLLLMQuery._choose_sample_params] *)

Module SampleParams.

(** [_estimate_tokens(text)] for a text of [len] characters. *)
Definition estimate_tokens (len : Z) : Z :=
  if (len =? 0)%Z then 0%Z else Z.max 1 (len / 4).

(** [_estimate_sample_row_tokens(df, max_cell_len=..., sample_rows=200)]:
    the average of [len(str(truncated_row)) + 20] over the first rows,
    as a token count. *)
Definition estimate_sample_row_tokens (rows : table) (max_cell_len : Z) : Z :=
  let h := length rows in
  if h =? 0 then 0%Z else
  let sample := firstn (Nat.min 200 h) rows in
  let total_chars :=
    fold_left (fun acc r =>
                 (acc + Z.of_nat (String.length
                           (repr_tuple (map (fun v => Sampling.truncate_cell v max_cell_len) r)))
                  + 20)%Z)
              sample 0%Z in
  let avg := (total_chars / Z.of_nat (length sample))%Z in
  estimate_tokens avg.

(** [_choose_sample_params(df, available_tokens=...)] with its defaults
    [min_samples=200], [max_samples=1000], [max_cell_len=60]:
    [(sample_rows, cell_len)]. [int(available_tokens * 0.6)] is
    [3 * available_tokens / 5] rounded down. *)
Definition choose_sample_params (rows : table) (available_tokens : option Z) : Z * Z :=
  let min_samples := 200%Z in
  let max_samples := 1000%Z in
  let max_cell_len := 60%Z in
  let h := Z.of_nat (length rows) in
  if (h =? 0)%Z then (0%Z, max_cell_len) else
  let cap := Z.min h max_samples in
  match available_tokens with
  | None => (Z.max 1 (Z.min cap (Z.max min_samples cap)), max_cell_len)
  | Some a =>
    if (a <=? 0)%Z then (Z.max 1 (Z.min cap (Z.max min_samples cap)), max_cell_len) else
    let budget := (3 * a / 5)%Z in
    let tokens_per_row := estimate_sample_row_tokens rows max_cell_len in
    if (tokens_per_row <=? 0)%Z then (Z.max 1 (Z.min cap (Z.max min_samples cap)), max_cell_len) else
    let max_by_budget := Z.max 1 (budget / tokens_per_row) in
    let target := Z.min cap (Z.max min_samples (Z.min max_samples max_by_budget)) in
    let fallback := (target, max_cell_len) in
    if (target <? min_samples)%Z && (min_samples <=? h)%Z then
      let try_len alt k :=
        let tpr := estimate_sample_row_tokens rows alt in
        if (tpr <=? 0)%Z then k
        else if (min_samples <=? Z.max 1 (budget / tpr))%Z then (min_samples, alt) else k in
      try_len 50%Z (try_len 40%Z (try_len 30%Z fallback))
    else fallback
  end.

(** The [available_tokens] the loop passes when the judge's context
    limit [context_limit] is known and the scaffold costs [base_tokens]:
    [max(0, int(context_limit * 0.9) - base_tokens)]; [res_mode] is
    [sample] unless [available > 0] and the full result fits. *)
Definition available_tokens_of (context_limit base_tokens : Z) : Z :=
  Z.max 0 (9 * context_limit / 10 - base_tokens).

End SampleParams.

(* ------------------------------------------------------------------ *)
(** ** Model lists: [get_model_list], [filter_models_by_context],
       [get_openrouter_context_map] *)

Module ModelLists.

Definition CHEAP_MODELS : list string := [
  "z-ai/glm-4.7"; "z-ai/glm-4.6v"; "z-ai/glm-4.6:exacto"; "z-ai/glm-4.5-air:free";
  "minimax/minimax-m2.1"; "anthropic/claude-4.5-haiku"; "deepseek/deepseek-v3.2-speciale";
  "deepseek/deepseek-v3.2"; "minimax/minimax-m2.1"; "openai/gpt-5.1-codex-mini";
  "openai/gpt-5-nano"; "x-ai/grok-4.1-fast"; "x-ai/grok-code-fast-1";
  "google/gemini-3-flash-preview"; "qwen/qwen3-coder-flash"].

Definition EXPENSIVE_MODELS : list string := [
  "openai/gpt-5.2"; "openai/gpt-5.2-chat"; "openai/gpt-5.1-codex-max"; "openai/gpt-5.1-codex";
  "anthropic/claude-opus-4.5"; "anthropic/claude-sonnet-4.5"; "anthropic/claude-haiku-4.5";
  "x-ai/grok-4"; "google/gemini-3-pro-preview"; "qwen/qwen3-coder-plus";
  "qwen/qwen3-coder:exacto"].

Definition SUPER_MODELS : list string := ["openai/gpt-5.2-pro"].

Definition ALL_MODELS : list string := CHEAP_MODELS ++ EXPENSIVE_MODELS ++ SUPER_MODELS.

Definition CEREBRAS_MODELS : list string := ["zai-glm-4.7"].
Definition DEEPSEEK_MODELS : list string := ["deepseek-reasoner"; "deepseek-chat"].
Definition ANTHROPIC_MODELS : list string :=
  ["claude-haiku-4.5"; "claude-sonnet-4.5"; "claude-opus-4.5"].

(** [(provider or 'openrouter').lower()]; [None] is Python's [None]. *)
Definition provider_key (provider : option string) : string :=
  py_lower (match provider with
            | Some p => if String.eqb p "" then "openrouter" else p
            | None => "openrouter"
            end).

(** [get_model_list(category, provider)]. *)
Definition get_model_list (category : string) (provider : option string)
  : py_result (list string) :=
  let provider_lower := provider_key provider in
  if String.eqb provider_lower "cerebras" then PyOk CEREBRAS_MODELS
  else if String.eqb provider_lower "deepseek" then PyOk DEEPSEEK_MODELS
  else if String.eqb provider_lower "anthropic" then PyOk ANTHROPIC_MODELS
  else if String.eqb provider_lower "local" then PyOk []
  else if String.eqb category "cheap" then PyOk CHEAP_MODELS
  else if String.eqb category "expensive" then PyOk EXPENSIVE_MODELS
  else if String.eqb category "super" then PyOk SUPER_MODELS
  else if String.eqb category "all" then PyOk ALL_MODELS
  else PyErr "ValueError".

(** A [Dict[str, int]] of model context lengths, as its items. *)
Definition ctx_map : Type := list (string * Z).

(** [context_map.get(k, d)]. *)
Fixpoint ctx_get (m : ctx_map) (k : string) (d : Z) : Z :=
  match m with
  | [] => d
  | (k', v) :: t => if String.eqb k k' then v else ctx_get t k d
  end.

(** [get_openrouter_context_map()]: [api_key] is
    [os.getenv('OPENROUTER_API_KEY')]; [fetch] is the dict built from the
    [/api/v1/models] response, or the exception that the request,
    [raise_for_status] or the decoding raised. *)
Definition get_openrouter_context_map (api_key : option string) (fetch : py_result ctx_map)
  : py_result ctx_map :=
  match api_key with
  | None => PyOk []
  | Some k => if String.eqb k "" then PyOk [] else fetch
  end.

(** [filter_models_by_context(models, min_context)] with the module-level
    cache [_OPENROUTER_CONTEXT_CACHE]: the returned list and the cache
    after the call. *)
Definition filter_models_by_context (cache : option ctx_map) (api_key : option string)
           (fetch : py_result ctx_map) (models : list string) (min_context : Z)
  : list string * option ctx_map :=
  if (min_context <=? 0)%Z then (models, cache) else
  let context_map :=
    match cache with
    | Some m => PyOk m
    | None => get_openrouter_context_map api_key fetch
    end in
  match context_map with
  | PyErr _ => (models, cache)
  | PyOk m =>
    let filtered := filter (fun x => (min_context <=? ctx_get m x 0)%Z) models in
    if length filtered =? 0 then ([], Some m) else (filtered, Some m)
  end.

End ModelLists.

(* ------------------------------------------------------------------ *)
(** ** SQLite identifier quoting: [_quote_ident] *)

Module QuoteIdent.

(** [_quote_ident(name)]: [f'"{name.replace(chr(34), 2 * chr(34))}"']. *)
Definition quote_ident (name : string) : string :=
  str (dquote :: flat_map (fun c => if ascii_eqb c dquote then [dquote; dquote] else [c])
                          (chars name) ++ [dquote]).

End QuoteIdent.

(* ------------------------------------------------------------------ *)
(** ** Strata columns: [ChEMBLLLMQuery._choose_strata_cols] *)

Module StrataCols.

Definition year_candidates : list string :=
  ["publication_year"; "year"; "pub_year"; "doc_year"].
Definition class_candidates : list string :=
  ["target_class"; "target_classification"; "protein_class";
   "protein_classification"; "protein_class_name"].

(** [_choose_strata_cols(df)]; [columns] is [None] when [df is None],
    else [df.columns]. *)
Definition choose_strata_cols (columns : option (list string)) : list string :=
  match columns with
  | None => []
  | Some cols =>
    let mem c := existsb (String.eqb c) cols in
    let year_col := find mem year_candidates in
    let class_col := find mem class_candidates in
    match year_col, class_col with
    | Some y, Some c => [y; c]
    | Some y, None => [y]
    | None, Some c => [c]
    | None, None => []
    end
  end.

End StrataCols.

(* ------------------------------------------------------------------ *)
(** ** Judge model rotation:
       [ChEMBLLLMQuery._ensure_judge_provider_for_attempt_with_offset] *)

Module JudgeRotation.

(** The model [_ensure_judge_provider_for_attempt_with_offset] selects:
    [judge_model_schedule[(attempt_idx + offset) % len(...)]] when the
    schedule is non-empty, else [judge_model]. *)
Definition judge_model_for (judge_model_schedule : list string) (judge_model : string)
           (attempt_idx offset : nat) : string :=
  match judge_model_schedule with
  | [] => judge_model
  | _ => nth ((attempt_idx + offset) mod length judge_model_schedule) judge_model_schedule ""
  end.

End JudgeRotation.

(* ================================================================== *)
(** * Properties *)

Module SchedulerFacts.
Import Scheduler.

Lemma cic_find_primes_100 : cic_find_primes 100 = Some primes_upto_100_ref.
Proof. vm_compute. reflexivity. Qed.

Lemma random_loop_length draws models k fuel last :
  length (random_loop draws models k fuel last) = fuel.
Proof.
  revert k last; induction fuel as [|fuel IH]; intros k last; simpl; auto.
Qed.

Lemma random_loop_members draws models k fuel last :
  (forall j, draws j < length models) ->
  forall x, In x (random_loop draws models k fuel last) -> In x models.
Proof.
  intros Hd; revert k last; induction fuel as [|fuel IH]; intros k last x Hx;
    simpl in Hx; [contradiction|].
  destruct Hx as [Hx|Hx]; [|eapply IH; eauto].
  subst x. apply nth_In.
  destruct ((Z.of_nat (draws k) =? last)%Z && (1 <? length models)) eqn:E.
  - apply Nat.mod_upper_bound. specialize (Hd k). lia.
  - apply Hd.
Qed.

Lemma nth_mod_In (models : list string) i :
  models <> [] -> In (nth (i mod length models) models "") models.
Proof.
  intros Hm. apply nth_In. apply Nat.mod_upper_bound.
  destruct models; [congruence|simpl; lia].
Qed.

Lemma nth_map_seq {A} (f : nat -> A) n i d :
  i < n -> nth i (map f (seq 0 n)) d = f i.
Proof.
  intros Hi. rewrite nth_indep with (d' := f 0) by (rewrite length_map, length_seq; lia).
  rewrite map_nth, seq_nth by lia. reflexivity.
Qed.

End SchedulerFacts.

Module SchedulerClaims.
Import Scheduler SchedulerFacts.

(** C3: for every count and every non-empty model list, the [cicada]
    policy of [generate_model_schedule] equals the reference schedule
    [schedule[i] = models[((i * primes[i mod |primes|]) mod 233) mod N]]
    over the primes up to 100, and does not depend on the random draws
    (same inputs, same schedule). *)
Theorem cicada_matches_reference (draws draws' : nat -> nat) (n : Z)
        (models : list string) (Hm : models <> []) (Hn : (0 <= n)%Z) :
  generate_model_schedule draws n models "cicada"
    = PyOk (map (cicada_ref models) (seq 0 (Z.to_nat n)))
  /\ generate_model_schedule draws n models "cicada"
     = generate_model_schedule draws' n models "cicada".
Proof.
  assert (Hg : forall d, generate_model_schedule d n models "cicada"
                         = PyOk (map (cicada_ref models) (seq 0 (Z.to_nat n)))).
  { intros d. unfold generate_model_schedule.
    destruct models as [|m ms]; [congruence|]. simpl length.
    cbv beta iota zeta. simpl (String.eqb _ _).
    unfold cic_schedule. rewrite cic_find_primes_100.
    rewrite map_map. reflexivity. }
  split; [apply Hg|]. rewrite !Hg. reflexivity.
Qed.

Lemma cicada_matches_reference_witness :
  ["m1"; "m2"; "m3"] <> [] /\ (0 <= 12)%Z /\
  generate_model_schedule (fun _ => 0) 12 ["m1"; "m2"; "m3"] "cicada"
    = PyOk (map (cicada_ref ["m1"; "m2"; "m3"]) (seq 0 (Z.to_nat 12))).
Proof.
  split; [discriminate|]. split; [lia|].
  apply (proj1 (cicada_matches_reference (fun _ => 0) (fun _ => 1) 12 ["m1"; "m2"; "m3"]
                  ltac:(discriminate) ltac:(lia))).
Defined.

(** C4: for every non-empty model list, every count [>= 0] and each policy
    orderly, random (for every sequence of draws of
    [random.randint(0, N-1)]) and cicada, the schedule has exactly
    [count] entries, all taken from the model list; the orderly schedule
    is [schedule[i] = models[i mod N]]. *)
Theorem schedule_length_and_members (draws : nat -> nat) (count : Z)
        (models : list string) (policy : string)
        (Hm : models <> []) (Hc : (0 <= count)%Z)
        (Hp : In policy ["orderly"; "random"; "cicada"])
        (Hd : forall k, draws k < length models) :
  exists schedule,
    generate_model_schedule draws count models policy = PyOk schedule
    /\ Z.of_nat (length schedule) = count
    /\ (forall x, In x schedule -> In x models)
    /\ (policy = "orderly" ->
        forall i, i < length schedule ->
                  nth i schedule "" = nth (i mod length models) models "").
Proof.
  assert (HN : (length models =? 0) = false).
  { destruct models; [congruence|reflexivity]. }
  unfold generate_model_schedule. rewrite HN.
  destruct Hp as [<-|[<-|[<-|[]]]]; simpl (String.eqb _ _); cbv iota.
  - eexists; split; [reflexivity|].
    unfold py_range. rewrite length_map, length_seq. split; [lia|]. split.
    + intros x Hx. apply in_map_iff in Hx. destruct Hx as [i [<- _]].
      apply nth_mod_In; auto.
    + intros _ i Hi.
      rewrite nth_map_seq by lia. reflexivity.
  - eexists; split; [reflexivity|].
    rewrite random_loop_length. split; [lia|]. split.
    + intros x Hx. eapply random_loop_members; eauto.
    + discriminate.
  - unfold cic_schedule. rewrite cic_find_primes_100.
    eexists; split; [reflexivity|].
    unfold py_range. rewrite !length_map, length_seq. split; [lia|]. split.
    + intros x Hx. apply in_map_iff in Hx. destruct Hx as [p [<- _]].
      apply nth_mod_In; auto.
    + discriminate.
Qed.

Lemma schedule_length_and_members_witness :
  exists schedule,
    generate_model_schedule (fun k => k mod 3) 7 ["a"; "b"; "c"] "orderly" = PyOk schedule
    /\ Z.of_nat (length schedule) = 7%Z
    /\ (forall x, In x schedule -> In x ["a"; "b"; "c"])
    /\ ("orderly" = "orderly" ->
        forall i, i < length schedule ->
                  nth i schedule "" = nth (i mod length ["a"; "b"; "c"]) ["a"; "b"; "c"] "").
Proof.
  apply (schedule_length_and_members (fun k => k mod 3) 7 ["a"; "b"; "c"] "orderly").
  - discriminate.
  - lia.
  - simpl; auto.
  - intros k. change (k mod 3 < 3). apply Nat.mod_upper_bound. lia.
Defined.

End SchedulerClaims.

Module JudgeParserClaims.

Ltac none_case := split; [left; reflexivity | intros ? ? Hc; discriminate Hc].

Lemma score_range_fin (f : pyfloat) :
  py_le (PFin 0) f && py_le f (PFin 1) = true ->
  exists q, f = PFin q /\ (0 <= q <= 1)%Q.
Proof.
  destruct f as [q| | |]; simpl; try discriminate.
  intros H. apply andb_true_iff in H as [H1 H2].
  exists q. split; [reflexivity|].
  split; apply Qle_bool_iff; assumption.
Qed.

(** C9: [parse_judge_output] is total and all-or-nothing: on every text it
    returns [(None, None)] or a decision together with a finite score in
    [[0, 1]]; a decision and score come back only when the candidate
    substring decodes to a JSON object whose [decision] reads YES or NO and
    whose [score] converts to that float, so a decode failure, a missing
    field, another decision or a score outside [[0, 1]] gives
    [(None, None)]. This holds for every JSON decoder and every [float]
    conversion. *)
Theorem parse_judge_output_all_or_nothing
        (json_loads : string -> option pyobj) (float_of_str : string -> option pyfloat)
        (text : string) :
  (parse_judge_output json_loads float_of_str text = (None, None)
   \/ exists (d : bool) (q : Q),
        parse_judge_output json_loads float_of_str text = (Some d, Some (PFin q))
        /\ (0 <= q <= 1)%Q)
  /\ (forall d s,
        parse_judge_output json_loads float_of_str text = (Some d, Some s) ->
        exists candidate kv,
          judge_candidate text = Some candidate
          /\ json_loads candidate = Some (ODict kv)
          /\ decision_of (match assoc_last "decision" kv with
                          | Some v => Some v
                          | None => Some (OStr "")
                          end) = Some d
          /\ py_float float_of_str (assoc_last "score" kv) = Some s
          /\ py_le (PFin 0) s && py_le s (PFin 1) = true).
Proof.
  unfold parse_judge_output.
  destruct (judge_candidate text) as [cand|]; [|none_case].
  destruct (json_loads cand) as [[| | | | | |kv]|] eqn:HJ; try none_case.
  destruct (decision_of _) as [d|] eqn:HD;
  destruct (py_float float_of_str (assoc_last "score" kv)) as [f|] eqn:HF; try none_case;
  destruct (py_le (PFin 0) f && py_le f (PFin 1)) eqn:HR; try none_case.
  split.
  - right. destruct (score_range_fin f HR) as [q [-> Hq]]. exists d, q. auto.
  - intros d' s' Heq. inversion Heq; subst.
    exists cand, kv. repeat split; auto.
Qed.

End JudgeParserClaims.

Module JudgeCallClaims.

Lemma parse_score_not_nan json_loads float_of_str text d s :
  parse_judge_output json_loads float_of_str text = (Some d, Some s) ->
  is_nan s = false.
Proof.
  unfold parse_judge_output.
  destruct (judge_candidate text); [|discriminate].
  destruct (json_loads s0) as [[| | | | | |kv]|]; try discriminate.
  destruct (decision_of _); destruct (py_float float_of_str (assoc_last "score" kv)) as [f|];
    try discriminate.
  destruct (py_le (PFin 0) f && py_le f (PFin 1)) eqn:HR; [|discriminate].
  intros H; inversion H; subst.
  destruct s; try reflexivity. discriminate.
Qed.

Lemma not_lt_ge (s t : pyfloat) :
  is_nan s = false -> is_nan t = false -> py_lt s t = false -> py_ge s t = true.
Proof.
  unfold py_ge.
  destruct s as [a| | |], t as [b| | |]; simpl; try discriminate; auto.
  intros _ _ H. apply negb_false_iff in H. exact H.
Qed.

Lemma judge_loop_returned json_loads float_of_str thr gen :
  is_nan thr = false ->
  forall fuel offset last d s t,
    judge_loop json_loads float_of_str thr gen offset fuel last = LoopReturned d s t ->
    (d = true <-> py_ge s thr = true).
Proof.
  intros Hthr fuel. induction fuel as [|fuel IH]; intros offset last d s t H;
    simpl in H; [discriminate|].
  destruct (gen offset) as [text|]; [|eapply IH; eauto].
  destruct (parse_judge_output json_loads float_of_str (py_strip text)) as [[d0|] [s0|]] eqn:HP;
    try (eapply IH; eauto; fail).
  destruct (d0 && py_lt s0 thr) eqn:H1; [eapply IH; eauto|].
  destruct (negb d0 && py_ge s0 thr) eqn:H2; [eapply IH; eauto|].
  inversion H; subst d0 s0 t.
  destruct d; simpl in *.
  - split; [intros _|reflexivity].
    apply not_lt_ge; auto. eapply parse_score_not_nan; eauto.
  - rewrite H2. split; discriminate.
Qed.

(** C2 (counterexample): with one judge attempt and threshold 0.9, a
    response [{"analysis":"ok","score":0.5,"decision":"YES"}] fails the
    invariant check, the retries are exhausted, and the fallback returns
    the pair parsed from it: decision YES with a score 0.5 below the
    threshold. *)
Lemma call_judge_fallback_breaks_invariant :
  call_judge JsonModel.json_loads JsonModel.float_of_str (PFin (9 # 10))
    (fun k => if k =? 0
              then Some (json_text "{'analysis':'ok','score':0.5,'decision':'YES'}")
              else None) true 1
  = (Some true, Some (PFin (5 # 10)),
     (json_text "{'analysis':'ok','score':0.5,'decision':'YES'}"))
  /\ py_ge (PFin (5 # 10)) (PFin (9 # 10)) = false.
Proof. vm_compute. split; reflexivity. Qed.

(** C2 (amended): for a threshold that is not NaN, every pair with both
    fields returned by [_call_judge] satisfies
    [decision = YES <-> score >= threshold], except on the fallback after
    all retries are exhausted, which returns the pair parsed from the last
    response text (so it may break the invariant). *)
Theorem call_judge_invariant_or_fallback json_loads float_of_str thr gen
        (available : bool) (retries : Z) (d : bool) (s : pyfloat) (t : string)
        (Hthr : is_nan thr = false)
        (Hres : call_judge json_loads float_of_str thr gen available retries
                = (Some d, Some s, t)) :
  (d = true <-> py_ge s thr = true)
  \/ (judge_loop json_loads float_of_str thr gen 0 (Z.to_nat (Z.max 1 retries)) None
        = LoopExhausted (Some t)
      /\ parse_judge_output json_loads float_of_str t = (Some d, Some s)).
Proof.
  unfold call_judge in Hres.
  destruct available; simpl in Hres; [|discriminate].
  destruct (judge_loop json_loads float_of_str thr gen 0 (Z.to_nat (Z.max 1 retries)) None)
    as [d0 s0 t0|[lt|]] eqn:HL.
  - inversion Hres; subst. left. eapply judge_loop_returned; eauto.
  - right. inversion Hres; subst. split; [reflexivity|].
    destruct (parse_judge_output json_loads float_of_str t) as [a b].
    simpl in *. subst. reflexivity.
  - discriminate.
Qed.

Lemma call_judge_invariant_or_fallback_witness :
  let gen := fun k : nat => if k =? 0
             then Some (json_text "{'analysis':'ok','score':0.95,'decision':'YES'}")
             else None in
  is_nan (PFin (9 # 10)) = false
  /\ call_judge JsonModel.json_loads JsonModel.float_of_str (PFin (9 # 10)) gen true 3
     = (Some true, Some (PFin (95 # 100)),
        (json_text "{'analysis':'ok','score':0.95,'decision':'YES'}"))
  /\ ((true = true <-> py_ge (PFin (95 # 100)) (PFin (9 # 10)) = true)
      \/ (judge_loop JsonModel.json_loads JsonModel.float_of_str (PFin (9 # 10)) gen 0
            (Z.to_nat (Z.max 1 3)) None
          = LoopExhausted (Some (json_text "{'analysis':'ok','score':0.95,'decision':'YES'}"))
          /\ parse_judge_output JsonModel.json_loads JsonModel.float_of_str
               (json_text "{'analysis':'ok','score':0.95,'decision':'YES'}")
             = (Some true, Some (PFin (95 # 100))))).
Proof.
  intros gen.
  assert (Hc : call_judge JsonModel.json_loads JsonModel.float_of_str (PFin (9 # 10)) gen true 3
     = (Some true, Some (PFin (95 # 100)),
        (json_text "{'analysis':'ok','score':0.95,'decision':'YES'}")))
    by (vm_compute; reflexivity).
  split; [reflexivity|]. split; [exact Hc|].
  exact (call_judge_invariant_or_fallback JsonModel.json_loads JsonModel.float_of_str
           (PFin (9 # 10)) gen true 3 true (PFin (95 # 100))
           (json_text "{'analysis':'ok','score':0.95,'decision':'YES'}") eq_refl Hc).
Defined.

End JudgeCallClaims.

Module HistoryClaims.

Lemma history_blocks_count (its : list Iteration) :
  length (hist_blocks (history_blocks its)) = length its.
Proof.
  destruct its as [|i t]; simpl; [reflexivity|].
  rewrite length_map. reflexivity.
Qed.

Lemma py_slice_last_zero {A} (l : list A) : py_slice_last l 0 = l.
Proof. reflexivity. Qed.

Lemma py_slice_last_pos_length {A} (l : list A) (k : Z) :
  (0 < k)%Z -> Z.of_nat (length (py_slice_last l k)) = Z.min k (Z.of_nat (length l)).
Proof.
  intros Hk. unfold py_slice_last.
  destruct (k =? 0)%Z eqn:E0; [apply Z.eqb_eq in E0; lia|].
  destruct (Z.of_nat (length l) - k <? 0)%Z eqn:E1.
  - apply Z.ltb_lt in E1. simpl. lia.
  - apply Z.ltb_ge in E1. rewrite length_skipn. lia.
Qed.

(** For a positive window [M], every prompt of the loop renders at most
    [M] iteration blocks. *)
Lemma loop_prompt_history_positive (role : prompt_role) (M : Z) (its : list Iteration) :
  (0 < M)%Z -> (Z.of_nat (length (hist_blocks (loop_prompt_history role M its))) <= M)%Z.
Proof.
  intros HM. unfold loop_prompt_history, prompt_history.
  destruct role; rewrite history_blocks_count, py_slice_last_pos_length by exact HM;
    lia.
Qed.

(** C6 (code bug): with [history_window = 0] the slice
    [iterations[-0:]] is the whole list, so every prompt built in the loop
    (prompt-writer, SQL-writer and judge) renders all iterations of the
    history, not at most 0. *)
Theorem history_window_zero_renders_all (role : prompt_role) (its : list Iteration) :
  length (hist_blocks (loop_prompt_history role 0 its)) = length its.
Proof.
  unfold loop_prompt_history, prompt_history.
  destruct role; rewrite !py_slice_last_zero; apply history_blocks_count.
Qed.

End HistoryClaims.

Module QueryClaims.

(** The rounds of a trace: each executed statement's result with the
    judgement made on it. *)
Definition rounds (tr : list event) : list (exec_result * (option bool * option pyfloat)) :=
  combine (executions tr) (judgements tr).

(** The table a round's execution materialized. *)
Definition table_of (res : exec_result) : option table :=
  match res with ExecOk t => Some t | ExecErr _ => None end.

(** Runs of [query] used below.  The SQL writer always returns the same
    statement; the judge accepts with score 0.95 from the second attempt
    on, after rejecting the first with score 0.2. *)
Definition drugs_table : table := [[Some "aspirin"]; [Some "ibuprofen"]].

Definition judge_second (n : nat) (up sql : string) (res : exec_result)
           (its : list Iteration) : option bool * option pyfloat * string :=
  match n with
  | O => (Some false, Some (PFin (2 # 10)), "too broad")
  | S _ => (Some true, Some (PFin (95 # 100)), "good")
  end.

Definition env_ok : env :=
  mkEnv (fun _ _ => Some "list all drug names")
        (fun _ _ _ => Some "SELECT pref_name FROM molecule_dictionary")
        (fun _ => ExecOk drugs_table)
        judge_second
        (fun _ _ => None) (fun _ => None) (fun _ => None).

(** The same run, but the database rejects the statement while the judge
    accepts it on the first attempt. *)
Definition env_exec_fails : env :=
  mkEnv (fun _ _ => Some "list all drug names")
        (fun _ _ _ => Some "SELECT pref_name FROM molecule_dictionary")
        (fun _ => ExecErr "no such table: molecule_dictionary")
        (fun _ _ _ _ _ => (Some true, Some (PFin (95 # 100)), "good"))
        (fun _ _ => None) (fun _ => None) (fun _ => None).

Definition cfg_run : config := mkConfig 3 11 (PFin (9 # 10)) true None false.

Lemma drop_space_all (l : list ascii) :
  forallb is_py_space l = true -> drop_space l = [].
Proof.
  induction l as [|c t IH]; simpl; [reflexivity|].
  intros H. apply andb_true_iff in H as [H1 H2]. rewrite H1. auto.
Qed.

Lemma strip_all_space (q : string) :
  forallb is_py_space (chars q) = true -> py_strip q = "".
Proof.
  intros H. unfold py_strip, py_strip_l. rewrite (drop_space_all (chars q) H).
  reflexivity.
Qed.

Lemma rounds_step (n : nat) (sql : string) (res : exec_result) d s (l : list event) :
  rounds (EvPromptWriter n :: EvSqlWriter n :: EvExecute sql res :: EvJudge n d s :: l)
  = (res, (d, s)) :: rounds l.
Proof. reflexivity. Qed.

Lemma rounds_write_int (n : nat) (l : list event) :
  rounds (EvWriteIntermediate n :: l) = rounds l.
Proof. reflexivity. Qed.

Lemma rounds_write_res (p : string) (l : list event) :
  rounds (EvWriteResult p :: l) = rounds l.
Proof. reflexivity. Qed.

(** Case analysis on every [match] and [if] of an unfolded step of
    [query_loop], leaving the recursive call alone. *)
Ltac loop_cases :=
  repeat match goal with
  | H : context [match ?x with _ => _ end] |- _ =>
      match x with
      | query_loop _ _ _ _ _ _ => fail 1
      | _ => destruct x eqn:?
      end
  | H : context [if ?x then _ else _] |- _ => destruct x eqn:?
  end.

Lemma In_removelast_cons {A} (x rd : A) (l : list A) :
  In rd (removelast (x :: l)) -> rd = x \/ In rd (removelast l).
Proof.
  destruct l as [|y l]; simpl; [tauto|].
  intros [H|H]; auto.
Qed.

Section Loop.
Variable E : env.
Variable cfg : config.

Definition stops (rd : exec_result * (option bool * option pyfloat)) : bool :=
  stop_test (judge_score_threshold cfg) (fst (snd rd)) (snd (snd rd)).

Lemma query_loop_spec (Hdry : dry_run cfg = false) :
  forall fuel attempt its up r tr,
    query_loop E cfg fuel attempt its up = (QReturned r, tr) ->
    (forall rd, In rd (removelast (rounds tr)) -> stops rd = false)
    /\ ((exists pre res d s,
           rounds tr = pre ++ [(res, (d, s))]
           /\ stop_test (judge_score_threshold cfg) d s = true
           /\ r = table_of res)
        \/ ((forall rd, In rd (rounds tr) -> stops rd = false)
            /\ length (rounds tr) = fuel /\ r = None)).
Proof.
  induction fuel as [|fuel IH]; intros attempt its up r tr H.
  - cbn [query_loop] in H. injection H as <- <-.
    split; [simpl; tauto|]. right. simpl. repeat split; tauto.
  - cbn [query_loop] in H. cbv zeta in H. rewrite Hdry in H.
    loop_cases; try discriminate.
    all: repeat match goal with Hs : Some ?a = Some ?b |- _ => injection Hs as Hs; subst b end.
    all: try (injection H as <- <-; cbn [app];
              rewrite rounds_step, ?rounds_write_int, ?rounds_write_res;
              split; [simpl; tauto|]; left; exists [];
              do 3 eexists; split; [reflexivity|split; [eassumption|reflexivity]]).
    all: match type of H with context [query_loop E cfg ?f ?k ?i ?u] =>
           destruct (query_loop E cfg f k i u) as [orec tr'] eqn:HL end.
    all: injection H as Ho <-; subst orec; cbn [app].
    all: rewrite rounds_step, ?rounds_write_int.
    all: destruct (IH _ _ _ _ _ HL) as [IH1 IH2].
    all: match goal with
         | Hs : stop_test _ ?jd ?js = false |- context [(?res, (?jd, ?js))] =>
             assert (Hx : stops (res, (jd, js)) = false) by exact Hs
         end.
    all: split; [intros rd Hrd; apply In_removelast_cons in Hrd as [->|Hrd]; auto|].
    all: destruct IH2 as [[pre [res' [d [sc [Heq [Hst Hr]]]]]]|[Hall [Hlen Hr]]];
         [left; eexists (_ :: pre), res', d, sc; rewrite Heq; split; [reflexivity|auto]
         |right; split; [|split; [simpl; lia|exact Hr]]; intros rd [<-|Hrd]; auto].
Qed.

End Loop.

(** C1 (counterexample): the judge's first verdict (YES, 0.95) meets the
    stop criterion for threshold 0.9, so the loop stops there; but that
    iteration's execution failed, and [query] returns nil although the
    run judged a result acceptable (no table is materialized). *)
Lemma query_stop_on_failed_execution_returns_nil :
  let '(o, tr) := query env_exec_fails cfg_run "list drugs" in
  o = QReturned None
  /\ judgements tr = [(Some true, Some (PFin (95 # 100)))]
  /\ stop_test (judge_score_threshold cfg_run) (Some true) (Some (PFin (95 # 100))) = true
  /\ executions tr = [ExecErr "no such table: molecule_dictionary"].
Proof. vm_compute. repeat split. Qed.

(** C1 (amended): for a run of [query] on a non-blank question that is not
    a dry run and returns normally, every round (execution plus judgement)
    before the last fails the stop criterion, and either the last round
    meets it and the result is that round's table (nil when its execution
    failed), or no round meets it, there were [max_retries] rounds and the
    result is nil. *)
Theorem query_stops_at_first_accepting_round (E : env) (cfg : config) (q : string)
        (r : option table) (tr : list event) :
  dry_run cfg = false -> is_blank q = false ->
  query E cfg q = (QReturned r, tr) ->
  (forall rd, In rd (removelast (rounds tr)) -> stops cfg rd = false)
  /\ ((exists pre res d s,
         rounds tr = pre ++ [(res, (d, s))]
         /\ stop_test (judge_score_threshold cfg) d s = true
         /\ r = table_of res)
      \/ ((forall rd, In rd (rounds tr) -> stops cfg rd = false)
          /\ length (rounds tr) = Z.to_nat (max_retries cfg) /\ r = None)).
Proof.
  intros Hdry Hq H. unfold query, is_blank in *. rewrite Hq in H.
  exact (query_loop_spec E cfg Hdry _ _ _ _ _ _ H).
Qed.

Lemma query_stops_at_first_accepting_round_witness :
  let tr := [EvPromptWriter 1; EvSqlWriter 1;
             EvExecute "SELECT pref_name FROM molecule_dictionary" (ExecOk drugs_table);
             EvJudge 1 (Some false) (Some (PFin (2 # 10))); EvWriteIntermediate 1;
             EvPromptWriter 2; EvSqlWriter 2;
             EvExecute "SELECT pref_name FROM molecule_dictionary" (ExecOk drugs_table);
             EvJudge 2 (Some true) (Some (PFin (95 # 100))); EvWriteIntermediate 2] in
  query env_ok cfg_run "list drugs" = (QReturned (Some drugs_table), tr)
  /\ ((forall rd, In rd (removelast (rounds tr)) -> stops cfg_run rd = false)
      /\ ((exists pre res d s,
             rounds tr = pre ++ [(res, (d, s))]
             /\ stop_test (judge_score_threshold cfg_run) d s = true
             /\ Some drugs_table = table_of res)
          \/ ((forall rd, In rd (rounds tr) -> stops cfg_run rd = false)
              /\ length (rounds tr) = Z.to_nat (max_retries cfg_run)
              /\ Some drugs_table = None))).
Proof.
  intros tr.
  assert (H : query env_ok cfg_run "list drugs" = (QReturned (Some drugs_table), tr))
    by (vm_compute; reflexivity).
  split; [exact H|].
  apply (query_stops_at_first_accepting_round env_ok cfg_run "list drugs"
           (Some drugs_table) tr); [reflexivity|vm_compute; reflexivity|exact H].
Defined.

(** C10: a question that is empty or only whitespace makes [query] return
    nil at once, with an empty trace: no prompt-writer, SQL-writer or judge
    call, no SQL executed and no file written. *)
Theorem query_blank_question_no_effects (E : env) (cfg : config) (q : string) :
  forallb is_py_space (chars q) = true -> query E cfg q = (QReturned None, []).
Proof.
  intros H. unfold query. rewrite (strip_all_space q H). reflexivity.
Qed.

Lemma query_blank_question_no_effects_witness :
  forallb is_py_space (chars (String (ascii_of_nat 9) "  ")) = true
  /\ query env_ok cfg_run (String (ascii_of_nat 9) "  ") = (QReturned None, []).
Proof.
  split; [vm_compute; reflexivity|].
  apply query_blank_question_no_effects. vm_compute. reflexivity.
Defined.

End QueryClaims.

Module LimitClaims.
Import LimitStrip.

(** Text that ends with a character other than whitespace. *)
Definition ends_nonspace (l : list ascii) : Prop :=
  exists x a, l = x ++ [a] /\ is_py_space a = false.

(** The text that may follow a match inside [pre] without changing it: it
    starts with whitespace, and after that run neither digits nor
    [offset] follow. *)
Definition clause_follow (c : list ascii) : Prop :=
  (exists a c', c = a :: c' /\ is_py_space a = true)
  /\ fst (span_digits (snd (span_space c))) = []
  /\ prefix_ci (chars "offset") (snd (span_space c)) = false.

(** A [LIMIT n] clause with an optional [OFFSET m], each part preceded by
    whitespace, the keywords in any case. *)
Definition limit_clause (cl : list ascii) : Prop :=
  exists ws kw ws2 dg off,
    cl = ws ++ kw ++ ws2 ++ dg ++ off
    /\ ws <> [] /\ forallb is_py_space ws = true
    /\ map ascii_lower kw = chars "limit"
    /\ ws2 <> [] /\ forallb is_py_space ws2 = true
    /\ dg <> [] /\ forallb is_digit dg = true
    /\ (off = []
        \/ exists ws3 okw ws4 dg2,
             off = ws3 ++ okw ++ ws4 ++ dg2
             /\ ws3 <> [] /\ forallb is_py_space ws3 = true
             /\ map ascii_lower okw = chars "offset"
             /\ ws4 <> [] /\ forallb is_py_space ws4 = true
             /\ dg2 <> [] /\ forallb is_digit dg2 = true).

(** Text made of whitespace and semicolons. *)
Definition space_semis (l : list ascii) : bool :=
  forallb (fun c => is_py_space c || ascii_eqb c ";"%char) l.

(** Facts about single characters. *)
Lemma space_le_32 (c : ascii) : is_py_space c = true -> nat_of_ascii c <= 32.
Proof.
  unfold is_py_space. intros H.
  apply orb_true_iff in H as [H|H]; apply andb_true_iff in H as [_ H];
    apply Nat.leb_le in H; lia.
Qed.

Lemma lower_space (c : ascii) : is_py_space c = true -> ascii_lower c = c.
Proof.
  intros H. apply space_le_32 in H. unfold ascii_lower.
  destruct (65 <=? nat_of_ascii c) eqn:E; [apply Nat.leb_le in E; lia|reflexivity].
Qed.

Lemma lower_digit (c : ascii) : is_digit c = true -> ascii_lower c = c.
Proof.
  unfold is_digit, ascii_lower. intros H. apply andb_true_iff in H as [_ H].
  apply Nat.leb_le in H.
  destruct (65 <=? nat_of_ascii c) eqn:E; [apply Nat.leb_le in E; lia|reflexivity].
Qed.

Lemma space_not_word (c : ascii) : is_py_space c = true -> is_word c = false.
Proof.
  intros H. apply space_le_32 in H. unfold is_word, is_digit.
  rewrite (proj2 (Nat.leb_gt 48 _)), (proj2 (Nat.leb_gt 65 _)), (proj2 (Nat.leb_gt 97 _))
    by lia.
  simpl. apply Nat.eqb_neq. lia.
Qed.

Lemma space_not_digit (c : ascii) : is_py_space c = true -> is_digit c = false.
Proof.
  intros H. apply space_le_32 in H. unfold is_digit.
  rewrite (proj2 (Nat.leb_gt 48 _)) by lia. reflexivity.
Qed.

Lemma digit_not_space (c : ascii) : is_digit c = true -> is_py_space c = false.
Proof.
  intros H. destruct (is_py_space c) eqn:E; [|reflexivity].
  rewrite (space_not_digit c E) in H. discriminate.
Qed.

(** A character whose lower case is a given letter is neither a space nor a
    digit. *)
Lemma lower_letter (c l : ascii) :
  ascii_lower c = l -> is_py_space l = false -> is_digit l = false ->
  is_py_space c = false /\ is_digit c = false.
Proof.
  intros H Hs Hd. split.
  - destruct (is_py_space c) eqn:E; [|reflexivity].
    rewrite (lower_space c E) in H. subst. rewrite E in Hs. exact Hs.
  - destruct (is_digit c) eqn:E; [|reflexivity].
    rewrite (lower_digit c E) in H. subst. rewrite E in Hd. exact Hd.
Qed.

Lemma nonnil_len {A} (l : list A) : l <> [] -> (length l =? 0) = false.
Proof. destruct l; [contradiction|reflexivity]. Qed.

Lemma ends_nonspace_nonnil (l : list ascii) : ends_nonspace l -> l <> [].
Proof. intros [x [a [-> _]]]. destruct x; discriminate. Qed.

Lemma ends_nonspace_suffix (y z : list ascii) :
  ends_nonspace (y ++ z) -> z <> [] -> ends_nonspace z.
Proof.
  intros [x [a [Heq Ha]]] Hz.
  destruct (exists_last Hz) as [z' [b ->]].
  rewrite app_assoc in Heq. apply app_inj_tail in Heq as [_ ->].
  exists z', a. auto.
Qed.

Lemma ends_nonspace_suffix' (y z : list ascii) :
  ends_nonspace (y ++ z) -> z = [] \/ ends_nonspace z.
Proof.
  intros H. destruct z as [|c z]; [auto|right].
  apply (ends_nonspace_suffix y); [exact H|discriminate].
Qed.

(** The splitting functions. *)
Lemma span_space_split (l w r : list ascii) :
  span_space l = (w, r) -> l = w ++ r /\ forallb is_py_space w = true.
Proof.
  revert w r; induction l as [|c t IH]; intros w r H; simpl in H.
  - inversion H; auto.
  - destruct (is_py_space c) eqn:Hc.
    + destruct (span_space t) as [w' r'] eqn:E. inversion H; subst.
      destruct (IH _ _ eq_refl) as [-> Hw]. simpl. rewrite Hc, Hw. auto.
    + inversion H; subst. auto.
Qed.

Lemma span_space_app (l c w r : list ascii) :
  span_space l = (w, r) -> r <> [] -> span_space (l ++ c) = (w, r ++ c).
Proof.
  revert w r; induction l as [|a t IH]; intros w r H Hr; simpl in H.
  - inversion H; subst. contradiction.
  - simpl. destruct (is_py_space a).
    + destruct (span_space t) as [w' r'] eqn:E. inversion H; subst.
      rewrite (IH _ _ eq_refl Hr). reflexivity.
    + inversion H; subst. reflexivity.
Qed.

Lemma span_space_ws (ws r : list ascii) :
  forallb is_py_space ws = true ->
  (r = [] \/ exists a r', r = a :: r' /\ is_py_space a = false) ->
  span_space (ws ++ r) = (ws, r).
Proof.
  intros Hws Hr. induction ws as [|a ws IH]; simpl.
  - destruct Hr as [->|[b [r' [-> Hb]]]]; simpl; [reflexivity|rewrite Hb; reflexivity].
  - simpl in Hws. apply andb_true_iff in Hws as [Ha Hws]. rewrite Ha, (IH Hws). reflexivity.
Qed.

Lemma span_digits_split (l d r : list ascii) : span_digits l = (d, r) -> l = d ++ r.
Proof.
  revert d r; induction l as [|c t IH]; intros d r H; simpl in H.
  - inversion H; auto.
  - destruct (is_digit c).
    + destruct (span_digits t) as [d' r'] eqn:E. inversion H; subst.
      rewrite (IH _ _ eq_refl). reflexivity.
    + inversion H; subst. auto.
Qed.

Lemma span_digits_app (l c d r : list ascii) :
  span_digits l = (d, r) ->
  (r <> [] \/ match c with [] => True | a :: _ => is_digit a = false end) ->
  span_digits (l ++ c) = (d, r ++ c).
Proof.
  revert d r; induction l as [|a t IH]; intros d r H Hr; simpl in H.
  - inversion H; subst. destruct Hr as [Hr|Hr]; [contradiction|].
    destruct c as [|b c]; simpl; [reflexivity|rewrite Hr; reflexivity].
  - simpl. destruct (is_digit a).
    + destruct (span_digits t) as [d' r'] eqn:E. inversion H; subst.
      rewrite (IH _ _ eq_refl Hr). reflexivity.
    + inversion H; subst. reflexivity.
Qed.

Lemma span_digits_dg (dg r : list ascii) :
  forallb is_digit dg = true ->
  (r = [] \/ exists a r', r = a :: r' /\ is_digit a = false) ->
  span_digits (dg ++ r) = (dg, r).
Proof.
  intros Hdg Hr. induction dg as [|a dg IH]; simpl.
  - destruct Hr as [->|[b [r' [-> Hb]]]]; simpl; [reflexivity|rewrite Hb; reflexivity].
  - simpl in Hdg. apply andb_true_iff in Hdg as [Ha Hdg]. rewrite Ha, (IH Hdg).
    reflexivity.
Qed.

Lemma span_space_ends (l w r : list ascii) :
  ends_nonspace l -> span_space l = (w, r) -> ends_nonspace r.
Proof.
  intros Hl H. destruct (span_space_split _ _ _ H) as [Heq Hw].
  rewrite Heq in Hl. apply (ends_nonspace_suffix w); [exact Hl|].
  intros ->. rewrite app_nil_r in Hl. destruct Hl as [x [a [-> Ha]]].
  rewrite forallb_app in Hw. simpl in Hw. rewrite Ha in Hw.
  rewrite andb_false_r in Hw. discriminate.
Qed.

Lemma span_digits_ends (l d r : list ascii) :
  ends_nonspace l -> span_digits l = (d, r) -> r = [] \/ ends_nonspace r.
Proof.
  intros Hl H. rewrite (span_digits_split _ _ _ H) in Hl.
  exact (ends_nonspace_suffix' _ _ Hl).
Qed.

Lemma skipn_ends (n : nat) (l : list ascii) :
  ends_nonspace l -> skipn n l = [] \/ ends_nonspace (skipn n l).
Proof.
  intros Hl. rewrite <- (firstn_skipn n l) in Hl. exact (ends_nonspace_suffix' _ _ Hl).
Qed.

Lemma skipn_len_app {A} (l r : list A) : skipn (length l) (l ++ r) = r.
Proof. induction l; simpl; auto. Qed.

Lemma skipn_app_le {A} (n : nat) (l r : list A) :
  n <= length l -> skipn n (l ++ r) = skipn n l ++ r.
Proof.
  revert n; induction l as [|a l IH]; intros [|n] H; simpl in *; auto; try lia.
  apply IH. lia.
Qed.

(** Case-insensitive prefixes. *)
Lemma prefix_ci_len (p l : list ascii) : prefix_ci p l = true -> length p <= length l.
Proof.
  revert l; induction p as [|a p IH]; intros [|b l] H; simpl in *; try lia; try discriminate.
  apply andb_true_iff in H as [_ H]. apply IH in H. lia.
Qed.

Lemma prefix_ci_app_space (p l c : list ascii) (a : ascii) :
  is_py_space a = true ->
  forallb (fun x => negb (is_py_space (ascii_lower x))) p = true ->
  prefix_ci p (l ++ a :: c) = prefix_ci p l.
Proof.
  intros Ha. revert l; induction p as [|x p IH]; intros l Hp; [destruct l; reflexivity|].
  simpl in Hp. apply andb_true_iff in Hp as [Hx Hp].
  destruct l as [|b l]; simpl.
  - rewrite (lower_space a Ha).
    destruct (ascii_eqb (ascii_lower x) a) eqn:E; [|reflexivity].
    apply Ascii.eqb_eq in E. rewrite E, Ha in Hx. discriminate.
  - rewrite (IH l Hp). reflexivity.
Qed.

Lemma prefix_ci_lower (p kw r : list ascii) :
  map ascii_lower kw = map ascii_lower p -> prefix_ci p (kw ++ r) = true.
Proof.
  revert kw; induction p as [|x p IH]; intros [|k kw] H; simpl in *;
    try reflexivity; try discriminate.
  inversion H as [[Hk Hkw]]. rewrite Hk, Ascii.eqb_refl. simpl. apply IH. exact Hkw.
Qed.

Lemma limit_letters :
  forallb (fun x => negb (is_py_space (ascii_lower x))) (chars "limit") = true.
Proof. reflexivity. Qed.

Lemma offset_letters :
  forallb (fun x => negb (is_py_space (ascii_lower x))) (chars "offset") = true.
Proof. reflexivity. Qed.

Lemma clause_follow_span (c : list ascii) :
  clause_follow c ->
  exists wc rc, span_space c = (wc, rc) /\ wc <> []
                /\ span_digits rc = ([], rc)
                /\ prefix_ci (chars "offset") rc = false.
Proof.
  intros [[a [c' [-> Ha]]] [Hd Ho]].
  destruct (span_space (a :: c')) as [wc rc] eqn:E. simpl in Hd, Ho.
  exists wc, rc. split; [reflexivity|split; [|split; [|exact Ho]]].
  - simpl in E. rewrite Ha in E. destruct (span_space c'). inversion E. discriminate.
  - destruct (span_digits rc) as [d r] eqn:Er. simpl in Hd. subst.
    rewrite (span_digits_split _ _ _ Er). reflexivity.
Qed.

Lemma match_clause_app (s c : list ascii) :
  ends_nonspace s -> clause_follow c ->
  match_clause (s ++ c) = option_map (fun r => r ++ c) (match_clause s).
Proof.
  intros Hs Hc.
  destruct (clause_follow_span c Hc) as [wc [rc [Ec [Hwc [Dc Oc]]]]].
  destruct Hc as [[a [c' [Hc Ha]]] _].
  assert (Hpre : forall p l, forallb (fun x => negb (is_py_space (ascii_lower x))) p = true ->
                 prefix_ci p (l ++ c) = prefix_ci p l).
  { intros p l Hp. rewrite Hc. apply prefix_ci_app_space; assumption. }
  assert (Hdg : forall l d r, span_digits l = (d, r) -> span_digits (l ++ c) = (d, r ++ c)).
  { intros l d r H. apply span_digits_app; [exact H|right]. rewrite Hc.
    apply space_not_digit. exact Ha. }
  unfold match_clause.
  destruct (span_space s) as [w1 r1] eqn:E1.
  pose proof (span_space_ends _ _ _ Hs E1) as H1.
  rewrite (span_space_app _ _ _ _ E1 (ends_nonspace_nonnil _ H1)).
  destruct (length w1 =? 0); [reflexivity|]. cbv beta iota.
  rewrite (Hpre _ _ limit_letters).
  destruct (prefix_ci (chars "limit") r1) eqn:P1; [|reflexivity]. cbv beta iota.
  apply prefix_ci_len in P1. simpl in P1.
  rewrite (skipn_app_le 5 r1 c P1).
  destruct (skipn_ends 5 r1 H1) as [Hx|Hx].
  - rewrite Hx, app_nil_l. cbv beta iota. rewrite Ec, (nonnil_len _ Hwc), Dc. reflexivity.
  - destruct (span_space (skipn 5 r1)) as [w2 r3] eqn:E2.
    pose proof (span_space_ends _ _ _ Hx E2) as H3.
    rewrite (span_space_app _ _ _ _ E2 (ends_nonspace_nonnil _ H3)).
    destruct (length w2 =? 0); [reflexivity|].
    destruct (span_digits r3) as [d r4] eqn:E3.
    rewrite (Hdg _ _ _ E3).
    destruct (length d =? 0); [reflexivity|].
    destruct (span_digits_ends _ _ _ H3 E3) as [->|H4].
    + rewrite app_nil_l. cbv beta iota. rewrite Ec, (nonnil_len _ Hwc), Oc. reflexivity.
    + destruct (span_space r4) as [w3 r5] eqn:E4.
      pose proof (span_space_ends _ _ _ H4 E4) as H5.
      rewrite (span_space_app _ _ _ _ E4 (ends_nonspace_nonnil _ H5)).
      rewrite (Hpre _ _ offset_letters).
      destruct (length w3 =? 0); [reflexivity|]. cbv beta iota.
      destruct (prefix_ci (chars "offset") r5) eqn:P5; [|reflexivity]. cbv beta iota.
      apply prefix_ci_len in P5. simpl in P5.
      rewrite (skipn_app_le 6 r5 c P5).
      destruct (skipn_ends 6 r5 H5) as [Hy|Hy].
      * rewrite Hy, app_nil_l. cbv beta iota. rewrite Ec, (nonnil_len _ Hwc), Dc. reflexivity.
      * destruct (span_space (skipn 6 r5)) as [w4 r6] eqn:E5.
        pose proof (span_space_ends _ _ _ Hy E5) as H6.
        rewrite (span_space_app _ _ _ _ E5 (ends_nonspace_nonnil _ H6)).
        destruct (length w4 =? 0); [reflexivity|].
        destruct (span_digits r6) as [d2 r7] eqn:E6.
        rewrite (Hdg _ _ _ E6).
        destruct (length d2 =? 0); reflexivity.
Qed.

Lemma match_clause_suffix (l r : list ascii) :
  match_clause l = Some r -> exists p, l = p ++ r /\ p <> [].
Proof.
  unfold match_clause. intros H.
  destruct (span_space l) as [w1 r1] eqn:E1. apply span_space_split in E1 as [-> _].
  destruct (length w1 =? 0) eqn:Hw1; [discriminate|].
  destruct (prefix_ci (chars "limit") r1); [|discriminate]. cbn [orb negb] in H.
  destruct (span_space (skipn 5 r1)) as [w2 r3] eqn:E2. apply span_space_split in E2 as [E2 _].
  destruct (length w2 =? 0); [discriminate|].
  destruct (span_digits r3) as [d r4] eqn:E3. apply span_digits_split in E3.
  destruct (length d =? 0); [discriminate|].
  assert (Hq : exists q, r4 = q ++ r).
  { destruct (span_space r4) as [w3 r5] eqn:E4. apply span_space_split in E4 as [E4 _].
    destruct ((length w3 =? 0) || negb (prefix_ci (chars "offset") r5)).
    - exists []. inversion H. reflexivity.
    - destruct (span_space (skipn 6 r5)) as [w4 r6] eqn:E5.
      apply span_space_split in E5 as [E5 _].
      destruct (length w4 =? 0); [exists []; inversion H; reflexivity|].
      destruct (span_digits r6) as [d2 r7] eqn:E6. apply span_digits_split in E6.
      destruct (length d2 =? 0); [exists []; inversion H; reflexivity|].
      inversion H; subst r7.
      exists (w3 ++ firstn 6 r5 ++ w4 ++ d2). rewrite E4.
      replace r5 with (firstn 6 r5 ++ skipn 6 r5) at 1 by apply firstn_skipn.
      rewrite E5, E6. rewrite !app_assoc. reflexivity. }
  destruct Hq as [q Hq].
  exists (w1 ++ firstn 5 r1 ++ w2 ++ d ++ q). split.
  - replace r1 with (firstn 5 r1 ++ skipn 5 r1) at 1 by apply firstn_skipn.
    rewrite E2, E3, Hq. rewrite !app_assoc. reflexivity.
  - destruct w1; [discriminate|]. discriminate.
Qed.

Lemma sub_clauses_fuel (f1 f2 : nat) (l : list ascii) :
  length l <= f1 -> length l <= f2 -> sub_clauses f1 l = sub_clauses f2 l.
Proof.
  revert f2 l; induction f1 as [|f1 IH]; intros [|f2] l H1 H2.
  - reflexivity.
  - destruct l; [reflexivity|simpl in H1; lia].
  - destruct l; [reflexivity|simpl in H2; lia].
  - destruct l as [|c t]; [reflexivity|]. cbn [sub_clauses].
    destruct (match_clause (c :: t)) as [r|] eqn:M.
    + apply match_clause_suffix in M as [p [Hp Hp0]].
      destruct p as [|x p]; [contradiction|].
      assert (Hl : length (c :: t) = S (length p + length r))
        by (rewrite Hp; simpl; rewrite length_app; reflexivity).
      apply IH; lia.
    + f_equal. apply IH; simpl in *; lia.
Qed.

Lemma sub_clauses_cons (c : ascii) (t : list ascii) :
  sub_clauses (length (c :: t)) (c :: t)
  = match match_clause (c :: t) with
    | Some r => sub_clauses (length r) r
    | None => c :: sub_clauses (length t) t
    end.
Proof.
  cbn [sub_clauses length].
  destruct (match_clause (c :: t)) as [r|] eqn:M; [|reflexivity].
  apply sub_clauses_fuel; [|lia].
  apply match_clause_suffix in M as [p [Hp Hp0]].
  destruct p as [|x p]; [contradiction|].
  assert (Hl : length (c :: t) = S (length p + length r))
    by (rewrite Hp; simpl; rewrite length_app; reflexivity).
  simpl in Hl. lia.
Qed.

Lemma sub_clauses_app (c : list ascii) (Hc : clause_follow c) :
  forall n s, length s <= n -> ends_nonspace s ->
  sub_clauses (length (s ++ c)) (s ++ c)
  = sub_clauses (length s) s ++ sub_clauses (length c) c.
Proof.
  induction n as [|n IH]; intros s Hn Hs.
  - destruct s; [destruct (ends_nonspace_nonnil _ Hs eq_refl)|simpl in Hn; lia].
  - destruct s as [|c0 t]; [destruct (ends_nonspace_nonnil _ Hs eq_refl)|].
    pose proof (match_clause_app _ _ Hs Hc) as M. simpl app in M.
    change ((c0 :: t) ++ c) with (c0 :: (t ++ c)).
    rewrite !sub_clauses_cons, M.
    destruct (match_clause (c0 :: t)) as [r|] eqn:E; cbn [option_map].
    + apply match_clause_suffix in E as [p [Hp Hp0]].
      destruct p as [|x p]; [contradiction|].
      rewrite Hp in Hs, Hn. simpl in Hn. rewrite length_app in Hn.
      destruct (ends_nonspace_suffix' (x :: p) r Hs) as [->|Hr].
      * reflexivity.
      * apply IH; [lia|exact Hr].
    + simpl in Hn. change (c0 :: t) with ([c0] ++ t) in Hs.
      destruct (ends_nonspace_suffix' [c0] t Hs) as [->|Ht].
      * reflexivity.
      * rewrite (IH t ltac:(lia) Ht). reflexivity.
Qed.

Lemma span_space_stop (l w a r : list ascii) (b : ascii) :
  span_space l = (w, b :: r) -> is_py_space b = false.
Proof.
  revert w; induction l as [|c t IH]; intros w H; simpl in H; [discriminate|].
  destruct (is_py_space c) eqn:Hc.
  - destruct (span_space t) as [w' r'] eqn:E. inversion H; subst. exact (IH _ eq_refl).
  - inversion H; subst. exact Hc.
Qed.

Lemma space_semis_match (l : list ascii) : space_semis l = true -> match_clause l = None.
Proof.
  intros H. unfold match_clause.
  destruct (span_space l) as [w1 r1] eqn:E1.
  assert (Hr : prefix_ci (chars "limit") r1 = false).
  { destruct r1 as [|b r]; [reflexivity|].
    pose proof (span_space_stop _ _ [] _ _ E1) as Hb.
    destruct (span_space_split _ _ _ E1) as [Hl _].
    unfold space_semis in H. rewrite Hl, forallb_app in H.
    apply andb_true_iff in H as [_ H]. simpl in H. rewrite Hb in H.
    apply andb_true_iff in H as [H _]. apply Ascii.eqb_eq in H. subst. reflexivity. }
  rewrite Hr, orb_true_r. reflexivity.
Qed.

Lemma space_semis_sub (l : list ascii) :
  space_semis l = true -> sub_clauses (length l) l = l.
Proof.
  induction l as [|c t IH]; intros H; [reflexivity|].
  rewrite sub_clauses_cons, (space_semis_match _ H).
  unfold space_semis in H. simpl in H. apply andb_true_iff in H as [_ H].
  rewrite (IH H). reflexivity.
Qed.

Lemma keyword_head (kw : list ascii) (a : ascii) (p' : string) :
  map ascii_lower kw = chars (String a p') ->
  is_py_space a = false -> is_digit a = false ->
  exists k kw', kw = k :: kw' /\ ascii_lower k = a
                /\ is_py_space k = false /\ is_digit k = false.
Proof.
  intros H Hs Hd. destruct kw as [|k kw']; [discriminate|].
  simpl in H. inversion H as [[Hk Hkw]].
  destruct (lower_letter k a Hk Hs Hd) as [H1 H2]. exists k, kw'. auto.
Qed.

Lemma skipn_app_len {A} (n : nat) (l r : list A) : length l = n -> skipn n (l ++ r) = r.
Proof. intros <-. apply skipn_len_app. Qed.

Lemma keyword_len (kw : list ascii) (s : string) :
  map ascii_lower kw = chars s -> length kw = String.length s.
Proof.
  intros H. rewrite <- (length_map ascii_lower kw), H. unfold chars.
  clear H. induction s as [|a s IH]; simpl; auto.
Qed.

Lemma head_space (l r : list ascii) :
  l <> [] -> forallb is_py_space l = true ->
  exists a l', l ++ r = a :: l' ++ r /\ is_py_space a = true.
Proof.
  intros Hl H. destruct l as [|a l']; [contradiction|].
  simpl in H. apply andb_true_iff in H as [Ha _]. exists a, l'. auto.
Qed.

Lemma head_digit (l r : list ascii) :
  l <> [] -> forallb is_digit l = true ->
  exists a l', l ++ r = a :: l' ++ r /\ is_digit a = true.
Proof.
  intros Hl H. destruct l as [|a l']; [contradiction|].
  simpl in H. apply andb_true_iff in H as [Ha _]. exists a, l'. auto.
Qed.

Lemma space_semis_rest (l w r : list ascii) :
  space_semis l = true -> span_space l = (w, r) ->
  r = [] \/ exists r', r = ";"%char :: r'.
Proof.
  intros H E. destruct r as [|b r]; [auto|right].
  pose proof (span_space_stop _ _ [] _ _ E) as Hb.
  destruct (span_space_split _ _ _ E) as [Hl _].
  unfold space_semis in H. rewrite Hl, forallb_app in H.
  apply andb_true_iff in H as [_ H]. simpl in H. rewrite Hb in H.
  apply andb_true_iff in H as [H _]. apply Ascii.eqb_eq in H. subst. eauto.
Qed.

Lemma space_semis_head (l : list ascii) :
  space_semis l = true -> l = [] \/ exists a r, l = a :: r /\ is_digit a = false.
Proof.
  intros H. destruct l as [|a r]; [auto|right]. exists a, r. split; [reflexivity|].
  unfold space_semis in H. simpl in H. apply andb_true_iff in H as [H _].
  apply orb_true_iff in H as [H|H].
  - apply space_not_digit. exact H.
  - apply Ascii.eqb_eq in H. subst. reflexivity.
Qed.

Lemma limit_clause_match (cl tl : list ascii) :
  limit_clause cl -> space_semis tl = true ->
  clause_follow (cl ++ tl) /\ match_clause (cl ++ tl) = Some tl.
Proof.
  intros [ws [kw [ws2 [dg [off [-> [Hws0 [Hws [Hkw [Hws20 [Hws2 [Hdg0 [Hdg Hoff]]]]]]]]]]]]] Htl.
  destruct (keyword_head kw "l"%char "imit" Hkw eq_refl eq_refl)
    as [k [kw' [Hkeq [Hk [Hks Hkd]]]]].
  rewrite <- !app_assoc.
  set (R := ws2 ++ dg ++ off ++ tl).
  assert (E1 : span_space (ws ++ kw ++ R) = (ws, kw ++ R)).
  { apply span_space_ws; [exact Hws|right]. exists k, (kw' ++ R). rewrite Hkeq. auto. }
  split.
  - split; [|split].
    + destruct (head_space ws (kw ++ R) Hws0 Hws) as [a [l' [-> Ha]]]. eauto.
    + rewrite E1. cbn [snd]. rewrite Hkeq. cbn [app span_digits]. rewrite Hkd. reflexivity.
    + rewrite E1. cbn [snd]. rewrite Hkeq. cbn [app prefix_ci chars list_ascii_of_string].
      rewrite Hk. reflexivity.
  - assert (Hoff_head : off ++ tl = [] \/ exists a r, off ++ tl = a :: r /\ is_digit a = false).
    { destruct Hoff as [->|[ws3 [okw [ws4 [dg2 [-> [Hws30 [Hws3 _]]]]]]]].
      - exact (space_semis_head tl Htl).
      - right. rewrite <- !app_assoc.
        destruct (head_space ws3 (okw ++ ws4 ++ dg2 ++ tl) Hws30 Hws3) as [a [l' [-> Ha]]].
        exists a, (l' ++ okw ++ ws4 ++ dg2 ++ tl). split; [reflexivity|].
        apply space_not_digit. exact Ha. }
    assert (E2 : span_space R = (ws2, dg ++ off ++ tl)).
    { apply span_space_ws; [exact Hws2|right].
      destruct (head_digit dg (off ++ tl) Hdg0 Hdg) as [a [l' [-> Ha]]].
      exists a, (l' ++ off ++ tl). split; [reflexivity|]. apply digit_not_space. exact Ha. }
    assert (E3 : span_digits (dg ++ off ++ tl) = (dg, off ++ tl)).
    { apply span_digits_dg; assumption. }
    unfold match_clause. rewrite E1. cbv beta iota zeta.
    rewrite (nonnil_len ws Hws0),
      (prefix_ci_lower (chars "limit") kw R ltac:(rewrite Hkw; reflexivity)).
    cbn [orb negb].
    rewrite (skipn_app_len 5 kw R (keyword_len _ _ Hkw)). fold R. rewrite E2.
    cbv beta iota zeta. rewrite (nonnil_len ws2 Hws20), E3. cbv beta iota zeta.
    rewrite (nonnil_len dg Hdg0).
    destruct Hoff as [->|[ws3 [okw [ws4 [dg2 [-> [Hws30 [Hws3 [Hokw
                      [Hws40 [Hws4 [Hdg20 Hdg2]]]]]]]]]]]].
    + cbn [app]. destruct (span_space tl) as [w3 r5] eqn:E4.
      destruct (space_semis_rest _ _ _ Htl E4) as [->|[r' ->]];
        destruct (length w3 =? 0); reflexivity.
    + destruct (keyword_head okw "o"%char "ffset" Hokw eq_refl eq_refl)
        as [o [okw' [Hoeq [Ho [Hos Hod]]]]].
      rewrite <- !app_assoc.
      rewrite (span_space_ws ws3 (okw ++ ws4 ++ dg2 ++ tl) Hws3
                 ltac:(right; exists o, (okw' ++ ws4 ++ dg2 ++ tl); rewrite Hoeq; auto)).
      cbv beta iota zeta.
      rewrite (nonnil_len ws3 Hws30),
        (prefix_ci_lower (chars "offset") okw _ ltac:(rewrite Hokw; reflexivity)).
      cbn [orb negb].
      rewrite (skipn_app_len 6 okw _ (keyword_len _ _ Hokw)).
      rewrite (span_space_ws ws4 (dg2 ++ tl) Hws4).
      2:{ right. destruct (head_digit dg2 tl Hdg20 Hdg2) as [a [l' [-> Ha]]].
          exists a, (l' ++ tl). split; [reflexivity|]. apply digit_not_space. exact Ha. }
      cbv beta iota zeta.
      rewrite (nonnil_len ws4 Hws40), (span_digits_dg dg2 tl Hdg2 (space_semis_head tl Htl)).
      cbv beta iota zeta. rewrite (nonnil_len dg2 Hdg20). reflexivity.
Qed.

Lemma limit_clause_nonnil (cl : list ascii) : limit_clause cl -> cl <> [].
Proof.
  intros [ws [kw [ws2 [dg [off [-> [Hws0 _]]]]]]].
  destruct ws; [contradiction|discriminate].
Qed.

Lemma sub_clauses_limit_clause (cl tl : list ascii) :
  limit_clause cl -> space_semis tl = true ->
  sub_clauses (length (cl ++ tl)) (cl ++ tl) = tl.
Proof.
  intros Hcl Htl. destruct (limit_clause_match cl tl Hcl Htl) as [_ M].
  destruct (cl ++ tl) as [|c0 t] eqn:E.
  - apply app_eq_nil in E as [E _]. destruct (limit_clause_nonnil cl Hcl E).
  - rewrite sub_clauses_cons, M. apply space_semis_sub. exact Htl.
Qed.

Lemma last_app_nonnil {A} (l1 l2 : list A) (d : A) :
  l2 <> [] -> last (l1 ++ l2) d = last l2 d.
Proof.
  intros H. induction l1 as [|a l1 IH]; [reflexivity|].
  simpl. destruct (l1 ++ l2) eqn:E; [apply app_eq_nil in E as [_ ->]; contradiction|].
  exact IH.
Qed.

Lemma last_forallb {A} (f : A -> bool) (l : list A) (d : A) :
  l <> [] -> forallb f l = true -> f (last l d) = true.
Proof.
  intros Hl H. induction l as [|a l IH]; [contradiction|].
  simpl in H. apply andb_true_iff in H as [Ha H].
  destruct l as [|b l]; [exact Ha|]. apply IH; [discriminate|exact H].
Qed.

Lemma has_limit_word_cons (prev : option ascii) (a : ascii) (t : list ascii) :
  has_limit_word prev (a :: t)
  = (boundary_before prev && prefix_ci (chars "limit") (a :: t)
     && boundary_after (skipn 5 (a :: t))) || has_limit_word (Some a) t.
Proof. reflexivity. Qed.

Lemma has_limit_word_app (l : list ascii) :
  forall prev r d, l <> [] -> has_limit_word (Some (last l d)) r = true ->
  has_limit_word prev (l ++ r) = true.
Proof.
  induction l as [|a l IH]; intros prev r d Hl H; [contradiction|].
  simpl app. rewrite has_limit_word_cons. apply orb_true_iff. right.
  destruct l as [|b l]; [exact H|]. apply (IH _ _ d); [discriminate|exact H].
Qed.

Lemma has_limit_clause (cl r : list ascii) :
  limit_clause cl -> forall prev pre, has_limit_word prev (pre ++ cl ++ r) = true.
Proof.
  intros [ws [kw [ws2 [dg [off [-> [Hws0 [Hws [Hkw [Hws20 [Hws2 _]]]]]]]]]]] prev pre.
  destruct (keyword_head kw "l"%char "imit" Hkw eq_refl eq_refl)
    as [k [kw' [Hkeq [Hk [Hks Hkd]]]]].
  rewrite <- !app_assoc, app_assoc.
  apply (has_limit_word_app _ _ _ " "%char).
  { intros E. apply app_eq_nil in E as [_ E]. contradiction. }
  rewrite (last_app_nonnil _ _ _ Hws0).
  pose proof (last_forallb _ _ " "%char Hws0 Hws) as Hsp.
  set (Y := ws2 ++ dg ++ off ++ r).
  rewrite Hkeq. change ((k :: kw') ++ Y) with (k :: (kw' ++ Y)).
  rewrite has_limit_word_cons. apply orb_true_iff. left.
  unfold boundary_before. rewrite (space_not_word _ Hsp). cbn [negb andb].
  change (k :: (kw' ++ Y)) with ((k :: kw') ++ Y). rewrite <- Hkeq.
  rewrite (prefix_ci_lower (chars "limit") kw _ ltac:(rewrite Hkw; reflexivity)).
  rewrite (skipn_app_len 5 kw _ (keyword_len _ _ Hkw)).
  unfold Y. destruct (head_space ws2 (dg ++ off ++ r) Hws20 Hws2) as [a [l' [-> Ha]]].
  unfold boundary_after. rewrite (space_not_word _ Ha). reflexivity.
Qed.

(** C5 (counterexample): the option is on, [UQ \n UP] asks for no cap,
    and the SQL ends with [LIMIT 5]; but no whitespace precedes the
    keyword (it follows a closing parenthesis), so [clause_re] does not
    match and the trailing clause is kept. *)
Lemma trailing_limit_after_paren_kept :
  user_requested_limit ("list drug names" ++ String nl "list the names of all drugs")%string
    = false
  /\ strip_unrequested_limit true "SELECT a FROM (SELECT a FROM t)LIMIT 5"
       "list drug names" "list the names of all drugs"
     = "SELECT a FROM (SELECT a FROM t)LIMIT 5".
Proof. split; vm_compute; reflexivity. Qed.

(** C5 (amended): the SQL is returned unmodified when the option is off or
    [UQ \n UP] matches one of the thirteen patterns; otherwise a trailing
    [LIMIT n [OFFSET m]] clause preceded by whitespace (and followed only
    by whitespace and semicolons) is removed, the text before it goes
    through the same substitution, whitespace before each [;] is dropped
    and the result is stripped. *)
Theorem strip_unrequested_limit_spec (enabled : bool) (sql uq up : string) :
  ((enabled = false \/ user_requested_limit (uq ++ String nl up)%string = true) ->
   strip_unrequested_limit enabled sql uq up = sql)
  /\ (forall pre cl tl,
        enabled = true -> user_requested_limit (uq ++ String nl up)%string = false ->
        chars sql = pre ++ cl ++ tl -> (pre = [] \/ ends_nonspace pre) ->
        limit_clause cl -> space_semis tl = true ->
        strip_unrequested_limit enabled sql uq up
        = let cleaned := sub_clauses (length pre) pre ++ tl in
          str (py_strip_l (sub_space_semicolon (length cleaned) cleaned))).
Proof.
  split.
  - intros [->|H]; unfold strip_unrequested_limit; [reflexivity|].
    rewrite H. destruct enabled; reflexivity.
  - intros pre cl tl -> Hreq Hsql Hpre Hcl Htl. unfold strip_unrequested_limit.
    rewrite Hreq, Hsql, (has_limit_clause cl tl Hcl None pre). cbn [negb].
    assert (Hsc : sub_clauses (length (pre ++ cl ++ tl)) (pre ++ cl ++ tl)
                  = sub_clauses (length pre) pre ++ tl).
    { destruct Hpre as [->|Hpre].
      - simpl app. rewrite sub_clauses_limit_clause by assumption. reflexivity.
      - destruct (limit_clause_match cl tl Hcl Htl) as [Hf _].
        rewrite (sub_clauses_app _ Hf (length pre) pre (le_n _) Hpre).
        rewrite sub_clauses_limit_clause by assumption. reflexivity. }
    cbv beta iota zeta. rewrite Hsc. reflexivity.
Qed.

Lemma strip_unrequested_limit_spec_witness :
  user_requested_limit ("list drugs" ++ String nl "list all drugs")%string = false
  /\ strip_unrequested_limit true "SELECT pref_name FROM molecule_dictionary LIMIT 10 OFFSET 20 ;"
       "list drugs" "list all drugs"
     = "SELECT pref_name FROM molecule_dictionary;".
Proof.
  assert (Hreq : user_requested_limit ("list drugs" ++ String nl "list all drugs")%string = false)
    by (vm_compute; reflexivity).
  split; [exact Hreq|].
  rewrite (proj2 (strip_unrequested_limit_spec true
                    "SELECT pref_name FROM molecule_dictionary LIMIT 10 OFFSET 20 ;"
                    "list drugs" "list all drugs")
             (chars "SELECT pref_name FROM molecule_dictionary")
             (chars " LIMIT 10 OFFSET 20") (chars " ;") eq_refl Hreq).
  - vm_compute. reflexivity.
  - reflexivity.
  - right. exists (chars "SELECT pref_name FROM molecule_dictionar"), "y"%char.
    split; reflexivity.
  - exists [" "%char], (chars "LIMIT"), [" "%char], (chars "10"), (chars " OFFSET 20").
    split; [reflexivity|].
    repeat (split; [first [discriminate | reflexivity]|]).
    right. exists [" "%char], (chars "OFFSET"), [" "%char], (chars "20").
    split; [reflexivity|].
    repeat (split; [first [discriminate | reflexivity]|]). reflexivity.
  - reflexivity.
Defined.

End LimitClaims.

Module SamplingClaims.
Import Sampling.

(** The labelling rule for a sample of a table of [n] rows: [head] for
    the first three rows, [tail] for the other rows among the last three,
    [middle] otherwise. *)
Definition label_ok (n : nat) (e : sample) : Prop :=
  (s_position e = Head <-> s_idx e < 3)
  /\ (s_position e = Tail <-> 3 <= s_idx e /\ (Z.of_nat n - 3 <= Z.of_nat (s_idx e))%Z)
  /\ (s_position e = Middle <-> 3 <= s_idx e /\ (Z.of_nat (s_idx e) < Z.of_nat n - 3)%Z).

(** A sample of the table [rows] that shows row [s_idx] of the table
    (cells truncated) and is labelled by the rule above. *)
Definition sample_ok (rows : table) (max_cell_len : Z) (e : sample) : Prop :=
  s_idx e < length rows
  /\ s_data e = map (fun v => truncate_cell v max_cell_len) (nth (s_idx e) rows [])
  /\ label_ok (length rows) e.

(** A four-row table. *)
Definition rows4 : table := [[Some "a"]; [Some "b"]; [Some "c"]; [Some "d"]].

Lemma position_of_spec (i n : nat) :
  (position_of i n = Head <-> i < 3)
  /\ (position_of i n = Tail <-> 3 <= i /\ (Z.of_nat n - 3 <= Z.of_nat i)%Z)
  /\ (position_of i n = Middle <-> 3 <= i /\ (Z.of_nat i < Z.of_nat n - 3)%Z).
Proof.
  unfold position_of.
  destruct (Nat.ltb_spec i 3);
    [|destruct (Z.leb_spec (Z.of_nat n - 3) (Z.of_nat i))];
    repeat split; intros; try discriminate; try reflexivity; lia.
Qed.

Lemma label_of (n : nat) (e : sample) :
  s_position e = position_of (s_idx e) n -> label_ok n e.
Proof. intros H. unfold label_ok. rewrite H. apply position_of_spec. Qed.

Lemma emit_labels (indices : list nat) (sampled : table) (n : nat) (max_cell_len : Z) :
  forall e, In e (emit indices sampled n max_cell_len) -> s_position e = position_of (s_idx e) n.
Proof.
  intros e H. unfold emit in H. apply in_map_iff in H as [[li r] [<- _]]. reflexivity.
Qed.

Lemma sample_result_rows_labels (take_ok : bool) (rows : table) (max_samples max_cell_len : Z) :
  forall e, In e (sample_result_rows take_ok rows max_samples max_cell_len) ->
  s_position e = position_of (s_idx e) (length rows).
Proof.
  intros e H. unfold sample_result_rows in H.
  destruct (length rows =? 0); [contradiction|].
  destruct (df_take _ _ _); eapply emit_labels; exact H.
Qed.

Lemma stratified_labels (take_ok strata_ok : bool) (groups : list (list nat)) (rows : table)
      (max_samples max_cell_len : Z) (out : list sample) :
  sample_result_rows_stratified take_ok strata_ok groups rows max_samples max_cell_len = PyOk out ->
  forall e, In e out -> s_position e = position_of (s_idx e) (length rows).
Proof.
  pose proof (sample_result_rows_labels take_ok rows max_samples max_cell_len) as Hfb.
  unfold sample_result_rows_stratified. cbv zeta. intros H.
  repeat match type of H with
  | context [match ?x with _ => _ end] => destruct x
  end;
  try discriminate; injection H as <-; try contradiction; try exact Hfb;
  eapply emit_labels.
Qed.

Lemma sample_built (rows : table) (max_cell_len : Z) (i : nat) :
  i < length rows ->
  sample_ok rows max_cell_len
    (mkSample (position_of i (length rows)) i
              (map (fun v => truncate_cell v max_cell_len) (nth i rows []))).
Proof.
  intros Hi. unfold sample_ok; cbn [s_idx s_data].
  split; [exact Hi|]. split; [reflexivity|]. apply label_of. reflexivity.
Qed.

Lemma emit_map (idx : list nat) (f : nat -> row) (n : nat) (max_cell_len : Z) :
  emit idx (map f idx) n max_cell_len
  = map (fun i => mkSample (position_of i n) i
                           (map (fun v => truncate_cell v max_cell_len) (f i))) idx.
Proof.
  unfold emit. rewrite length_map.
  assert (H : forall pre suf, idx = pre ++ suf ->
    map (fun '(local_i, r) =>
           let i := if local_i <? length idx then nth local_i idx 0 else local_i in
           mkSample (position_of i n) i (map (fun v => truncate_cell v max_cell_len) r))
        (combine (seq (length pre) (length suf)) (map f suf))
    = map (fun i => mkSample (position_of i n) i
                             (map (fun v => truncate_cell v max_cell_len) (f i))) suf).
  { intros pre suf; revert pre. induction suf as [|a suf IH]; intros pre Heq; [reflexivity|].
    cbn [length seq map combine]. f_equal.
    - assert (Hlt : (length pre <? length idx) = true).
      { apply Nat.ltb_lt. rewrite Heq, length_app. simpl. lia. }
      rewrite Hlt. rewrite Heq, nth_middle. reflexivity.
    - replace (S (length pre)) with (length (pre ++ [a]))
        by (rewrite length_app; simpl; lia).
      apply IH. rewrite Heq, <- app_assoc. reflexivity. }
  exact (H [] idx eq_refl).
Qed.

Lemma df_take_some (take_ok : bool) (rows : table) (idx : list nat) (sampled : table) :
  df_take take_ok rows idx = Some sampled ->
  sampled = map (fun i => nth i rows []) idx /\ forall i, In i idx -> i < length rows.
Proof.
  unfold df_take. destruct (take_ok && forallb (fun i => i <? length rows) idx) eqn:E;
    [|discriminate].
  intros H. inversion H. split; [reflexivity|].
  apply andb_true_iff in E as [_ E]. rewrite forallb_forall in E.
  intros i Hi. apply Nat.ltb_lt. exact (E i Hi).
Qed.

Lemma df_take_true (rows : table) (idx : list nat) :
  (forall i, In i idx -> i < length rows) ->
  df_take true rows idx = Some (map (fun i => nth i rows []) idx).
Proof.
  intros H. unfold df_take.
  assert (E : forallb (fun i => i <? length rows) idx = true).
  { apply forallb_forall. intros i Hi. apply Nat.ltb_lt. auto. }
  rewrite E. reflexivity.
Qed.

Lemma firstn_as_map (m : nat) (rows : table) :
  firstn m rows = map (fun i => nth i rows []) (seq 0 (length (firstn m rows))).
Proof.
  revert m; induction rows as [|r rows IH]; intros [|m]; try reflexivity.
  cbn [firstn length]. rewrite <- cons_seq, <- seq_shift. cbn [map nth].
  rewrite map_map. f_equal. exact (IH m).
Qed.

Lemma py_prefix_firstn {A} (l : list A) (k : Z) : exists m, py_prefix l k = firstn m l.
Proof. unfold py_prefix. destruct (0 <=? k)%Z; eauto. Qed.

(** The fallback of both samplers: the first rows of the table. *)
Lemma emit_head_rows (rows : table) (m : nat) (n : nat) (max_cell_len : Z) :
  emit (seq 0 (length (firstn m rows))) (firstn m rows) n max_cell_len
  = map (fun i => mkSample (position_of i n) i
                           (map (fun v => truncate_cell v max_cell_len) (nth i rows [])))
        (seq 0 (length (firstn m rows))).
Proof.
  rewrite <- emit_map. f_equal. apply firstn_as_map.
Qed.

Lemma sample_result_rows_ok (take_ok : bool) (rows : table) (max_samples max_cell_len : Z) :
  forall e, In e (sample_result_rows take_ok rows max_samples max_cell_len) ->
  sample_ok rows max_cell_len e.
Proof.
  intros e H. unfold sample_result_rows in H.
  destruct (length rows =? 0); [contradiction|].
  destruct (df_take take_ok rows (sample_indices (length rows) max_samples))
    as [sampled|] eqn:Ht.
  - apply df_take_some in Ht as [-> Hall]. rewrite emit_map in H.
    apply in_map_iff in H as [i [<- Hi]]. apply sample_built. auto.
  - destruct (py_prefix_firstn rows (Z.min max_samples (Z.of_nat (length rows)))) as [m Hm].
    rewrite Hm, emit_head_rows in H.
    apply in_map_iff in H as [i [<- Hi]]. apply sample_built.
    apply in_seq in Hi. rewrite length_firstn in Hi. lia.
Qed.

Lemma In_insert_nat (x y : nat) (l : list nat) : In x (insert_nat y l) -> x = y \/ In x l.
Proof.
  induction l as [|z l IH]; simpl; [intuition|].
  destruct (y <=? z); simpl; intuition.
Qed.

Lemma In_sorted_set (x : nat) (l : list nat) : In x (sorted_set l) -> In x l.
Proof.
  unfold sorted_set. intros H. apply (nodup_In Nat.eq_dec).
  induction (nodup Nat.eq_dec l) as [|y t IH]; simpl in *; [contradiction|].
  apply In_insert_nat in H as [->|H]; auto.
Qed.

Lemma chosen_bound (gs : list (list nat)) (pgs : list Z) (n : nat)
      (F : list nat * Z -> list nat) :
  0 < n -> (forall g i, In g gs -> In i g -> i < n) ->
  (forall p y, In y (F p) -> In y (fst p) \/ y = 0) ->
  forall y, In y (flat_map F (combine gs pgs)) -> y < n.
Proof.
  intros Hn Hg HF y Hy. apply in_flat_map in Hy as [[g pg] [Hp Hy]].
  apply HF in Hy as [Hy| ->]; [|exact Hn].
  apply (Hg g); [apply in_combine_l in Hp; exact Hp|exact Hy].
Qed.

Lemma stratified_ok (strata_ok : bool) (groups : list (list nat)) (rows : table)
      (max_samples max_cell_len : Z) :
  (forall g i, In g groups -> In i g -> i < length rows) ->
  exists out,
    sample_result_rows_stratified true strata_ok groups rows max_samples max_cell_len = PyOk out
    /\ forall e, In e out -> sample_ok rows max_cell_len e.
Proof.
  intros Hg. unfold sample_result_rows_stratified.
  pose proof (sample_result_rows_ok true rows max_samples max_cell_len) as Hfb.
  destruct (length rows =? 0) eqn:Hn0.
  { exists []. split; [reflexivity|]. intros e []. }
  apply Nat.eqb_neq in Hn0.
  destruct (negb strata_ok); [eexists; split; [reflexivity|exact Hfb]|].
  destruct groups as [|g0 gt]; [eexists; split; [reflexivity|exact Hfb]|].
  set (groups := g0 :: gt) in *.
  match goal with |- context [match ?G with None => _ | Some _ => _ end] =>
    assert (HG : exists gs, G = Some gs /\ forall g i, In g gs -> In i g -> i < length rows);
    [|destruct HG as [gs [-> Hgs]]] end.
  { destruct (max_samples <? Z.of_nat (length groups))%Z.
    - eexists; split; [reflexivity|]. intros g i Hgi Hi.
      apply in_map_iff in Hgi as [k [<- _]].
      destruct (nth_in_or_default k groups []) as [Hin|Hd].
      + exact (Hg _ _ Hin Hi).
      + rewrite Hd in Hi. contradiction.
    - eexists; split; [reflexivity|exact Hg]. }
  destruct gs as [|g1 gst]; [eexists; split; [reflexivity|exact Hfb]|].
  match goal with |- context [match flat_map ?F ?L with [] => _ | _ :: _ => _ end] =>
    assert (Hch : forall y, In y (flat_map F L) -> y < length rows);
    [apply chosen_bound; [lia|exact Hgs|]
    |destruct (flat_map F L) as [|x xs] eqn:Hfl] end.
  { intros [row_list pg] y Hy. cbn [fst].
    destruct row_list as [|r rl]; [contradiction|].
    match type of Hy with In y (if ?b then _ else _) => destruct b end; [contradiction|].
    apply in_map_iff in Hy as [pos [<- _]].
    destruct (nth_in_or_default pos (r :: rl) 0) as [Hin|Hd]; [left; exact Hin|right; exact Hd]. }
  - eexists; split; [reflexivity|exact Hfb].
  - rewrite df_take_true.
    + eexists; split; [reflexivity|]. intros e He.
      rewrite emit_map in He. apply in_map_iff in He as [i [<- Hi]].
      apply sample_built. apply Hch. apply In_sorted_set. exact Hi.
    + intros i Hi. apply Hch. apply In_sorted_set. exact Hi.
Qed.

(** C7 fails on a table of four rows: row 1 satisfies [i >= n - 3] and is
    labelled [head], not [tail]. *)
Lemma head_label_within_last_three :
  map (fun e => (s_position e, s_idx e)) (sample_result_rows true rows4 9 60)
  = [(Head, 0); (Head, 1); (Head, 2); (Tail, 3)]
  /\ (Z.of_nat (length rows4) - 3 <= 1)%Z.
Proof. split; vm_compute; [reflexivity|discriminate]. Qed.

(** C7 (amended): every sample emitted by [sample_result_rows], or by
    [sample_result_rows_stratified] when it returns, is labelled [head] iff
    its row index [i] is below 3, [tail] iff [i >= 3] and [i >= n - 3], and
    [middle] otherwise; and when the selected rows are gathered (the take
    succeeds and the strata's row indices lie in the table) the sample at
    index [i] shows row [i] of the table. *)
Theorem sample_labels_spec (take_ok strata_ok : bool) (groups : list (list nat)) (rows : table)
        (max_samples max_cell_len : Z) :
  (forall e, In e (sample_result_rows take_ok rows max_samples max_cell_len) ->
     label_ok (length rows) e)
  /\ (forall out e,
        sample_result_rows_stratified take_ok strata_ok groups rows max_samples max_cell_len
        = PyOk out -> In e out -> label_ok (length rows) e)
  /\ (forall e, In e (sample_result_rows true rows max_samples max_cell_len) ->
        sample_ok rows max_cell_len e)
  /\ ((forall g i, In g groups -> In i g -> i < length rows) ->
      exists out,
        sample_result_rows_stratified true strata_ok groups rows max_samples max_cell_len
        = PyOk out /\ forall e, In e out -> sample_ok rows max_cell_len e).
Proof.
  split; [|split; [|split]].
  - intros e H. apply label_of. eapply sample_result_rows_labels. exact H.
  - intros out e H He. apply label_of. eapply stratified_labels; eassumption.
  - apply sample_result_rows_ok.
  - apply stratified_ok.
Qed.

Lemma sample_labels_spec_witness :
  (forall out e,
     sample_result_rows_stratified false true [[0; 1]; [2; 3]] rows4 9 60 = PyOk out ->
     In e out -> label_ok (length rows4) e)
  /\ exists out,
       sample_result_rows_stratified true true [[0; 1]; [2; 3]] rows4 9 60 = PyOk out
       /\ forall e, In e out -> sample_ok rows4 60 e.
Proof.
  destruct (sample_labels_spec false true [[0; 1]; [2; 3]] rows4 9 60) as [_ [H1 _]].
  destruct (sample_labels_spec true true [[0; 1]; [2; 3]] rows4 9 60) as [_ [_ [_ H2]]].
  split; [exact H1|]. apply H2.
  intros g i Hg Hi. simpl in Hg.
  destruct Hg as [<-|[<-|[]]]; simpl in Hi; vm_compute; lia.
Defined.

End SamplingClaims.

Module SampleParamsClaims.
Import SampleParams.

(** A text of [k] letters [x]. *)
Fixpoint xs (k : nat) : string :=
  match k with 0 => EmptyString | S k => String "x"%char (xs k) end.

(** A table of 2000 rows, each with one cell of 200 characters. *)
Definition rows_long : table := repeat [Some (xs 200)] 2000.

(** On [rows_long] with 4500 available tokens: the budget
    [int(4500 * 0.6) = 2700] allows 128 rows of 21 tokens at cell width 60
    and 207 rows of 13 tokens at width 30, yet the choice is 200 rows at
    width 60. *)
Lemma sample_size_over_budget :
  choose_sample_params rows_long (Some 4500%Z) = (200%Z, 60%Z)
  /\ estimate_sample_row_tokens rows_long 60 = 21%Z
  /\ (3 * 4500 / 5 / estimate_sample_row_tokens rows_long 60 = 128)%Z
  /\ estimate_sample_row_tokens rows_long 30 = 13%Z
  /\ (3 * 4500 / 5 / estimate_sample_row_tokens rows_long 30 = 207)%Z.
Proof. vm_compute. repeat split. Qed.

(** C8: on a table of at least 200 rows, [_choose_sample_params] always
    keeps the cell width 60 and at least 200 rows: [target] is
    [min(cap, max(min_samples, ...))] with [cap >= min_samples], so the
    guard [target < min_samples] of the loop over widths 50, 40 and 30
    never holds. When the token count [a] is positive, the estimated tokens
    per row [t] at width 60 are positive and [int(0.6 a) / t < 200], the
    choice is exactly 200 rows at width 60, which cost [200 t] tokens, more
    than the budget [int(0.6 a)]. *)
Theorem choose_sample_params_ignores_budget (rows : table) (a : Z) (Hh : 200 <= length rows) :
  let r := choose_sample_params rows (Some a) in
  snd r = 60%Z /\ (200 <= fst r)%Z
  /\ ((0 < a)%Z -> (0 < estimate_sample_row_tokens rows 60)%Z ->
      (3 * a / 5 / estimate_sample_row_tokens rows 60 < 200)%Z ->
      fst r = 200%Z /\ (3 * a / 5 < 200 * estimate_sample_row_tokens rows 60)%Z).
Proof.
  cbv zeta. unfold choose_sample_params. cbv zeta.
  set (h := Z.of_nat (length rows)).
  assert (Hh' : (200 <= h)%Z) by (unfold h; lia).
  set (budget := (3 * a / 5)%Z).
  set (t60 := estimate_sample_row_tokens rows 60).
  set (t50 := estimate_sample_row_tokens rows 50).
  set (t40 := estimate_sample_row_tokens rows 40).
  set (t30 := estimate_sample_row_tokens rows 30).
  set (m60 := (budget / t60)%Z). set (m50 := (budget / t50)%Z).
  set (m40 := (budget / t40)%Z). set (m30 := (budget / t30)%Z).
  assert (Hm60 : (0 < t60)%Z -> (budget < t60 * (m60 + 1))%Z).
  { intros Ht. unfold m60. pose proof (Z.div_mod budget t60 ltac:(lia)).
    pose proof (Z.mod_pos_bound budget t60 Ht). lia. }
  clearbody h budget t60 t50 t40 t30 m60 m50 m40 m30.
  repeat match goal with
  | |- context [if ?b then _ else _] => destruct b eqn:?
  end;
  repeat match goal with
  | H : (_ =? _)%Z = true |- _ => apply Z.eqb_eq in H
  | H : (_ =? _)%Z = false |- _ => apply Z.eqb_neq in H
  | H : (_ <=? _)%Z = true |- _ => apply Z.leb_le in H
  | H : (_ <=? _)%Z = false |- _ => apply Z.leb_gt in H
  | H : (_ <? _)%Z = true |- _ => apply Z.ltb_lt in H
  | H : (_ <? _)%Z = false |- _ => apply Z.ltb_ge in H
  | H : (_ && _)%bool = true |- _ => apply andb_true_iff in H as [? ?]
  end;
  cbn [fst snd]; (split; [|split]); intros; try lia.
  all: split; [lia|].
  all: specialize (Hm60 ltac:(lia)); nia.
Qed.

(** [rows_long] with 4500 available tokens: 200 rows at width 60, where
    the budget of 2700 tokens pays for 128 such rows. *)
Lemma choose_sample_params_ignores_budget_witness :
  200 <= length rows_long
  /\ (let r := choose_sample_params rows_long (Some 4500%Z) in
      snd r = 60%Z /\ (200 <= fst r)%Z
      /\ ((0 < 4500)%Z -> (0 < estimate_sample_row_tokens rows_long 60)%Z ->
          (3 * 4500 / 5 / estimate_sample_row_tokens rows_long 60 < 200)%Z ->
          fst r = 200%Z /\ (3 * 4500 / 5 < 200 * estimate_sample_row_tokens rows_long 60)%Z))
  /\ (0 < estimate_sample_row_tokens rows_long 60)%Z
  /\ (3 * 4500 / 5 / estimate_sample_row_tokens rows_long 60 < 200)%Z.
Proof.
  split; [vm_compute; lia|].
  split; [apply (choose_sample_params_ignores_budget rows_long 4500); vm_compute; lia|].
  split; vm_compute; reflexivity.
Defined.

End SampleParamsClaims.

(* ================================================================== *)
(** * Further properties of the code *)

Module ScheduleExtras.
Import Scheduler.

(** X1: an empty model list gives an empty schedule for any method; for a
    non-empty list, a method other than [random], [orderly] or [cicada]
    raises [ValueError]. *)
Theorem schedule_empty_or_invalid (draws : nat -> nat) (n : Z) (method : string) :
  generate_model_schedule draws n [] method = PyOk []
  /\ (forall models, models <> [] -> ~ In method ["random"; "orderly"; "cicada"] ->
      generate_model_schedule draws n models method = PyErr "ValueError").
Proof.
  split; [reflexivity|].
  intros models Hm Hin. unfold generate_model_schedule.
  destruct models as [|m ms]; [congruence|]. cbn [length Nat.eqb].
  destruct (String.eqb_spec method "random") as [->|_]; [simpl in Hin; tauto|].
  destruct (String.eqb_spec method "orderly") as [->|_]; [simpl in Hin; tauto|].
  destruct (String.eqb_spec method "cicada") as [->|_]; [simpl in Hin; tauto|].
  reflexivity.
Qed.

Lemma schedule_empty_or_invalid_witness :
  generate_model_schedule (fun _ => 0) 5 [] "bogus" = PyOk []
  /\ generate_model_schedule (fun _ => 0) 5 ["a"; "b"] "bogus" = PyErr "ValueError".
Proof.
  destruct (schedule_empty_or_invalid (fun _ => 0) 5 "bogus") as [H1 H2].
  split; [exact H1|]. apply H2; [discriminate|simpl; intuition discriminate].
Defined.

(** The first entry of a random schedule and the index it was drawn at. *)
Lemma random_loop_head draws models k fuel last :
  random_loop draws models k (S fuel) last
  = let idx0 := draws k in
    let idx := if (Z.of_nat idx0 =? last)%Z && (1 <? length models)%nat
               then (idx0 + 1) mod length models else idx0 in
    nth idx models "" :: random_loop draws models (S k) fuel (Z.of_nat idx).
Proof. reflexivity. Qed.

Lemma random_next_index_differs (N idx0 last : nat) :
  2 <= N -> idx0 < N ->
  (if (Z.of_nat idx0 =? Z.of_nat last)%Z && (1 <? N)%nat then (idx0 + 1) mod N else idx0)
  <> last /\
  (if (Z.of_nat idx0 =? Z.of_nat last)%Z && (1 <? N)%nat then (idx0 + 1) mod N else idx0) < N.
Proof.
  intros HN Hi.
  assert (H1 : (1 <? N) = true) by (apply Nat.ltb_lt; lia).
  rewrite H1, andb_true_r.
  destruct (Z.eqb_spec (Z.of_nat idx0) (Z.of_nat last)) as [E|E].
  - assert (idx0 = last) by lia. subst last.
    destruct (Nat.eq_dec (idx0 + 1) N) as [Heq|Hne].
    + rewrite Heq, Nat.Div0.mod_same. split; lia.
    + rewrite Nat.mod_small by lia. split; lia.
  - split; [lia|exact Hi].
Qed.

Lemma random_index_bound (N idx0 : nat) (last : Z) :
  1 <= N -> idx0 < N ->
  (if (Z.of_nat idx0 =? last)%Z && (1 <? N)%nat then (idx0 + 1) mod N else idx0) < N.
Proof.
  intros HN Hi. destruct (_ && _); [apply Nat.mod_upper_bound; lia|exact Hi].
Qed.

Lemma random_loop_adjacent draws models (HN : 2 <= length models) (Hnd : NoDup models)
      (Hd : forall j, draws j < length models) :
  forall fuel k lastz i, S i < fuel ->
  nth i (random_loop draws models k fuel lastz) ""
  <> nth (S i) (random_loop draws models k fuel lastz) "".
Proof.
  induction fuel as [|f IH]; intros k lastz i Hi; [lia|].
  rewrite random_loop_head. cbv zeta.
  set (idx := if (Z.of_nat (draws k) =? lastz)%Z && (1 <? length models)
              then (draws k + 1) mod length models else draws k).
  assert (Hidx : idx < length models) by (apply random_index_bound; [lia|apply Hd]).
  destruct i as [|j].
  - destruct f as [|f']; [lia|].
    rewrite random_loop_head. cbv zeta. cbn [nth].
    destruct (random_next_index_differs (length models) (draws (S k)) idx HN (Hd (S k)))
      as [Hne Hlt].
    intros Heq. apply Hne. symmetry.
    eapply (proj1 (NoDup_nth models "")); [exact Hnd|exact Hidx|exact Hlt|exact Heq].
  - cbn [nth]. apply IH. lia.
Qed.

(** X2: with at least two distinct models and every draw in range, the
    [random] schedule never gives the same model to two consecutive
    attempts. *)
Theorem random_schedule_no_repeat (draws : nat -> nat) (n : Z) (models : list string)
        (HN : 2 <= length models) (Hnd : NoDup models)
        (Hd : forall j, draws j < length models) :
  exists schedule,
    generate_model_schedule draws n models "random" = PyOk schedule
    /\ forall i, S i < length schedule -> nth i schedule "" <> nth (S i) schedule "".
Proof.
  unfold generate_model_schedule.
  assert (E : (length models =? 0) = false) by (apply Nat.eqb_neq; lia).
  rewrite E. cbn [String.eqb Ascii.eqb Bool.eqb]. simpl (String.eqb "random" "random").
  eexists; split; [reflexivity|].
  intros i Hi. rewrite SchedulerFacts.random_loop_length in Hi.
  apply random_loop_adjacent; auto.
Qed.

Lemma random_schedule_no_repeat_witness :
  exists schedule,
    generate_model_schedule (fun _ => 1) 6 ["a"; "b"; "c"] "random" = PyOk schedule
    /\ forall i, S i < length schedule -> nth i schedule "" <> nth (S i) schedule "".
Proof.
  apply random_schedule_no_repeat.
  - simpl; lia.
  - repeat constructor; simpl; intuition discriminate.
  - intros j. simpl. lia.
Defined.

End ScheduleExtras.

Module SampleParamsExtras.
Import SampleParams.

Ltac bool_facts :=
  repeat match goal with
  | H : (_ =? _)%Z = true |- _ => apply Z.eqb_eq in H
  | H : (_ =? _)%Z = false |- _ => apply Z.eqb_neq in H
  | H : (_ <=? _)%Z = true |- _ => apply Z.leb_le in H
  | H : (_ <=? _)%Z = false |- _ => apply Z.leb_gt in H
  | H : (_ <? _)%Z = true |- _ => apply Z.ltb_lt in H
  | H : (_ <? _)%Z = false |- _ => apply Z.ltb_ge in H
  | H : (_ && _)%bool = true |- _ => apply andb_true_iff in H as [? ?]
  end.

(** X15: [_choose_sample_params] always returns the cell width [60]: its
    narrower widths are never reached. *)
Theorem cell_width_always_60 (rows : table) (available_tokens : option Z) :
  snd (choose_sample_params rows available_tokens) = 60%Z.
Proof.
  unfold choose_sample_params. cbv zeta.
  set (h := Z.of_nat (length rows)).
  set (t60 := estimate_sample_row_tokens rows 60).
  set (t50 := estimate_sample_row_tokens rows 50).
  set (t40 := estimate_sample_row_tokens rows 40).
  set (t30 := estimate_sample_row_tokens rows 30).
  assert (Hh : (0 <= h)%Z) by (unfold h; lia).
  clearbody h t60 t50 t40 t30.
  destruct available_tokens as [a|];
  repeat match goal with
  | |- context [if ?b then _ else _] => destruct b eqn:?
  end; bool_facts; cbn [snd]; try reflexivity; lia.
Qed.

(** X16: without a positive token budget the sample size is [min(height,
    1000)] and the cell width is [60]. *)
Theorem sample_size_without_budget (rows : table) (available_tokens : option Z) :
  (match available_tokens with None => true | Some a => (a <=? 0)%Z end) = true ->
  choose_sample_params rows available_tokens
  = (Z.min (Z.of_nat (length rows)) 1000, 60%Z).
Proof.
  intros Ha. unfold choose_sample_params. cbv zeta.
  destruct (Z.of_nat (length rows) =? 0)%Z eqn:E0; bool_facts.
  - rewrite E0. reflexivity.
  - destruct available_tokens as [a|].
    + rewrite Ha. f_equal. lia.
    + f_equal. lia.
Qed.

Lemma sample_size_without_budget_witness :
  choose_sample_params (repeat [Some "x"] 1500) None = (1000%Z, 60%Z)
  /\ choose_sample_params (repeat [Some "x"] 40) (Some 0%Z) = (40%Z, 60%Z).
Proof.
  split.
  - apply (sample_size_without_budget (repeat [Some "x"] 1500) None). reflexivity.
  - apply (sample_size_without_budget (repeat [Some "x"] 40) (Some 0%Z)). reflexivity.
Defined.

End SampleParamsExtras.

Module QueryExtras.













End QueryExtras.

Module ModelListExtras.
Import ModelLists.

(** X4: for the providers [cerebras], [deepseek], [anthropic] and [local]
    the list does not depend on the category; for any other provider a known
    category gives a sub-list of [ALL_MODELS] and an unknown one raises
    [ValueError]. *)
Theorem get_model_list_dispatch (category : string) (provider : option string) :
  (In (provider_key provider) ["cerebras"; "deepseek"; "anthropic"; "local"] ->
   exists l, forall category', get_model_list category' provider = PyOk l)
  /\ (~ In (provider_key provider) ["cerebras"; "deepseek"; "anthropic"; "local"] ->
      (In category ["cheap"; "expensive"; "super"; "all"] ->
       exists l, get_model_list category provider = PyOk l
                 /\ forall m, In m l -> In m ALL_MODELS)
      /\ (~ In category ["cheap"; "expensive"; "super"; "all"] ->
          get_model_list category provider = PyErr "ValueError")).
Proof.
  unfold get_model_list. set (p := provider_key provider). clearbody p.
  split.
  - intros Hp. simpl in Hp.
    destruct Hp as [<-|[<-|[<-|[<-|[]]]]]; eexists; intros c; reflexivity.
  - intros Hp.
    destruct (String.eqb_spec p "cerebras") as [->|_]; [simpl in Hp; tauto|].
    destruct (String.eqb_spec p "deepseek") as [->|_]; [simpl in Hp; tauto|].
    destruct (String.eqb_spec p "anthropic") as [->|_]; [simpl in Hp; tauto|].
    destruct (String.eqb_spec p "local") as [->|_]; [simpl in Hp; tauto|].
    split.
    + intros Hc. simpl in Hc.
      unfold ALL_MODELS.
      destruct Hc as [<-|[<-|[<-|[<-|[]]]]]; cbn [String.eqb Ascii.eqb Bool.eqb];
        eexists; (split; [reflexivity|]); intros m Hm; rewrite !in_app_iff in *; tauto.
    + intros Hc.
      destruct (String.eqb_spec category "cheap") as [->|_]; [simpl in Hc; tauto|].
      destruct (String.eqb_spec category "expensive") as [->|_]; [simpl in Hc; tauto|].
      destruct (String.eqb_spec category "super") as [->|_]; [simpl in Hc; tauto|].
      destruct (String.eqb_spec category "all") as [->|_]; [simpl in Hc; tauto|].
      reflexivity.
Qed.

Lemma get_model_list_dispatch_witness :
  (exists l, forall category', get_model_list category' (Some "Cerebras") = PyOk l)
  /\ get_model_list "bogus" None = PyErr "ValueError".
Proof.
  split.
  - apply (proj1 (get_model_list_dispatch "bogus" (Some "Cerebras"))).
    vm_compute. auto.
  - apply (proj2 (proj2 (get_model_list_dispatch "bogus" None)
                           ltac:(vm_compute; intuition discriminate))).
    simpl. intuition discriminate.
Defined.

(** X5: a non-positive [min_context] returns the models and the cache
    unchanged; with an API key set, no cache and a failed fetch, the models
    are returned unchanged and nothing is cached; otherwise the context map
    is cached and the result keeps, in order, the models whose known context
    is at least [min_context]. *)
Theorem filter_models_by_context_spec (cache : option ctx_map) (api_key : option string)
        (fetch : py_result ctx_map) (models : list string) (min_context : Z) :
  ((min_context <= 0)%Z ->
   filter_models_by_context cache api_key fetch models min_context = (models, cache))
  /\ (forall k exc, (0 < min_context)%Z -> cache = None -> api_key = Some k -> k <> "" ->
      fetch = PyErr exc ->
      filter_models_by_context cache api_key fetch models min_context = (models, None))
  /\ (forall m, (0 < min_context)%Z ->
      (cache = Some m \/ cache = None /\ get_openrouter_context_map api_key fetch = PyOk m) ->
      snd (filter_models_by_context cache api_key fetch models min_context) = Some m
      /\ fst (filter_models_by_context cache api_key fetch models min_context)
         = filter (fun x => (min_context <=? ctx_get m x 0)%Z) models
      /\ forall x, In x (fst (filter_models_by_context cache api_key fetch models min_context)) ->
         In x models /\ (min_context <= ctx_get m x 0)%Z
         /\ exists v, In (x, v) m).
Proof.
  unfold filter_models_by_context.
  split; [|split].
  - intros H. destruct (Z.leb_spec min_context 0); [reflexivity|lia].
  - intros k exc Hmin -> -> Hk ->. destruct (Z.leb_spec min_context 0); [lia|].
    cbn. destruct (String.eqb_spec k ""); [contradiction|reflexivity].
  - intros m Hmin Hc. destruct (Z.leb_spec min_context 0); [lia|].
    assert (Hm : match cache with Some m => PyOk m
                 | None => get_openrouter_context_map api_key fetch end = PyOk m)
      by (destruct Hc as [->|[-> ->]]; reflexivity).
    rewrite Hm.
    assert (Hf : forall x, In x (filter (fun x => (min_context <=? ctx_get m x 0)%Z) models) ->
                 In x models /\ (min_context <= ctx_get m x 0)%Z /\ exists v, In (x, v) m).
    { intros x Hx. apply filter_In in Hx as [Hx Hle]. apply Z.leb_le in Hle.
      split; [exact Hx|]. split; [exact Hle|].
      clear -Hle Hmin. induction m as [|[k v] t IH]; simpl in *; [lia|].
      destruct (String.eqb x k) eqn:E.
      + apply String.eqb_eq in E. subst k. exists v. auto.
      + destruct (IH Hle) as [v' Hv']. exists v'. auto. }
    destruct (length _ =? 0) eqn:E.
    + apply Nat.eqb_eq, length_zero_iff_nil in E. rewrite E.
      cbn. split; [reflexivity|]. split; [reflexivity|]. intros x [].
    + cbn. split; [reflexivity|]. split; [reflexivity|]. exact Hf.
Qed.

Lemma filter_models_by_context_spec_witness :
  filter_models_by_context None (Some "key") (PyOk [("a", 200000%Z); ("b", 8000%Z)])
    ["a"; "b"; "c"] 100000 = (["a"], Some [("a", 200000%Z); ("b", 8000%Z)])
  /\ filter_models_by_context None (Some "key") (PyErr "HTTPError") ["a"; "b"] 100000
     = (["a"; "b"], None).
Proof.
  split.
  - destruct (filter_models_by_context_spec None (Some "key")
                (PyOk [("a", 200000%Z); ("b", 8000%Z)]) ["a"; "b"; "c"] 100000)
      as [_ [_ H]].
    destruct (H [("a", 200000%Z); ("b", 8000%Z)]) as [H1 [H2 _]];
      [lia|right; split; reflexivity|].
    destruct (filter_models_by_context _ _ _ _ _) as [r c]. cbn in H1, H2.
    rewrite H1, H2. reflexivity.
  - apply (proj1 (proj2 (filter_models_by_context_spec None (Some "key") (PyErr "HTTPError")
                          ["a"; "b"] 100000)) "key" "HTTPError");
      [lia|reflexivity|reflexivity|discriminate|reflexivity].
Defined.

(** X6: without [OPENROUTER_API_KEY], a positive [min_context] filters out
    every model and caches an empty context map, and every later call with a
    positive [min_context] returns the empty list. *)
Theorem missing_api_key_empties_cache (fetch : py_result ctx_map) (models : list string)
        (min_context : Z) (Hmin : (0 < min_context)%Z) :
  filter_models_by_context None None fetch models min_context = ([], Some [])
  /\ forall api_key' fetch' models' min_context', (0 < min_context')%Z ->
     filter_models_by_context (Some []) api_key' fetch' models' min_context' = ([], Some []).
Proof.
  assert (Hnil : forall (mc : Z) (l : list string), (0 < mc)%Z ->
            filter (fun x => (mc <=? ctx_get [] x 0)%Z) l = []).
  { intros mc l Hmc. induction l as [|x l IH]; [reflexivity|].
    cbn [filter]. replace (mc <=? ctx_get [] x 0)%Z with false
      by (symmetry; apply Z.leb_gt; cbn; lia).
    exact IH. }
  unfold filter_models_by_context. split.
  - destruct (Z.leb_spec min_context 0); [lia|]. cbn [get_openrouter_context_map].
    rewrite Hnil by exact Hmin. reflexivity.
  - intros k' f' l' mc Hmc. destruct (Z.leb_spec mc 0); [lia|].
    rewrite Hnil by exact Hmc. reflexivity.
Qed.

Lemma missing_api_key_empties_cache_witness :
  filter_models_by_context None None (PyOk [("a", 200000%Z)]) ["a"] 100000 = ([], Some [])
  /\ filter_models_by_context (Some []) (Some "key") (PyOk [("a", 200000%Z)]) ["a"] 100000
     = ([], Some []).
Proof.
  destruct (missing_api_key_empties_cache (PyOk [("a", 200000%Z)]) ["a"] 100000) as [H1 H2];
    [lia|].
  split; [exact H1|]. apply H2. lia.
Defined.

End ModelListExtras.

Module QuoteIdentExtras.
Import QuoteIdent.

(** How SQLite's tokenizer reads the body of a double-quoted identifier
    after its opening quote: a doubled quote stands for one quote, a
    single quote ends the identifier; no closing quote is an error. *)
Fixpoint sqlite_read_quoted (l : list ascii) : option (list ascii * list ascii) :=
  match l with
  | [] => None
  | c :: t =>
    if ascii_eqb c dquote then
      match t with
      | c' :: t' =>
        if ascii_eqb c' dquote then
          option_map (fun '(b, r) => (dquote :: b, r)) (sqlite_read_quoted t')
        else Some ([], t)
      | [] => Some ([], [])
      end
    else option_map (fun '(b, r) => (c :: b, r)) (sqlite_read_quoted t)
  end.

(** A double-quoted identifier at the start of [l]: its name and the text
    after it. *)
Definition sqlite_quoted_ident (l : list ascii) : option (string * list ascii) :=
  match l with
  | c :: t => if ascii_eqb c dquote
              then option_map (fun '(b, r) => (str b, r)) (sqlite_read_quoted t)
              else None
  | [] => None
  end.

Lemma ascii_eqb_refl' (c : ascii) : ascii_eqb c c = true.
Proof. apply Ascii.eqb_refl. Qed.

Lemma read_quoted_escaped (name rest : list ascii) :
  (match rest with d :: _ => d <> dquote | [] => True end) ->
  sqlite_read_quoted
    (flat_map (fun c => if ascii_eqb c dquote then [dquote; dquote] else [c]) name
     ++ dquote :: rest)
  = Some (name, rest).
Proof.
  intros Hr. induction name as [|c t IH].
  - cbn [flat_map app sqlite_read_quoted]. rewrite ascii_eqb_refl'.
    destruct rest as [|d r]; [reflexivity|].
    destruct (ascii_eqb d dquote) eqn:E; [apply Ascii.eqb_eq in E; contradiction|].
    reflexivity.
  - cbn [flat_map]. destruct (ascii_eqb c dquote) eqn:E.
    + unfold ascii_eqb in E. apply Ascii.eqb_eq in E. subst c.
      cbn [app sqlite_read_quoted]. rewrite ascii_eqb_refl'. rewrite IH. reflexivity.
    + cbn [app sqlite_read_quoted]. rewrite E. rewrite IH. reflexivity.
Qed.

(** X8: reading back the quoted identifier with SQLite's rule for
    double-quoted identifiers (a doubled quote stands for one quote) gives
    the original name, and the text after the closing quote is left unread,
    when it does not start with a quote. *)
Theorem quote_ident_round_trip (name : string) (rest : list ascii)
        (Hr : match rest with d :: _ => d <> dquote | [] => True end) :
  sqlite_quoted_ident (chars (quote_ident name) ++ rest) = Some (name, rest).
Proof.
  unfold quote_ident, chars, str. rewrite list_ascii_of_string_of_list_ascii.
  cbn [app sqlite_quoted_ident]. rewrite ascii_eqb_refl'.
  rewrite <- app_assoc. cbn [app]. rewrite read_quoted_escaped by exact Hr.
  cbn. rewrite string_of_list_ascii_of_string. reflexivity.
Qed.

Lemma quote_ident_round_trip_witness :
  sqlite_quoted_ident (chars (quote_ident ("weird" ++ String dquote " name")%string) ++ chars ")")
  = Some (("weird" ++ String dquote " name")%string, chars ")").
Proof.
  apply quote_ident_round_trip. vm_compute. discriminate.
Defined.

End QuoteIdentExtras.

Module TruncateCellExtras.
Import Sampling.

Lemma chars_length (s : string) : length (chars s) = String.length s.
Proof. induction s as [|a s IH]; simpl; auto. Qed.

Lemma chars_str (l : list ascii) : chars (str l) = l.
Proof. apply list_ascii_of_string_of_list_ascii. Qed.

Lemma escape_no_nl (l : list ascii) :
  ~ In nl (flat_map (fun c => if ascii_eqb c nl then ["\"%char; "n"%char] else [c]) l).
Proof.
  intros H. apply in_flat_map in H as [c [_ Hc]].
  destruct (ascii_eqb c nl) eqn:E.
  - simpl in Hc. destruct Hc as [H|[H|[]]]; vm_compute in H; discriminate.
  - destruct Hc as [Hc|[]]. subst c. unfold ascii_eqb in E. rewrite Ascii.eqb_refl in E.
    discriminate.
Qed.

Lemma escape_id (l : list ascii) :
  ~ In nl l ->
  flat_map (fun c => if ascii_eqb c nl then ["\"%char; "n"%char] else [c]) l = l.
Proof.
  induction l as [|c t IH]; intros H; [reflexivity|].
  cbn [flat_map]. destruct (ascii_eqb c nl) eqn:E.
  - unfold ascii_eqb in E. apply Ascii.eqb_eq in E. subst. exfalso. apply H. left. reflexivity.
  - cbn [app]. rewrite IH; [reflexivity|]. intros Hn. apply H. right. exact Hn.
Qed.

Lemma firstn_incl {A} (n : nat) (l : list A) x : In x (firstn n l) -> In x l.
Proof.
  intros H. rewrite <- (firstn_skipn n l). apply in_or_app. left. exact H.
Qed.

Lemma py_prefix_incl {A} (l : list A) (k : Z) x : In x (py_prefix l k) -> In x l.
Proof. unfold py_prefix. destruct (0 <=? k)%Z; apply firstn_incl. Qed.

(** X7: a truncated cell never contains a newline; for [max_len >= 3] it has
    at most [max_len] characters; a value without newline and of at most
    [max_len] characters is returned unchanged. *)
Theorem truncate_cell_props (v : option string) (max_len : Z) :
  ~ In nl (chars (truncate_cell v max_len))
  /\ ((3 <= max_len)%Z ->
      (Z.of_nat (String.length (truncate_cell v max_len)) <= max_len)%Z)
  /\ (forall s, v = Some s -> ~ In nl (chars s) ->
      (Z.of_nat (String.length s) <= max_len)%Z -> truncate_cell v max_len = s).
Proof.
  unfold truncate_cell.
  set (l := flat_map _ (chars match v with None => "NULL"%string | Some s => s end)).
  assert (Hl : ~ In nl l) by apply escape_no_nl.
  split; [|split].
  - destruct (max_len <? Z.of_nat (length l))%Z; rewrite chars_str.
    + intros H. apply in_app_or in H as [H|H].
      * apply Hl. eapply py_prefix_incl. exact H.
      * vm_compute in H. intuition discriminate.
    + exact Hl.
  - intros H3. destruct (max_len <? Z.of_nat (length l))%Z eqn:E.
    + apply Z.ltb_lt in E. rewrite <- chars_length, chars_str, length_app.
      unfold py_prefix. replace (0 <=? max_len - 3)%Z with true by lia.
      rewrite length_firstn. change (length (chars "...")) with 3.
      pose proof (Nat.le_min_l (Z.to_nat (max_len - 3)) (length l)). lia.
    + apply Z.ltb_ge in E. rewrite <- chars_length, chars_str. exact E.
  - intros s -> Hs Hlen. subst l. rewrite escape_id by exact Hs.
    rewrite chars_length. replace (max_len <? Z.of_nat (String.length s))%Z with false by (symmetry; apply Z.ltb_ge; exact Hlen).
    unfold chars, str. apply string_of_list_ascii_of_string.
Qed.

Lemma truncate_cell_props_witness :
  (3 <= 8)%Z /\
  (Z.of_nat (String.length (truncate_cell (Some "a long cell value"%string) 8)) <= 8)%Z /\
  truncate_cell (Some "short"%string) 8 = "short"%string.
Proof.
  split; [lia|split].
  - apply (proj1 (proj2 (truncate_cell_props (Some "a long cell value"%string) 8))). lia.
  - apply (proj2 (proj2 (truncate_cell_props (Some "short"%string) 8))); [reflexivity| |].
    + vm_compute. intuition discriminate.
    + vm_compute. discriminate.
Defined.

End TruncateCellExtras.

Module StrataExtras.
Import StrataCols.

Lemma mem_In (c : string) (cols : list string) :
  existsb (String.eqb c) cols = true <-> In c cols.
Proof.
  rewrite existsb_exists. split.
  - intros [x [Hx E]]. apply String.eqb_eq in E. subst. exact Hx.
  - intros H. exists c. split; [exact H|apply String.eqb_refl].
Qed.

Lemma filter_length_le {A} (f : A -> bool) (l : list A) : length (filter f l) <= length l.
Proof.
  induction l as [|a t IH]; cbn [filter length]; [lia|].
  destruct (f a); cbn [length]; lia.
Qed.

Ltac find_facts E :=
  first [ apply find_some in E as [?HIn ?Hm]
        | pose proof (find_none _ _ E) as ?Hn ];
  repeat match goal with
         | H : existsb (String.eqb _) ?cs = true |- _ => apply mem_In in H
         end.

(** X14: the strata columns are columns of the frame taken from the
    candidate lists, at most one year column and one class column, the year
    column first; none is chosen only when no candidate is a column. *)
Theorem choose_strata_cols_spec (cols : list string) :
  let r := choose_strata_cols (Some cols) in
  (forall c, In c r -> In c cols /\ In c (year_candidates ++ class_candidates))
  /\ (r = [] <-> forall c, In c (year_candidates ++ class_candidates) -> ~ In c cols)
  /\ ((exists y, In y year_candidates /\ In y cols) ->
      exists y, hd_error r = Some y /\ In y year_candidates)
  /\ length (filter (fun c => existsb (String.eqb c) year_candidates) r) <= 1
  /\ length (filter (fun c => existsb (String.eqb c) class_candidates) r) <= 1.
Proof.
  intros r. unfold r, choose_strata_cols. clear r.
  destruct (find (fun c => existsb (String.eqb c) cols) year_candidates) as [y|] eqn:Ey;
  destruct (find (fun c => existsb (String.eqb c) cols) class_candidates) as [k|] eqn:Ek;
  find_facts Ey; find_facts Ek.
  - split; [|split; [|split; [|split]]].
    + intros x [<-|[<-|[]]]; rewrite in_app_iff; split; auto.
    + split; [discriminate|]. intros H. exfalso. apply (H y); [apply in_app_iff; auto|auto].
    + intros _. exists y. auto.
    + unfold year_candidates in HIn. unfold class_candidates in HIn0.
      cbn [In] in HIn, HIn0.
      destruct HIn as [<-|[<-|[<-|[<-|[]]]]];
      destruct HIn0 as [<-|[<-|[<-|[<-|[<-|[]]]]]]; vm_compute; lia.
    + unfold year_candidates in HIn. unfold class_candidates in HIn0.
      cbn [In] in HIn, HIn0.
      destruct HIn as [<-|[<-|[<-|[<-|[]]]]];
      destruct HIn0 as [<-|[<-|[<-|[<-|[<-|[]]]]]]; vm_compute; lia.
  - split; [|split; [|split; [|split]]].
    + intros x [<-|[]]; rewrite in_app_iff; split; auto.
    + split; [discriminate|]. intros H. exfalso. apply (H y); [apply in_app_iff; auto|auto].
    + intros _. exists y. auto.
    + pose proof (filter_length_le (fun c => existsb (String.eqb c) year_candidates) [y]).
      cbn [length] in *. lia.
    + pose proof (filter_length_le (fun c => existsb (String.eqb c) class_candidates) [y]).
      cbn [length] in *. lia.
  - split; [|split; [|split; [|split]]].
    + intros x [<-|[]]; rewrite in_app_iff; split; auto.
    + split; [discriminate|]. intros H. exfalso. apply (H k); [apply in_app_iff; auto|auto].
    + intros [y [Hy Hc]]. apply Hn in Hy. apply mem_In in Hc. congruence.
    + pose proof (filter_length_le (fun c => existsb (String.eqb c) year_candidates) [k]).
      cbn [length] in *. lia.
    + pose proof (filter_length_le (fun c => existsb (String.eqb c) class_candidates) [k]).
      cbn [length] in *. lia.
  - split; [|split; [|split; [|split]]].
    + intros x [].
    + split; [|reflexivity]. intros _ x Hx Hc. apply mem_In in Hc.
      apply in_app_iff in Hx as [Hx|Hx]; [apply Hn in Hx|apply Hn0 in Hx]; congruence.
    + intros [y [Hy Hc]]. apply Hn in Hy. apply mem_In in Hc. congruence.
    + cbn. lia.
    + cbn. lia.
Qed.

Lemma choose_strata_cols_spec_witness :
  choose_strata_cols (Some ["protein_class"; "year"; "pub_year"; "molregno"])
  = ["year"; "protein_class"]
  /\ (exists y, In y year_candidates /\ In y ["protein_class"; "year"; "pub_year"; "molregno"])
  /\ (exists y, hd_error (choose_strata_cols
                           (Some ["protein_class"; "year"; "pub_year"; "molregno"])) = Some y
               /\ In y year_candidates).
Proof.
  assert (He : exists y, In y year_candidates
                 /\ In y ["protein_class"; "year"; "pub_year"; "molregno"]).
  { exists "year". split; cbn; auto 6. }
  split; [reflexivity|split; [exact He|]].
  exact (proj1 (proj2 (proj2 (choose_strata_cols_spec
           ["protein_class"; "year"; "pub_year"; "molregno"]))) He).
Defined.

End StrataExtras.

Module SieveExtras.
Import Scheduler.

(** State of the sieve once every [i < j] has been processed: [k] is
    still marked when [k >= 2] and no [d] in [2..j-1] with [d*d <= k]
    divides it. *)
Definition sieve_inv (j k : nat) : bool :=
  (2 <=? k) && forallb (fun d => negb ((d * d <=? k) && (k mod d =? 0))) (seq 2 (j - 2)).

Lemma nth_map_combine_seq (f : nat * bool -> bool) (sv : list bool) (k : nat) :
  k < length sv ->
  nth k (map f (combine (seq 0 (length sv)) sv)) (f (0, false)) = f (k, nth k sv false).
Proof.
  intros Hk. rewrite map_nth, combine_nth by apply length_seq.
  rewrite seq_nth by exact Hk. reflexivity.
Qed.

Lemma clear_multiples_length (sv : list bool) (i : nat) :
  length (clear_multiples sv i) = length sv.
Proof. unfold clear_multiples. rewrite length_map, length_combine, length_seq. lia. Qed.

Lemma clear_multiples_nth (sv : list bool) (i k : nat) :
  k < length sv ->
  nth k (clear_multiples sv i) false
  = if (i * i <=? k) && ((k - i * i) mod i =? 0) then false else nth k sv false.
Proof.
  intros Hk. unfold clear_multiples.
  match goal with |- nth k (map ?f ?l) false = _ =>
    rewrite (nth_indep (map f l) false (f (0, false)))
      by (rewrite length_map, length_combine, length_seq; lia)
  end.
  rewrite nth_map_combine_seq by exact Hk. reflexivity.
Qed.

Lemma mod_shift (i k : nat) : i * i <= k -> (k - i * i) mod i = k mod i.
Proof.
  intros H. replace k with ((k - i * i) + i * i) at 2 by lia.
  rewrite Nat.Div0.mod_add. reflexivity.
Qed.

Lemma sieve_inv_step (j k : nat) :
  2 <= j ->
  sieve_inv (S j) k = sieve_inv j k && negb ((j * j <=? k) && (k mod j =? 0)).
Proof.
  intros Hj. unfold sieve_inv. replace (S j - 2) with (S (j - 2)) by lia.
  rewrite seq_S, forallb_app. replace (2 + (j - 2)) with j by lia.
  cbn [forallb]. rewrite andb_true_r, andb_assoc. reflexivity.
Qed.

Lemma sieve_inv_composite (j k : nat) :
  2 <= j -> sieve_inv j j = false -> j * j <= k -> k mod j = 0 -> sieve_inv j k = false.
Proof.
  intros Hj Hjj Hk Hm. destruct (sieve_inv j k) eqn:E; [|reflexivity].
  exfalso. revert Hjj. unfold sieve_inv in *.
  apply andb_prop in E as [E2 E]. rewrite forallb_forall in E.
  replace (2 <=? j) with true by (symmetry; apply Nat.leb_le; exact Hj).
  cbn [andb]. intros Hf. apply Bool.not_true_iff_false in Hf. apply Hf.
  apply forallb_forall. intros d Hd. specialize (E d Hd).
  apply in_seq in Hd.
  destruct (d * d <=? j) eqn:E1; [|reflexivity].
  destruct (j mod d =? 0) eqn:E3; [|reflexivity].
  exfalso. apply Nat.leb_le in E1. apply Nat.eqb_eq in E3.
  assert (Hdk : k mod d = 0).
  { apply Nat.Lcm0.mod_divide. apply Nat.divide_trans with j;
      apply Nat.Lcm0.mod_divide; assumption. }
  replace (d * d <=? k) with true in E by (symmetry; apply Nat.leb_le; nia).
  rewrite Hdk in E. discriminate.
Qed.

Definition sieve_body (sv : list bool) (i : nat) : list bool :=
  if nth i sv false then clear_multiples sv i else sv.

Lemma sieve_step (s : list bool) (j : nat) :
  2 <= j ->
  (forall k, k < length s -> nth k s false = sieve_inv j k) ->
  length (sieve_body s j) = length s
  /\ (forall k, k < length s -> nth k (sieve_body s j) false = sieve_inv (S j) k).
Proof.
  intros Hj Hs. unfold sieve_body. destruct (nth j s false) eqn:Ej.
  - split; [apply clear_multiples_length|].
    intros k Hk. rewrite clear_multiples_nth by exact Hk. rewrite sieve_inv_step by exact Hj.
    rewrite Hs by exact Hk.
    destruct (j * j <=? k) eqn:E1; cbn [andb negb].
    + apply Nat.leb_le in E1. rewrite mod_shift by exact E1.
      destruct (k mod j =? 0); cbn [negb]; rewrite ?andb_false_r, ?andb_true_r; reflexivity.
    + rewrite andb_true_r. reflexivity.
  - split; [reflexivity|].
    intros k Hk. rewrite sieve_inv_step by exact Hj. rewrite Hs by exact Hk.
    destruct (j * j <=? k) eqn:E1; [|cbn; rewrite andb_true_r; reflexivity].
    destruct (k mod j =? 0) eqn:E2; [|cbn; rewrite andb_true_r; reflexivity].
    apply Nat.leb_le in E1. apply Nat.eqb_eq in E2.
    rewrite sieve_inv_composite; [reflexivity|exact Hj| |exact E1|exact E2].
    rewrite <- Hs by nia. exact Ej.
Qed.

Lemma sieve_fold (m : nat) : forall (j : nat) (s : list bool),
  2 <= j ->
  (forall k, k < length s -> nth k s false = sieve_inv j k) ->
  length (fold_left sieve_body (seq j m) s) = length s
  /\ (forall k, k < length s ->
      nth k (fold_left sieve_body (seq j m) s) false = sieve_inv (j + m) k).
Proof.
  induction m as [|m IH]; intros j s Hj Hs.
  - cbn. split; [reflexivity|]. intros k Hk. rewrite Nat.add_0_r. apply Hs, Hk.
  - cbn [seq fold_left]. destruct (sieve_step s j Hj Hs) as [Hl Hn].
    destruct (IH (S j) (sieve_body s j) ltac:(lia)) as [Hl' Hn'].
    { rewrite Hl. exact Hn. }
    split; [rewrite Hl', Hl; reflexivity|].
    intros k Hk. rewrite Hn' by (rewrite Hl; exact Hk). f_equal. lia.
Qed.

Lemma enumerate_filter (s : list bool) (a : nat) :
  map fst (filter snd (combine (seq a (length s)) s))
  = filter (fun k => nth (k - a) s false) (seq a (length s)).
Proof.
  revert a. induction s as [|b t IH]; intros a; [reflexivity|].
  assert (Hr : filter (fun k => nth (k - S a) t false) (seq (S a) (length t))
             = filter (fun k => nth (k - a) (b :: t) false) (seq (S a) (length t))).
  { apply filter_ext_in. intros k Hk. apply in_seq in Hk.
    replace (k - a) with (S (k - S a)) by lia. reflexivity. }
  cbn [length seq combine filter]. rewrite <- Hr.
  replace (nth (a - a) (b :: t) false) with b by (rewrite Nat.sub_diag; reflexivity).
  cbn [snd]. destruct b; cbn [map fst]; rewrite IH; reflexivity.
Qed.

Lemma small_divisor (k d : nat) :
  2 <= d -> d < k -> k mod d = 0 ->
  exists d', 2 <= d' /\ d' * d' <= k /\ k mod d' = 0.
Proof.
  intros Hd Hdk Hm. apply Nat.Div0.div_exact in Hm.
  set (e := k / d) in Hm.
  assert (He : 2 <= e) by nia.
  destruct (Nat.le_gt_cases d e) as [Hle|Hgt].
  - exists d. split; [exact Hd|split; [nia|]].
    rewrite Hm, Nat.mul_comm. apply Nat.Div0.mod_mul.
  - exists e. split; [exact He|split; [nia|]].
    rewrite Hm. apply Nat.Div0.mod_mul.
Qed.

Lemma sieve_inv_prime (limit k : nat) :
  k <= limit -> sieve_inv (2 + (Nat.sqrt limit + 1 - 2)) k = is_prime_ref k.
Proof.
  intros Hk. unfold sieve_inv, is_prime_ref.
  destruct (2 <=? k) eqn:H2; [|reflexivity]. cbn [andb].
  apply Nat.leb_le in H2.
  apply Bool.eq_true_iff_eq. rewrite !forallb_forall. split.
  - intros HA d Hd. apply in_seq in Hd.
    destruct (k mod d =? 0) eqn:E; [|reflexivity]. exfalso.
    apply Nat.eqb_eq in E.
    destruct (small_divisor k d ltac:(lia) ltac:(lia) E) as [d' [Hd' [Hsq Hm]]].
    assert (Hs : d' <= Nat.sqrt limit).
    { apply Nat.sqrt_le_square. lia. }
    assert (Hin : In d' (seq 2 (2 + (Nat.sqrt limit + 1 - 2) - 2))) by (apply in_seq; lia).
    specialize (HA d' Hin).
    replace (d' * d' <=? k) with true in HA by (symmetry; apply Nat.leb_le; exact Hsq).
    rewrite Hm in HA. discriminate.
  - intros HB d Hd. apply in_seq in Hd.
    destruct (d * d <=? k) eqn:E1; [|reflexivity].
    destruct (k mod d =? 0) eqn:E2; [|reflexivity]. exfalso.
    apply Nat.leb_le in E1.
    assert (Hin : In d (seq 2 (k - 2))) by (apply in_seq; nia).
    specialize (HB d Hin). rewrite E2 in HB. discriminate.
Qed.

(** X3: [cic_find_primes(0)] raises [IndexError]; for [limit >= 1] the sieve
    returns exactly the primes up to [limit], in increasing order. *)
Theorem cic_find_primes_spec (limit : nat) :
  (limit = 0 -> cic_find_primes limit = None)
  /\ (1 <= limit -> cic_find_primes limit = Some (filter is_prime_ref (seq 0 (limit + 1)))).
Proof.
  split; [intros ->; reflexivity|].
  intros H. destruct limit as [|m]; [lia|].
  unfold cic_find_primes.
  replace (S m + 1) with (S (S m)) by lia.
  cbn [repeat].
  assert (E1 : py_setitem (true :: true :: repeat true m) 1 false
               = Some (true :: false :: repeat true m)).
  { unfold py_setitem. replace (1 <? length (true :: true :: repeat true m)) with true
      by (symmetry; apply Nat.ltb_lt; cbn [length]; lia). reflexivity. }
  assert (E0 : py_setitem (true :: false :: repeat true m) 0 false
               = Some (false :: false :: repeat true m)).
  { unfold py_setitem. replace (0 <? length (true :: false :: repeat true m)) with true
      by (symmetry; apply Nat.ltb_lt; cbn [length]; lia). reflexivity. }
  rewrite E1, E0.
  set (s0 := false :: false :: repeat true m).
  assert (Hinit : forall k, k < length s0 -> nth k s0 false = sieve_inv 2 k).
  { intros k Hk. unfold s0 in *. cbn [length] in Hk. rewrite repeat_length in Hk.
    unfold sieve_inv. cbn [seq forallb]. rewrite andb_true_r.
    destruct k as [|[|k]]; [reflexivity|reflexivity|].
    cbn [nth]. change (2 <=? S (S k)) with true. clear -Hk. revert k Hk. induction m as [|m IH]; intros k Hk; [lia|].
    destruct k; [reflexivity|]. cbn [repeat nth]. apply IH. lia. }
  fold (sieve_body).
  destruct (sieve_fold (Nat.sqrt (S m) + 1 - 2) 2 s0 (le_n 2) Hinit) as [Hlen Hnth].
  f_equal. rewrite enumerate_filter, Hlen.
  replace (length s0) with (S (S m)) by (unfold s0; cbn [length]; rewrite repeat_length; lia).
  apply filter_ext_in. intros k Hk. apply in_seq in Hk.
  rewrite Nat.sub_0_r, Hnth by (unfold s0; cbn [length]; rewrite repeat_length; lia).
  apply sieve_inv_prime. lia.
Qed.

Lemma cic_find_primes_spec_witness :
  cic_find_primes 0 = None
  /\ cic_find_primes 30 = Some (filter is_prime_ref (seq 0 31)).
Proof.
  split.
  - apply (proj1 (cic_find_primes_spec 0)). reflexivity.
  - apply (proj2 (cic_find_primes_spec 30)). lia.
Defined.

End SieveExtras.

Module SortedSetFacts.
Import Sampling.

Lemma insert_nat_In_iff (x y : nat) (l : list nat) :
  In x (insert_nat y l) <-> x = y \/ In x l.
Proof.
  induction l as [|z t IH]; cbn [insert_nat]; [cbn; intuition|].
  destruct (y <=? z); cbn [In]; rewrite ?IH; intuition.
Qed.

Lemma insert_nat_sorted (y : nat) (l : list nat) :
  StronglySorted lt l -> ~ In y l -> StronglySorted lt (insert_nat y l).
Proof.
  induction l as [|z t IH]; intros Hs Hy; cbn [insert_nat].
  - repeat constructor.
  - apply StronglySorted_inv in Hs as [Ht Hf].
    destruct (y <=? z) eqn:E.
    + apply Nat.leb_le in E. assert (y <> z) by (intros ->; apply Hy; left; reflexivity).
      constructor; [constructor; assumption|].
      constructor; [lia|]. rewrite Forall_forall in *. intros w Hw. specialize (Hf w Hw). lia.
    + apply Nat.leb_gt in E. constructor.
      * apply IH; [exact Ht|]. intros H. apply Hy. right. exact H.
      * rewrite Forall_forall in *. intros w Hw. apply insert_nat_In_iff in Hw as [->|Hw]; auto.
Qed.

Lemma fold_insert_In (x : nat) (l : list nat) :
  In x (fold_right insert_nat [] l) <-> In x l.
Proof.
  induction l as [|y t IH]; cbn [fold_right]; [reflexivity|].
  rewrite insert_nat_In_iff, IH. cbn [In]. intuition.
Qed.

Lemma fold_insert_sorted (l : list nat) :
  NoDup l -> StronglySorted lt (fold_right insert_nat [] l).
Proof.
  induction l as [|y t IH]; intros Hn; cbn [fold_right]; [constructor|].
  apply NoDup_cons_iff in Hn as [Hy Ht]. apply insert_nat_sorted; [auto|].
  rewrite fold_insert_In. exact Hy.
Qed.

Lemma fold_insert_length (l : list nat) :
  length (fold_right insert_nat [] l) = length l.
Proof.
  assert (Hi : forall y m, length (insert_nat y m) = S (length m)).
  { intros y m. induction m as [|z t IH]; cbn [insert_nat]; [reflexivity|].
    destruct (y <=? z); cbn [length]; [reflexivity|]. rewrite IH. reflexivity. }
  induction l as [|y t IH]; cbn [fold_right]; [reflexivity|].
  rewrite Hi, IH. reflexivity.
Qed.

Lemma nodup_length_le (l : list nat) : length (nodup Nat.eq_dec l) <= length l.
Proof.
  induction l as [|y t IH]; cbn [nodup]; [cbn; lia|].
  destruct (in_dec Nat.eq_dec y t); cbn [length]; lia.
Qed.

(** [sorted(set(l))] has the members of [l], strictly increasing, and
    is no longer than [l]. *)
Lemma sorted_set_In_iff (x : nat) (l : list nat) : In x (sorted_set l) <-> In x l.
Proof. unfold sorted_set. rewrite fold_insert_In. apply nodup_In. Qed.

Lemma sorted_set_sorted (l : list nat) : StronglySorted lt (sorted_set l).
Proof. unfold sorted_set. apply fold_insert_sorted, NoDup_nodup. Qed.

Lemma sorted_set_length (l : list nat) : length (sorted_set l) <= length l.
Proof. unfold sorted_set. rewrite fold_insert_length. apply nodup_length_le. Qed.

Lemma sorted_hd (r : list nat) (m : nat) :
  StronglySorted lt r -> In m r -> (forall x, In x r -> m <= x) -> hd_error r = Some m.
Proof.
  destruct r as [|a t]; intros Hs Hm Hle; [contradiction|].
  cbn [hd_error]. f_equal. apply StronglySorted_inv in Hs as [_ Hf].
  destruct Hm as [->|Hm]; [reflexivity|].
  rewrite Forall_forall in Hf. specialize (Hf m Hm). specialize (Hle a (or_introl eq_refl)). lia.
Qed.

Lemma sorted_last (r : list nat) (m : nat) :
  StronglySorted lt r -> In m r -> (forall x, In x r -> x <= m) -> last r 0 = m.
Proof.
  induction r as [|a t IH]; intros Hs Hm Hle; [contradiction|].
  apply StronglySorted_inv in Hs as [Ht Hf]. rewrite Forall_forall in Hf.
  destruct t as [|b u].
  - destruct Hm as [->|[]]. reflexivity.
  - change (last (a :: b :: u) 0) with (last (b :: u) 0).
    apply IH; [exact Ht| |intros x Hx; apply Hle; right; exact Hx].
    destruct Hm as [->|Hm]; [|exact Hm].
    exfalso. specialize (Hf b (or_introl eq_refl)). specialize (Hle b (or_intror (or_introl eq_refl))).
    lia.
Qed.

End SortedSetFacts.

Module PyFloatFacts.
Import Sampling.

(** Facts about the float model: the rounding error of [float_round],
    exactness on small integers, and [round]. *)
Lemma pow2_pos (e : Z) : (0 < pow2 e)%Q.
Proof. apply Qpower_0_lt. reflexivity. Qed.

Lemma pow2_add (a b : Z) : (pow2 (a + b) == pow2 a * pow2 b)%Q.
Proof. unfold pow2. apply Qpower_plus. discriminate. Qed.

Lemma pow2_Z (e : Z) : (0 <= e)%Z -> (pow2 e == inject_Z (2 ^ e))%Q.
Proof. intros He. unfold pow2. rewrite Zpower_Qpower by exact He. reflexivity. Qed.

Lemma pow2_le_inv (a b : Z) : (pow2 a <= pow2 b)%Q -> (a <= b)%Z.
Proof. intros H. apply (Qpower_le_compat_l_inv (2 # 1)); [exact H|reflexivity]. Qed.

Lemma float_exp_lower (q : Q) : (0 < q)%Q -> (pow2 (float_exp q) <= q)%Q.
Proof.
  intros Hq. unfold float_exp.
  destruct (Qlt_le_dec q _) as [Hlt|Hle]; [|exact Hle].
  destruct q as [a b]. cbn [Qnum Qden] in *.
  assert (Ha : (0 < a)%Z) by (unfold Qlt in Hq; simpl in Hq; lia).
  destruct (Z.log2_spec a Ha) as [Ha1 _].
  destruct (Z.log2_spec (Zpos b) ltac:(lia)) as [_ Hb2].
  set (la := Z.log2 a) in *. set (lb := Z.log2 (Zpos b)) in *.
  assert (Hla : (0 <= la)%Z) by apply Z.log2_nonneg.
  assert (Hlb : (0 <= lb)%Z) by apply Z.log2_nonneg.
  replace (la - lb - 1)%Z with (la + - Z.succ lb)%Z by lia.
  rewrite pow2_add. unfold pow2 at 2. rewrite Qpower_opp. fold (pow2 (Z.succ lb)).
  rewrite !pow2_Z by lia.
  assert (Hp : (0 < 2 ^ Z.succ lb)%Z) by (apply Z.pow_pos_nonneg; lia).
  rewrite <- (Z2Pos.id _ Hp).
  change (inject_Z (2 ^ la) * / inject_Z (Zpos (Z.to_pos (2 ^ Z.succ lb))))%Q
    with (inject_Z (2 ^ la) / inject_Z (Zpos (Z.to_pos (2 ^ Z.succ lb))))%Q.
  rewrite <- Qmake_Qdiv. unfold Qle. cbn [Qnum Qden].
  rewrite Z2Pos.id by exact Hp. nia.
Qed.

Lemma py_round_near (q : Q) :
  (inject_Z (py_round q) - q <= 1 # 2)%Q /\ (q - inject_Z (py_round q) <= 1 # 2)%Q.
Proof.
  pose proof (Qfloor_le q) as H1. pose proof (Qlt_floor q) as H2.
  rewrite inject_Z_plus in H2. change (inject_Z 1) with 1%Q in H2.
  unfold py_round.
  destruct (Qlt_le_dec _ (1 # 2)); [split; lra|].
  destruct (Qlt_le_dec (1 # 2) _); [rewrite inject_Z_plus; change (inject_Z 1) with 1%Q; split; lra|].
  destruct (Z.even _); [split; lra|rewrite inject_Z_plus; change (inject_Z 1) with 1%Q; split; lra].
Qed.

Lemma py_round_nonneg (q : Q) : (0 <= q)%Q -> (0 <= py_round q)%Z.
Proof.
  intros Hq. pose proof (py_round_near q) as [_ H].
  assert (H' : (inject_Z (-1) < inject_Z (py_round q))%Q)
    by (change (inject_Z (-1)) with (-1)%Q; lra).
  rewrite <- Zlt_Qlt in H'. lia.
Qed.

Lemma py_round_of_int (q : Q) (k : Z) : (q == inject_Z k)%Q -> py_round q = k.
Proof.
  intros Hq. unfold py_round.
  rewrite (Qfloor_comp q (inject_Z k) Hq), Qfloor_Z.
  destruct (Qlt_le_dec (q - inject_Z k)%Q (1 # 2)) as [_|Hr]; [reflexivity|].
  exfalso. rewrite Hq in Hr. lra.
Qed.

Lemma py_round_lt (q : Q) (k : Z) : (q < inject_Z k + (1 # 2))%Q -> (py_round q <= k)%Z.
Proof.
  intros Hq. pose proof (Qfloor_le q) as Hf. pose proof (Qlt_floor q) as Hf1.
  assert (Hfk : (Qfloor q <= k)%Z).
  { apply Z.lt_succ_r. rewrite Zlt_Qlt. unfold Z.succ. rewrite inject_Z_plus.
    change (inject_Z 1) with 1%Q. lra. }
  unfold py_round.
  destruct (Z.eq_dec (Qfloor q) k) as [Heq|Hne].
  - rewrite Heq in *. destruct (Qlt_le_dec _ (1 # 2)) as [_|Hr]; [lia|]. lra.
  - destruct (Qlt_le_dec _ (1 # 2)); [lia|].
    destruct (Qlt_le_dec (1 # 2) _); [lia|].
    destruct (Z.even _); lia.
Qed.

Lemma py_round_eq (q : Q) (k : Z) :
  (inject_Z k - (1 # 2) < q)%Q -> (q < inject_Z k + (1 # 2))%Q -> py_round q = k.
Proof.
  intros H1 H2. pose proof (py_round_lt q k H2). pose proof (py_round_near q) as [_ H3].
  assert (H4 : (inject_Z (k - 1) < inject_Z (py_round q))%Q).
  { replace (k - 1)%Z with (k + -1)%Z by lia. rewrite inject_Z_plus.
    change (inject_Z (-1)) with (-1)%Q. lra. }
  rewrite <- Zlt_Qlt in H4. lia.
Qed.

Definition ulp_rel : Q := 1 # 9007199254740992.
Definition ulp_abs : Q := 1 # 18446744073709551616.

Lemma float_round_pos_err (q : Q) : (0 < q)%Q ->
  (float_round_pos q - q <= q * ulp_rel + ulp_abs)%Q
  /\ (q - float_round_pos q <= q * ulp_rel + ulp_abs)%Q.
Proof.
  intros Hq. unfold float_round_pos.
  set (k := float_exp q). set (e := Z.max (k - 52) (-1074)).
  pose proof (pow2_pos e) as Hp.
  assert (Hpe : (pow2 e * (1 # 2) <= q * ulp_rel + ulp_abs)%Q).
  { unfold e. destruct (Z.max_spec (k - 52) (-1074)) as [[_ ->]|[_ ->]].
    - assert (H : (pow2 (-1074) * (1 # 2) <= ulp_abs)%Q) by (vm_compute; discriminate).
      assert (0 <= q * ulp_rel)%Q by (unfold ulp_rel; lra). lra.
    - replace (k - 52)%Z with (k + -52)%Z by lia.
      rewrite pow2_add. pose proof (float_exp_lower q Hq) as Hk. fold k in Hk.
      assert (H52 : (pow2 (-52) == 1 # 4503599627370496)%Q) by reflexivity.
      rewrite H52. unfold ulp_rel, ulp_abs. lra. }
  set (r := py_round (q / pow2 e)).
  pose proof (py_round_near (q / pow2 e)) as [H1 H2]. fold r in H1, H2.
  assert (Hx : ((inject_Z r - q / pow2 e) * pow2 e == inject_Z r * pow2 e - q)%Q)
    by (field; intros H; rewrite H in Hp; lra).
  assert (E1 : ((inject_Z r - q / pow2 e) * pow2 e <= (1 # 2) * pow2 e)%Q)
    by (apply Qmult_le_compat_r; lra).
  assert (E2 : ((q / pow2 e - inject_Z r) * pow2 e <= (1 # 2) * pow2 e)%Q)
    by (apply Qmult_le_compat_r; lra).
  assert (Hy : ((q / pow2 e - inject_Z r) * pow2 e == q - inject_Z r * pow2 e)%Q)
    by (field; intros H; rewrite H in Hp; lra).
  rewrite Hx in E1. rewrite Hy in E2. split; lra.
Qed.

Lemma float_round_zero (q : Q) : (q == 0)%Q -> float_round q = 0%Q.
Proof. intros H. unfold float_round. rewrite (proj1 (Qeq_alt q 0) H). reflexivity. Qed.

Lemma float_round_err (q : Q) : (0 <= q)%Q ->
  (float_round q - q <= q * ulp_rel + ulp_abs)%Q
  /\ (q - float_round q <= q * ulp_rel + ulp_abs)%Q.
Proof.
  intros Hq. destruct (Qle_lt_or_eq _ _ Hq) as [Hlt|Heq].
  - unfold float_round. rewrite (proj1 (Qgt_alt q 0) Hlt).
    apply float_round_pos_err, Hlt.
  - rewrite float_round_zero by (symmetry; exact Heq).
    unfold ulp_rel, ulp_abs. rewrite <- Heq. split; lra.
Qed.

Lemma float_round_nonneg (q : Q) : (0 <= q)%Q -> (0 <= float_round q)%Q.
Proof.
  intros Hq. destruct (Qle_lt_or_eq _ _ Hq) as [Hlt|Heq].
  - unfold float_round. rewrite (proj1 (Qgt_alt q 0) Hlt). unfold float_round_pos.
    set (e := Z.max (float_exp q - 52) (-1074)).
    pose proof (pow2_pos e) as Hp.
    apply Qmult_le_0_compat; [|lra].
    change 0%Q with (inject_Z 0). rewrite <- Zle_Qle. apply py_round_nonneg.
    apply Qle_shift_div_l; [exact Hp|]. lra.
  - rewrite float_round_zero by (symmetry; exact Heq). lra.
Qed.

Lemma float_round_int (k : Z) : (0 <= k <= 2 ^ 52)%Z -> (float_round (inject_Z k) == inject_Z k)%Q.
Proof.
  intros Hk. destruct (Z.eq_dec k 0) as [->|Hk0].
  { rewrite float_round_zero by reflexivity. reflexivity. }
  assert (Hpos : (0 < inject_Z k)%Q) by (change 0%Q with (inject_Z 0); rewrite <- Zlt_Qlt; lia).
  unfold float_round. rewrite (proj1 (Qgt_alt _ 0) Hpos). unfold float_round_pos.
  set (ke := float_exp (inject_Z k)).
  assert (Hke : (ke <= 52)%Z).
  { apply pow2_le_inv. eapply Qle_trans; [apply float_exp_lower, Hpos|].
    rewrite pow2_Z by lia. rewrite <- Zle_Qle. lia. }
  set (e := Z.max (ke - 52) (-1074)).
  assert (He : (e <= 0)%Z) by (unfold e; lia).
  assert (Hq : (inject_Z k / pow2 e == inject_Z (k * 2 ^ (- e)))%Q).
  { rewrite inject_Z_mult, <- pow2_Z by lia. unfold pow2. rewrite Qpower_opp.
    unfold Qdiv. reflexivity. }
  rewrite (py_round_of_int _ _ Hq).
  rewrite inject_Z_mult, <- pow2_Z by lia. rewrite <- Qmult_assoc, <- pow2_add.
  replace (- e + e)%Z with 0%Z by lia. unfold pow2. simpl. ring.
Qed.

Lemma py_round_zero_mul (x : Q) : py_round (py_int_mul 0 x) = 0%Z.
Proof.
  unfold py_int_mul. rewrite float_round_zero; [reflexivity|].
  rewrite float_round_zero by reflexivity. ring.
Qed.

(** [int(round(i * step))] with [step = (c - 1) / (m - 1)], for
    [0 <= i <= m - 1 < c - 1] and [c <= 2 ^ 50]: an index of [range(c)],
    [0] for [i = 0] and [c - 1] for [i = m - 1]. *)
Lemma step_index_round (c m i : Z) :
  (2 <= m)%Z -> (m < c)%Z -> (c <= 2 ^ 50)%Z -> (0 <= i <= m - 1)%Z ->
  let x := py_int_mul i (py_truediv (c - 1) (m - 1)) in
  (0 <= py_round x <= c - 1)%Z
  /\ (i = 0%Z -> py_round x = 0%Z)
  /\ (i = m - 1 -> py_round x = c - 1)%Z.
Proof.
  intros Hm Hmc Hc Hi x. unfold x, py_int_mul, py_truediv. clear x.
  set (Qv := (inject_Z (c - 1) / inject_Z (m - 1))%Q).
  assert (Hm1 : (0 < inject_Z (m - 1))%Q)
    by (change 0%Q with (inject_Z 0); rewrite <- Zlt_Qlt; lia).
  assert (HQm : (Qv * inject_Z (m - 1) == inject_Z (c - 1))%Q)
    by (unfold Qv; field; intros H; rewrite H in Hm1; lra).
  assert (HQ1 : (1 <= Qv)%Q).
  { unfold Qv. apply Qle_shift_div_l; [exact Hm1|]. rewrite Qmult_1_l, <- Zle_Qle. lia. }
  set (s := float_round Qv).
  destruct (float_round_err Qv ltac:(lra)) as [Hs1 Hs2]. fold s in Hs1, Hs2.
  assert (Hs0 : (0 <= s)%Q) by (apply float_round_nonneg; lra).
  assert (Hi0 : (0 <= inject_Z i)%Q) by (change 0%Q with (inject_Z 0); rewrite <- Zle_Qle; lia).
  assert (Hiq : (inject_Z i <= inject_Z (m - 1))%Q) by (rewrite <- Zle_Qle; lia).
  assert (Hi50 : (inject_Z i <= inject_Z (2 ^ 50))%Q) by (rewrite <- Zle_Qle; lia).
  assert (Hc50 : (inject_Z (c - 1) <= inject_Z (2 ^ 50))%Q) by (rewrite <- Zle_Qle; lia).
  change (inject_Z (2 ^ 50)) with (1125899906842624 # 1)%Q in Hi50, Hc50.
  set (y := (float_round (inject_Z i) * s)%Q).
  assert (Hyeq : (y == inject_Z i * s)%Q) by (unfold y; rewrite (float_round_int i) by lia; reflexivity).
  assert (Hy0 : (0 <= y)%Q) by (rewrite Hyeq; apply Qmult_le_0_compat; assumption).
  destruct (float_round_err y Hy0) as [Hx1 Hx2].
  set (x := float_round y) in *.
  assert (HiQ : (inject_Z i * Qv <= inject_Z (c - 1))%Q)
    by (rewrite <- HQm, (Qmult_comm Qv); apply Qmult_le_compat_r; lra).
  assert (HiQ0 : (0 <= inject_Z i * Qv)%Q) by (apply Qmult_le_0_compat; lra).
  assert (Hyu : (y <= inject_Z i * Qv * (1 + ulp_rel) + inject_Z i * ulp_abs)%Q).
  { rewrite Hyeq. setoid_replace (inject_Z i * Qv * (1 + ulp_rel) + inject_Z i * ulp_abs)%Q
      with (inject_Z i * (Qv * (1 + ulp_rel) + ulp_abs))%Q by ring.
    rewrite !(Qmult_comm (inject_Z i)). apply Qmult_le_compat_r; [|exact Hi0]. lra. }
  assert (Hyl : (inject_Z i * Qv * (1 - ulp_rel) - inject_Z i * ulp_abs <= y)%Q).
  { rewrite Hyeq. setoid_replace (inject_Z i * Qv * (1 - ulp_rel) - inject_Z i * ulp_abs)%Q
      with (inject_Z i * (Qv * (1 - ulp_rel) - ulp_abs))%Q by ring.
    rewrite !(Qmult_comm (inject_Z i)). apply Qmult_le_compat_r; [|exact Hi0]. lra. }
  unfold ulp_rel, ulp_abs in *.
  assert (Hup : (x < inject_Z (c - 1) + (1 # 2))%Q) by lra.
  split; [split|split].
  - apply py_round_nonneg, float_round_nonneg, Hy0.
  - apply py_round_lt, Hup.
  - intros ->. unfold x. rewrite float_round_zero; [reflexivity|].
    rewrite Hyeq. change (inject_Z 0) with 0%Q. ring.
  - intros ->. apply py_round_eq; [|exact Hup].
    assert (HiQe : (inject_Z (m - 1) * Qv == inject_Z (c - 1))%Q)
      by (rewrite Qmult_comm; exact HQm).
    lra.
Qed.

End PyFloatFacts.

Module EvenlySpacedExtras.
Import Sampling SortedSetFacts PyFloatFacts.

Lemma seq_last (n : nat) : 0 < n -> last (seq 0 n) 0 = n - 1.
Proof.
  intros Hn. destruct n as [|n]; [lia|]. rewrite seq_S, last_last. lia.
Qed.

Lemma seq_sorted (a n : nat) : StronglySorted lt (seq a n).
Proof.
  revert a. induction n as [|n IH]; intros a; cbn [seq]; constructor; [apply IH|].
  apply Forall_forall. intros x Hx. apply in_seq in Hx. lia.
Qed.

Lemma evenly_spaced_indices_shape (count max_items : Z) :
  let r := evenly_spaced_indices count max_items in
  StronglySorted lt r
  /\ length r <= Z.to_nat max_items
  /\ ((0 < count)%Z -> (0 < max_items)%Z -> hd_error r = Some 0)
  /\ ((count <= 2 ^ 50)%Z ->
      (forall x, In x r -> (Z.of_nat x < count)%Z)
      /\ ((0 < count)%Z -> (count <= max_items \/ 2 <= max_items)%Z ->
          last r 0 = Z.to_nat (count - 1))).
Proof.
  intros r. unfold r, evenly_spaced_indices. clear r.
  destruct ((count <=? 0)%Z || (max_items <=? 0)%Z) eqn:E0.
  { apply orb_true_iff in E0. rewrite !Z.leb_le in E0.
    split; [constructor|split; [cbn; lia|split; [intros; lia|]]].
    intros _. split; [intros x []|intros; lia]. }
  apply orb_false_iff in E0 as [E0a E0b]. apply Z.leb_gt in E0a, E0b.
  destruct (count <=? max_items)%Z eqn:E1.
  { apply Z.leb_le in E1. unfold py_range.
    split; [apply seq_sorted|split; [|split; [|intros _; split]]].
    - rewrite length_seq. lia.
    - intros _ _. destruct (Z.to_nat count) eqn:Ec; [lia|reflexivity].
    - intros x Hx. apply in_seq in Hx. lia.
    - intros _ _. rewrite seq_last by lia. lia. }
  apply Z.leb_gt in E1.
  destruct (max_items =? 1)%Z eqn:E2.
  { apply Z.eqb_eq in E2.
    split; [repeat constructor|split; [|split; [|intros _; split]]].
    - cbn [length]. lia.
    - reflexivity.
    - intros x [<-|[]]. lia.
    - intros _ H. lia. }
  apply Z.eqb_neq in E2.
  set (step := py_truediv (count - 1) (max_items - 1)).
  set (l := map (fun i => Z.to_nat (py_round (py_int_mul (Z.of_nat i) step)))
                (py_range max_items)).
  assert (F2 : In 0 l).
  { unfold l, py_range. apply in_map_iff. exists 0. split; [|apply in_seq; lia].
    cbn [Z.of_nat]. rewrite py_round_zero_mul. reflexivity. }
  split; [apply sorted_set_sorted|split; [|split]].
  - etransitivity; [apply sorted_set_length|]. unfold l, py_range.
    rewrite length_map, length_seq. lia.
  - intros _ _. apply sorted_hd; [apply sorted_set_sorted|apply sorted_set_In_iff, F2|lia].
  - intros Hc.
    assert (F1 : forall x, In x l -> (Z.of_nat x <= count - 1)%Z).
    { intros x Hx. unfold l, py_range in Hx. apply in_map_iff in Hx as [i [<- Hi]].
      apply in_seq in Hi.
      pose proof (step_index_round count max_items (Z.of_nat i) ltac:(lia) ltac:(lia)
                    ltac:(lia) ltac:(lia)) as [[H0 H1] _].
      fold step in H0, H1. lia. }
    assert (F3 : In (Z.to_nat (count - 1)) l).
    { unfold l, py_range. apply in_map_iff. exists (Z.to_nat max_items - 1).
      split; [|apply in_seq; lia].
      replace (Z.of_nat (Z.to_nat max_items - 1)) with (max_items - 1)%Z by lia.
      pose proof (step_index_round count max_items (max_items - 1) ltac:(lia) ltac:(lia)
                    ltac:(lia) ltac:(lia)) as [_ [_ H3]].
      fold step in H3. rewrite H3 by reflexivity. reflexivity. }
    split.
    + intros x Hx. apply sorted_set_In_iff, F1 in Hx. lia.
    + intros _ _. apply sorted_last; [apply sorted_set_sorted|apply sorted_set_In_iff, F3|].
      intros x Hx. apply sorted_set_In_iff, F1 in Hx. lia.
Qed.

(** X10: [_evenly_spaced_indices(count, max_items)] returns strictly
    increasing indices, at most [max_items] of them, starting at [0]; for
    [count <= 2 ^ 50], with [i * step] computed in floats, every index lies
    in [range(count)] and, unless [max_items == 1 < count], the last one is
    [count - 1]. *)
Theorem evenly_spaced_indices_spec (count max_items : Z) :
  let r := evenly_spaced_indices count max_items in
  StronglySorted lt r
  /\ length r <= Z.to_nat max_items
  /\ ((0 < count)%Z -> (0 < max_items)%Z -> hd_error r = Some 0)
  /\ ((count <= 2 ^ 50)%Z ->
      (forall x, In x r -> (Z.of_nat x < count)%Z)
      /\ ((0 < count)%Z -> (count <= max_items \/ 2 <= max_items)%Z ->
          last r 0 = Z.to_nat (count - 1))).
Proof. exact (evenly_spaced_indices_shape count max_items). Qed.

(** [_evenly_spaced_indices(30, 15)]: [7 * (29 / 14)] is the float
    [14.500000000000002], which rounds to [15]. *)
Lemma evenly_spaced_indices_spec_witness :
  evenly_spaced_indices 30 15 = [0; 2; 4; 6; 8; 10; 12; 15; 17; 19; 21; 23; 25; 27; 29]
  /\ hd_error (evenly_spaced_indices 30 15) = Some 0
  /\ last (evenly_spaced_indices 30 15) 0 = 29.
Proof.
  pose proof (evenly_spaced_indices_spec 30 15) as [_ [_ [Hh Hl]]].
  split; [vm_compute; reflexivity|].
  split; [apply Hh; lia|apply (proj2 (Hl ltac:(lia)) ltac:(lia) ltac:(lia))].
Defined.

End EvenlySpacedExtras.

Module SampleRowsExtras.
Import Sampling SortedSetFacts EvenlySpacedExtras.

Lemma firstn_sorted (k : nat) (l : list nat) :
  StronglySorted lt l -> StronglySorted lt (firstn k l).
Proof.
  revert k. induction l as [|a t IH]; intros [|k] Hs; cbn [firstn]; try constructor.
  - apply StronglySorted_inv in Hs as [Ht Hf]. apply IH, Ht.
  - apply StronglySorted_inv in Hs as [Ht Hf]. rewrite Forall_forall in *.
    intros x Hx. apply Hf. rewrite <- (firstn_skipn k t). apply in_or_app. left. exact Hx.
Qed.

Lemma firstn_In (k : nat) (l : list nat) (x : nat) : In x (firstn k l) -> In x l.
Proof. intros H. rewrite <- (firstn_skipn k l). apply in_or_app. left. exact H. Qed.

Lemma py_prefix_shape (l : list nat) (k : Z) :
  (StronglySorted lt l -> StronglySorted lt (py_prefix l k))
  /\ (forall x, In x (py_prefix l k) -> In x l)
  /\ ((0 <= k)%Z -> length (py_prefix l k) <= Z.to_nat k).
Proof.
  unfold py_prefix. destruct (0 <=? k)%Z eqn:E.
  - split; [apply firstn_sorted|split; [apply firstn_In|]].
    intros _. rewrite length_firstn. lia.
  - apply Z.leb_gt in E. split; [apply firstn_sorted|split; [apply firstn_In|lia]].
Qed.

Lemma fill_indices_In (todo indices : list nat) (ms : Z) (x : nat) :
  In x (fill_indices todo indices ms) -> In x indices \/ In x todo.
Proof.
  revert indices. induction todo as [|i t IH]; intros indices H; cbn [fill_indices] in H; [auto|].
  destruct (existsb (Nat.eqb i) indices).
  - apply IH in H as [H|H]; cbn [In]; auto.
  - destruct (ms <=? Z.of_nat (length (indices ++ [i])))%Z.
    + apply in_app_or in H as [H|[H|[]]]; cbn [In]; auto.
    + apply IH in H as [H|H]; [apply in_app_or in H as [H|[H|[]]]|]; cbn [In]; auto.
Qed.

(** The row indices [sample_result_rows] selects, for [n > 0] rows. *)
Lemma sample_indices_shape (n : nat) (ms : Z) :
  0 < n ->
  let idx := sample_indices n ms in
  StronglySorted lt idx
  /\ ((0 <= ms)%Z -> length idx <= Z.to_nat ms)
  /\ ((Z.of_nat n <= ms)%Z -> idx = seq 0 n).
Proof.
  intros Hn idx. unfold idx, sample_indices. clear idx.
  destruct (Z.of_nat n <=? ms)%Z eqn:E1.
  { apply Z.leb_le in E1. split; [apply seq_sorted|split; [|reflexivity]].
    intros _. rewrite length_seq. lia. }
  apply Z.leb_gt in E1.
  destruct (ms <=? 9)%Z eqn:E2.
  { apply Z.leb_le in E2.
    destruct (py_prefix_shape (sorted_set
                (seq 0 (Nat.min 3 n)
                 ++ (if 6 <? n then
                       map (fun i => Nat.max 0 (n / 2 - 1) + i)
                           (seq 0 (Nat.min 3 (n - Nat.max 0 (n / 2 - 1)))) else [])
                 ++ (if 9 <? n then seq (n - 3) 3 else []))) ms) as [Hs [_ Hlen]].
    split; [apply Hs, sorted_set_sorted|split; [exact Hlen|intros; lia]]. }
  apply Z.leb_gt in E2.
  set (l := map (fun i => Z.to_nat (py_round (py_int_mul (Z.of_nat i)
                   (py_truediv (Z.of_nat n - 1) (ms - 1)))))
                (py_range ms)).
  assert (Hll : length l = Z.to_nat ms) by (unfold l, py_range; rewrite length_map, length_seq; reflexivity).
  destruct (Z.of_nat (length (sorted_set l)) <? ms)%Z.
  - destruct (py_prefix_shape (fill_indices (seq 0 n) (sorted_set l) ms) ms) as [_ [_ Hlen]].
    split; [apply sorted_set_sorted|split; [|intros; lia]].
    intros H0. etransitivity; [apply sorted_set_length|]. apply Hlen, H0.
  - split; [apply sorted_set_sorted|split; [|intros; lia]].
    intros _. rewrite <- Hll. apply sorted_set_length.
Qed.

Lemma map_combine_seq_fst {A B} (h : nat -> B) (a : nat) (l : list A) :
  map (fun p => h (fst p)) (combine (seq a (length l)) l) = map h (seq a (length l)).
Proof.
  revert a. induction l as [|x t IH]; intros a; [reflexivity|].
  cbn [length seq combine map fst]. rewrite IH. reflexivity.
Qed.

Lemma map_nth_seq_nth (idx : list nat) (k : nat) :
  k < length idx -> nth k (map (fun i => nth i idx 0) (seq 0 (length idx))) 0 = nth k idx 0.
Proof.
  intros Hk.
  pose proof (map_nth (fun i => nth i idx 0) (seq 0 (length idx)) 0 k) as H.
  cbn beta in H. rewrite (nth_indep _ _ (nth 0 idx 0)) by (rewrite length_map, length_seq; exact Hk).
  rewrite H, seq_nth by exact Hk. reflexivity.
Qed.

Lemma map_nth_seq_self (idx : list nat) : map (fun i => nth i idx 0) (seq 0 (length idx)) = idx.
Proof.
  apply nth_ext with (d := 0) (d' := 0); rewrite ?length_map, ?length_seq; [reflexivity|].
  intros k Hk. rewrite (map_nth_seq_nth idx k Hk). reflexivity.
Qed.

Lemma emit_indices (idx : list nat) (sampled : table) (n : nat) (mcl : Z) :
  length sampled = length idx ->
  map s_idx (emit idx sampled n mcl) = idx.
Proof.
  intros Hlen. unfold emit, table, row in *. rewrite map_map.
  set (h := fun li => if li <? length idx then nth li idx 0 else li).
  rewrite (map_ext _ (fun p => h (fst p))) by (intros [a b]; reflexivity).
  rewrite map_combine_seq_fst, Hlen.
  rewrite (map_ext_in _ (fun i => nth i idx 0)).
  - apply map_nth_seq_self.
  - intros a Ha. apply in_seq in Ha. unfold h. replace (a <? length idx) with true
      by (symmetry; apply Nat.ltb_lt; lia). reflexivity.
Qed.

(** X9: [sample_result_rows] emits rows in increasing index order, without
    repeats and in range, at most [max_samples] of them; a table of at most
    [max_samples] rows is emitted whole, in order; this holds whether or not
    [DataFrame.take] is available. *)
Theorem sample_result_rows_indices (take_ok : bool) (rows : table) (ms mcl : Z) :
  let out := sample_result_rows take_ok rows ms mcl in
  StronglySorted lt (map s_idx out)
  /\ (forall e, In e out -> s_idx e < length rows)
  /\ ((0 <= ms)%Z -> length out <= Z.to_nat ms)
  /\ ((Z.of_nat (length rows) <= ms)%Z -> map s_idx out = seq 0 (length rows)).
Proof.
  intros out. unfold out, sample_result_rows. clear out.
  destruct (length rows =? 0) eqn:E0.
  { apply Nat.eqb_eq in E0. rewrite E0.
    split; [apply SSorted_nil|split; [intros e []|split; intros; cbn; first [lia|reflexivity]]]. }
  apply Nat.eqb_neq in E0.
  destruct (sample_indices_shape (length rows) ms ltac:(lia)) as [Hs [Hl Hall]].
  destruct (df_take take_ok rows (sample_indices (length rows) ms)) as [sampled|] eqn:Ht.
  - assert (Hsl : length sampled = length (sample_indices (length rows) ms)
                  /\ forall i, In i (sample_indices (length rows) ms) -> i < length rows).
    { unfold df_take in Ht.
      destruct (take_ok && forallb (fun i => i <? length rows) _) eqn:Et; [|discriminate].
      injection Ht as <-. split; [apply length_map|].
      apply andb_true_iff in Et as [_ Et]. rewrite forallb_forall in Et.
      intros i Hi. apply Nat.ltb_lt, Et, Hi. }
    destruct Hsl as [Hsl Hb].
    assert (Hlo : length (emit (sample_indices (length rows) ms) sampled (length rows) mcl)
                  = length sampled).
    { unfold emit. rewrite length_map, length_combine, length_seq. lia. }
    pose proof (emit_indices _ sampled (length rows) mcl Hsl) as Hi.
    split; [rewrite Hi; exact Hs|split; [|split]].
    + intros e He. apply Hb. rewrite <- Hi. apply in_map, He.
    + intros H0. rewrite Hlo, Hsl. apply Hl, H0.
    + intros H. rewrite Hi. apply Hall, H.
  - set (sampled := py_prefix rows (Z.min ms (Z.of_nat (length rows)))).
    assert (Hsl : length sampled <= length rows /\
                  ((0 <= ms)%Z -> length sampled <= Z.to_nat ms) /\
                  ((Z.of_nat (length rows) <= ms)%Z -> length sampled = length rows)).
    { unfold sampled, py_prefix. destruct (0 <=? Z.min ms (Z.of_nat (length rows)))%Z eqn:Ez.
      - apply Z.leb_le in Ez. rewrite length_firstn. split; [lia|split; intros; lia].
      - apply Z.leb_gt in Ez. rewrite length_firstn. split; [lia|split; intros; lia]. }
    assert (Hlo : length (emit (seq 0 (length sampled)) sampled (length rows) mcl)
                  = length sampled).
    { unfold emit. rewrite length_map, length_combine, length_seq. lia. }
    pose proof (emit_indices (seq 0 (length sampled)) sampled (length rows) mcl
                  ltac:(rewrite length_seq; reflexivity)) as Hi.
    split; [rewrite Hi; apply seq_sorted|split; [|split]].
    + intros e He. apply (in_map s_idx) in He. rewrite Hi in He. apply in_seq in He. lia.
    + intros H0. rewrite Hlo. apply Hsl, H0.
    + intros H. rewrite Hi. f_equal. apply Hsl, H.
Qed.

Definition rows3 : table := [[Some "x"]; [None]; [Some "z"]].

Lemma sample_result_rows_indices_witness :
  map s_idx (sample_result_rows false rows3 5 60) = seq 0 3
  /\ length (sample_result_rows true rows3 2 60) <= 2.
Proof.
  split.
  - exact (proj2 (proj2 (proj2 (sample_result_rows_indices false rows3 5 60))) ltac:(vm_compute; discriminate)).
  - exact (proj1 (proj2 (proj2 (sample_result_rows_indices true rows3 2 60))) ltac:(lia)).
Defined.

End SampleRowsExtras.

Module StratifiedExtras.
Import Sampling SortedSetFacts PyFloatFacts EvenlySpacedExtras SampleRowsExtras.

Lemma insert_desc_In (sizes : list Z) (x y : nat) (l : list nat) :
  In x (insert_desc sizes y l) -> x = y \/ In x l.
Proof.
  induction l as [|z t IH]; cbn [insert_desc]; [cbn; intuition|].
  destruct (nth z sizes 0 <? nth y sizes 0)%Z; cbn [In]; [intuition|].
  intros [H|H]; [auto|]. apply IH in H as [H|H]; auto.
Qed.

Lemma fold_insert_desc_In (sizes : list Z) (l acc : list nat) (x : nat) :
  In x (fold_left (fun acc x => insert_desc sizes x acc) l acc) -> In x l \/ In x acc.
Proof.
  revert acc. induction l as [|y t IH]; intros acc H; cbn [fold_left] in H; [auto|].
  apply IH in H as [H|H]; [left; right; exact H|].
  apply insert_desc_In in H as [->|H]; [left; left; reflexivity|auto].
Qed.

Lemma order_desc_bound (sizes : list Z) (x : nat) :
  In x (order_desc sizes) -> x < length sizes.
Proof.
  unfold order_desc. intros H. apply fold_insert_desc_In in H as [H|[]].
  apply in_seq in H. lia.
Qed.

Lemma replace_nth_props (extras : list Z) (idx : nat) (v : Z) :
  idx < length extras ->
  length (firstn idx extras ++ v :: skipn (S idx) extras) = length extras
  /\ (forall e, In e (firstn idx extras ++ v :: skipn (S idx) extras) -> e = v \/ In e extras).
Proof.
  intros Hi. split.
  - rewrite length_app, length_firstn. cbn [length]. rewrite length_skipn. lia.
  - intros e He. apply in_app_or in He as [He|[He|He]].
    + right. rewrite <- (firstn_skipn idx extras). apply in_or_app. left. exact He.
    + left. symmetry. exact He.
    + right. rewrite <- (firstn_skipn (S idx) extras). apply in_or_app. right. exact He.
Qed.

Lemma adjust_extras_nonneg (order : list nat) (gc : nat) (k : nat) :
  forall (i : nat) (step : Z) (extras : list Z),
  (forall j, nth j order 0 < length extras) ->
  (step = 1 \/ step = -1)%Z ->
  (forall e, In e extras -> (0 <= e)%Z) ->
  length (adjust_extras order gc i k step extras) = length extras
  /\ (forall e, In e (adjust_extras order gc i k step extras) -> (0 <= e)%Z).
Proof.
  induction k as [|k IH]; intros i step extras Hord Hstep Hnn; cbn [adjust_extras]; [auto|].
  set (idx := nth (i mod gc) order 0).
  destruct ((step <? 0)%Z && (nth idx extras 0 =? 0)%Z) eqn:Eskip.
  - apply IH; assumption.
  - destruct (replace_nth_props extras idx (nth idx extras 0 + step)%Z (Hord _)) as [Hl Hin].
    destruct (IH (S i) step (firstn idx extras ++ (nth idx extras 0 + step)%Z
                                :: skipn (S idx) extras)) as [Hl' Hnn'].
    + intros j. rewrite Hl. apply Hord.
    + exact Hstep.
    + intros e He. apply Hin in He as [->|He]; [|apply Hnn, He].
      assert (H0 : (0 <= nth idx extras 0)%Z).
      { apply Hnn, nth_In, Hord. }
      destruct Hstep as [->| ->]; [lia|].
      apply andb_false_iff in Eskip as [E|E]; [discriminate|].
      apply Z.eqb_neq in E. lia.
    + split; [rewrite Hl', Hl; reflexivity|exact Hnn'].
Qed.

Lemma sum_nonneg (l : list Z) : (forall s, In s l -> (0 <= s)%Z) -> (0 <= fold_right Z.add 0 l)%Z.
Proof.
  induction l as [|a t IH]; intros H; cbn [fold_right]; [lia|].
  pose proof (H a (or_introl eq_refl)). pose proof (IH (fun s Hs => H s (or_intror Hs))). lia.
Qed.

Lemma per_group_counts_shape (sizes : list Z) (target_total : Z) :
  sizes <> [] -> (forall s, In s sizes -> (0 <= s)%Z) ->
  length (per_group_counts sizes target_total) = length sizes
  /\ (forall p, In p (per_group_counts sizes target_total) -> (1 <= p)%Z).
Proof.
  intros Hne Hs. unfold per_group_counts.
  destruct (0 <? Z.max 0 (target_total - Z.of_nat (length sizes)))%Z eqn:Er.
  2:{ rewrite length_map. split; [reflexivity|].
      intros p Hp. apply in_map_iff in Hp as [s [<- _]]. lia. }
  apply Z.ltb_lt in Er.
  set (rem := Z.max 0 (target_total - Z.of_nat (length sizes))) in *.
  set (tot := let t := fold_right Z.add 0%Z sizes in if (t =? 0)%Z then 1%Z else t).
  assert (Htot : (0 < tot)%Z).
  { unfold tot. pose proof (sum_nonneg sizes Hs).
    destruct (fold_right Z.add 0 sizes =? 0)%Z eqn:E; [lia|]. apply Z.eqb_neq in E. lia. }
  set (ex0 := map (fun s => py_round (py_int_mul rem (py_truediv s tot))) sizes).
  assert (Hex0 : forall e, In e ex0 -> (0 <= e)%Z).
  { intros e He. unfold ex0 in He. apply in_map_iff in He as [s [<- Hsin]].
    apply py_round_nonneg. unfold py_int_mul, py_truediv.
    apply float_round_nonneg, Qmult_le_0_compat.
    - apply float_round_nonneg. change 0%Q with (inject_Z 0). rewrite <- Zle_Qle. lia.
    - apply float_round_nonneg. unfold Qdiv. apply Qmult_le_0_compat.
      + change 0%Q with (inject_Z 0). rewrite <- Zle_Qle. apply Hs, Hsin.
      + apply Qinv_le_0_compat. change 0%Q with (inject_Z 0). rewrite <- Zle_Qle. lia. }
  assert (Hlen0 : length ex0 = length sizes) by apply length_map.
  assert (Hfin : forall ex, length ex = length sizes -> (forall e, In e ex -> (0 <= e)%Z) ->
            length (map (fun e => 1 + e)%Z ex) = length sizes
            /\ (forall p, In p (map (fun e => 1 + e)%Z ex) -> (1 <= p)%Z)).
  { intros ex Hl Hn. rewrite length_map. split; [exact Hl|].
    intros p Hp. apply in_map_iff in Hp as [e [<- He]]. specialize (Hn e He). lia. }
  destruct ((rem - fold_right Z.add 0%Z ex0 =? 0)%Z); [apply Hfin; assumption|].
  destruct (Nat.eq_dec (length sizes) 0) as [H0|H0].
  { destruct sizes; [contradiction|discriminate]. }
  destruct (adjust_extras_nonneg (order_desc sizes) (length sizes)
              (Z.to_nat (Z.abs (rem - fold_right Z.add 0%Z ex0))) 0
              (if (0 <? rem - fold_right Z.add 0%Z ex0)%Z then 1 else -1)%Z ex0)
    as [Hl Hn].
  - intros j. rewrite Hlen0. destruct (Nat.lt_ge_cases j (length (order_desc sizes))) as [Hj|Hj].
    + apply order_desc_bound, nth_In, Hj.
    + rewrite nth_overflow by exact Hj. lia.
  - destruct (0 <? _)%Z; auto.
  - exact Hex0.
  - apply Hfin; [rewrite Hl; exact Hlen0|exact Hn].
Qed.

Lemma combine_In_l {A B} (l1 : list A) (l2 : list B) (a : A) :
  length l1 = length l2 -> In a l1 -> exists b, In (a, b) (combine l1 l2) /\ In b l2.
Proof.
  revert l2. induction l1 as [|x t IH]; intros [|y u] Hl Ha; cbn in Hl; try discriminate;
    [contradiction|].
  destruct Ha as [<-|Ha].
  - exists y. split; left; reflexivity.
  - destruct (IH u ltac:(lia) Ha) as [b [Hb Hbu]]. exists b. split; right; assumption.
Qed.

Lemma hd_error_In (l : list nat) (x : nat) : hd_error l = Some x -> In x l.
Proof. destruct l; cbn; [discriminate|]. intros [= ->]. left. reflexivity. Qed.

(** X11: for a non-empty list of group sizes, the per-group sample counts of
    [sample_result_rows_stratified] give one count per group, each at least
    [1], whatever the target total. *)
Theorem per_group_counts_at_least_one (sizes : list Z) (target_total : Z)
        (Hne : sizes <> []) (Hs : forall s, In s sizes -> (0 <= s)%Z) :
  length (per_group_counts sizes target_total) = length sizes
  /\ (forall p, In p (per_group_counts sizes target_total) -> (1 <= p)%Z).
Proof. exact (per_group_counts_shape sizes target_total Hne Hs). Qed.

Lemma per_group_counts_at_least_one_witness :
  per_group_counts [5; 0; 1]%Z 4 = [2; 1; 1]%Z
  /\ (forall p, In p (per_group_counts [5; 0; 1]%Z 4) -> (1 <= p)%Z).
Proof.
  split; [vm_compute; reflexivity|].
  apply (per_group_counts_at_least_one [5; 0; 1]%Z 4); [discriminate|].
  intros s Hs. cbn in Hs. lia.
Defined.

Section Pick.
Variable F : list nat * Z -> list nat.
Hypothesis F_cover : forall g pg, (1 <= pg)%Z -> g <> [] -> In (hd 0 g) (F (g, pg)).
Hypothesis F_sub : forall p y, In y (F p) -> In y (fst p) \/ y = 0.

Lemma pick_cover (gs : list (list nat)) (pgs : list Z) :
  length gs = length pgs -> (forall p, In p pgs -> (1 <= p)%Z) ->
  forall g, In g gs -> g <> [] -> In (hd 0 g) (flat_map F (combine gs pgs)).
Proof.
  intros Hl Hp g Hgin Hne. destruct (combine_In_l gs pgs g Hl Hgin) as [pg [Hc Hpg]].
  apply in_flat_map. exists (g, pg). split; [exact Hc|]. apply F_cover; [apply Hp, Hpg|exact Hne].
Qed.

Lemma pick_sub (gs : list (list nat)) (pgs : list Z) (y : nat) :
  In y (flat_map F (combine gs pgs)) -> (exists g, In g gs /\ In y g) \/ y = 0.
Proof.
  intros H. apply in_flat_map in H as [[g pg] [Hc Hy]].
  apply F_sub in Hy as [Hy|Hy]; [left|right; exact Hy].
  exists g. split; [apply in_combine_l in Hc; exact Hc|exact Hy].
Qed.

End Pick.

Lemma strat_pick_facts :
  let F := fun pat : list nat * Z =>
    match pat with
    | ([], _) => []
    | ((_ :: _) as row_list, pg) =>
        if (Z.min pg (Z.of_nat (length row_list)) <=? 0)%Z then []
        else map (fun pos => nth pos row_list 0)
                 (evenly_spaced_indices (Z.of_nat (length row_list))
                                        (Z.min pg (Z.of_nat (length row_list))))
    end in
  (forall g pg, (1 <= pg)%Z -> g <> [] -> In (hd 0 g) (F (g, pg)))
  /\ (forall p y, In y (F p) -> In y (fst p) \/ y = 0).
Proof.
  intros F. split.
  - intros [|i t] pg Hpg Hne; [contradiction|]. unfold F.
    replace (Z.min pg (Z.of_nat (length (i :: t))) <=? 0)%Z with false
      by (symmetry; apply Z.leb_gt; cbn [length]; lia).
    apply in_map_iff. exists 0. split; [reflexivity|].
    apply hd_error_In.
    apply (evenly_spaced_indices_shape (Z.of_nat (length (i :: t)))
             (Z.min pg (Z.of_nat (length (i :: t))))); cbn [length]; lia.
  - intros [[|i t] pg] y Hy; [contradiction|]. unfold F in Hy. cbn [fst].
    destruct (Z.min pg (Z.of_nat (length (i :: t))) <=? 0)%Z; [contradiction|].
    apply in_map_iff in Hy as [pos [<- _]].
    destruct (nth_in_or_default pos (i :: t) 0) as [Hin|Hd]; [left; exact Hin|right; exact Hd].
Qed.

(** X12: when [DataFrame.take] is available, the strata columns are valid,
    each group lists distinct row indices of the table, the table has at
    most [2 ^ 50] rows and [max_samples] is at least the number of groups:
    every position [_evenly_spaced_indices] picks within a group indexes
    that group ([row_list[pos]] never raises), and
    [sample_result_rows_stratified] returns samples that include the first
    row of every non-empty group. *)
Theorem stratified_covers_every_group (groups : list (list nat)) (rows : table) (ms mcl : Z) :
  (forall g i, In g groups -> In i g -> i < length rows) ->
  (forall g, In g groups -> NoDup g) ->
  (Z.of_nat (length rows) <= 2 ^ 50)%Z ->
  (Z.of_nat (length groups) <= ms)%Z ->
  (forall g w pos, In g groups ->
     In pos (evenly_spaced_indices (Z.of_nat (length g)) w) -> pos < length g)
  /\ exists out,
    sample_result_rows_stratified true true groups rows ms mcl = PyOk out
    /\ forall g, In g groups -> g <> [] -> In (hd 0 g) (map s_idx out).
Proof.
  intros Hg Hnd Hn Hms. split.
  { intros g w pos Hgin Hpos.
    assert (Hlen : length g <= length rows).
    { rewrite <- (length_seq (length rows) 0). apply NoDup_incl_length; [apply Hnd, Hgin|].
      intros i Hi. apply in_seq. split; [lia|]. apply (Hg g i Hgin Hi). }
    destruct (evenly_spaced_indices_shape (Z.of_nat (length g)) w) as [_ [_ [_ Hr]]].
    apply (proj1 (Hr ltac:(lia))) in Hpos. lia. }
  unfold sample_result_rows_stratified. cbv zeta.
  destruct (length rows =? 0) eqn:E0.
  { exists []. split; [reflexivity|]. intros g Hgin Hne.
    destruct g as [|i t]; [contradiction|]. specialize (Hg _ i Hgin (or_introl eq_refl)).
    apply Nat.eqb_eq in E0. lia. }
  apply Nat.eqb_neq in E0.
  cbn [negb].
  destruct groups as [|g0 gr] eqn:Egs.
  { eexists. split; [reflexivity|]. intros g []. }
  subst groups.
  replace (ms <? Z.of_nat (length (g0 :: gr)))%Z with false
    by (symmetry; apply Z.ltb_ge; exact Hms).
  cbv beta iota.
  set (groups := g0 :: gr) in *.
  set (pgs := per_group_counts (map (fun g => Z.of_nat (length g)) groups)
                               (Z.min ms (Z.of_nat (length rows)))).
  destruct (per_group_counts_shape (map (fun g => Z.of_nat (length g)) groups)
              (Z.min ms (Z.of_nat (length rows))))
    as [Hpl Hp1].
  { discriminate. }
  { intros s Hs. apply in_map_iff in Hs as [g [<- _]]. lia. }
  fold pgs in Hpl, Hp1. rewrite length_map in Hpl.
  match goal with |- context [match flat_map ?F (combine _ _) with _ => _ end] =>
    pose proof (pick_cover F (proj1 strat_pick_facts) groups pgs (eq_sym Hpl) Hp1) as Hcov;
    pose proof (pick_sub F (proj2 strat_pick_facts) groups pgs) as Hsub;
    destruct (flat_map F (combine groups pgs)) as [|c cs] eqn:Ech
  end.
  { eexists. split; [reflexivity|]. intros g Hgin Hne. specialize (Hcov g Hgin Hne).
    contradiction. }
  assert (Hall : forallb (fun i => i <? length rows) (sorted_set (c :: cs)) = true).
  { apply forallb_forall. intros y Hy. apply Nat.ltb_lt.
    apply (proj1 (sorted_set_In_iff _ _)), Hsub in Hy as [[g [Hgin Hyg]]| ->];
      [exact (Hg g y Hgin Hyg)|lia]. }
  unfold df_take. rewrite Hall. cbn [andb].
  eexists. split; [reflexivity|]. intros g Hgin Hne.
  rewrite emit_indices by apply length_map.
  apply sorted_set_In_iff. apply Hcov; assumption.
Qed.

Definition rows6 : table := [[Some "a"]; [Some "b"]; [Some "c"]; [None]; [Some "e"]; [Some "f"]].

Lemma stratified_covers_every_group_witness :
  (forall g w pos, In g [[0; 1]; [2]; [3; 4; 5]] ->
     In pos (evenly_spaced_indices (Z.of_nat (length g)) w) -> pos < length g)
  /\ exists out,
    sample_result_rows_stratified true true [[0; 1]; [2]; [3; 4; 5]] rows6 3 60 = PyOk out
    /\ forall g, In g [[0; 1]; [2]; [3; 4; 5]] -> g <> [] -> In (hd 0 g) (map s_idx out).
Proof.
  apply stratified_covers_every_group.
  - intros g i Hgin Hi. cbn in Hgin.
    destruct Hgin as [<-|[<-|[<-|[]]]]; cbn in Hi; cbn [length rows6]; lia.
  - intros g Hgin. cbn in Hgin.
    destruct Hgin as [<-|[<-|[<-|[]]]]; repeat constructor; cbn; intuition lia.
  - vm_compute. discriminate.
  - vm_compute. discriminate.
Defined.

End StratifiedExtras.

Module JudgeRotationExtras.
Import JudgeRotation.

Lemma rotate_index_inj (a L o1 o2 : nat) :
  o1 < L -> o2 < L -> (a + o1) mod L = (a + o2) mod L -> o1 = o2.
Proof.
  intros H1 H2 Heq.
  pose proof (Nat.div_mod_eq (a + o1) L) as E1.
  pose proof (Nat.div_mod_eq (a + o2) L) as E2.
  rewrite Heq in E1.
  destruct (Nat.lt_trichotomy o1 o2) as [Hlt|[Hq|Hgt]]; [exfalso|exact Hq|exfalso].
  - assert (Hq : (a + o1) / L < (a + o2) / L) by nia. nia.
  - assert (Hq : (a + o2) / L < (a + o1) / L) by nia. nia.
Qed.

Lemma NoDup_map_on {A B} (f : A -> B) (l : list A) :
  (forall x y, In x l -> In y l -> f x = f y -> x = y) -> NoDup l -> NoDup (map f l).
Proof.
  induction l as [|x t IH]; intros Hinj Hn; cbn [map]; [constructor|].
  apply NoDup_cons_iff in Hn as [Hx Ht]. constructor.
  - intros H. apply in_map_iff in H as [y [Hy Hyt]].
    assert (x = y) by (apply Hinj; [left; reflexivity|right; exact Hyt|symmetry; exact Hy]).
    subst. contradiction.
  - apply IH; [|exact Ht]. intros u v Hu Hv. apply Hinj; right; assumption.
Qed.

Lemma rotate_indices_cover (a L : nat) (j : nat) :
  j < L -> In j (map (fun o => (a + o) mod L) (seq 0 L)).
Proof.
  intros Hj.
  assert (Hnd : NoDup (map (fun o => (a + o) mod L) (seq 0 L))).
  { apply NoDup_map_on; [|apply seq_NoDup].
    intros x y Hx Hy. apply in_seq in Hx, Hy. apply rotate_index_inj; lia. }
  apply (NoDup_length_incl (l' := seq 0 L) Hnd).
  - rewrite length_map. lia.
  - intros x Hx. apply in_map_iff in Hx as [o [<- _]]. apply in_seq.
    split; [lia|]. apply Nat.mod_upper_bound. lia.
  - apply in_seq. lia.
Qed.

(** X13: over [len(judge_model_schedule)] consecutive judge retries of one
    attempt, when the schedule lists distinct models, the models tried are
    pairwise distinct and include every model of the schedule. *)
Theorem judge_retries_rotate (schedule : list string) (judge_model : string) (attempt_idx : nat)
        (Hne : schedule <> []) (Hnd : NoDup schedule) :
  let tried := map (judge_model_for schedule judge_model attempt_idx) (seq 0 (length schedule)) in
  NoDup tried /\ (forall m, In m schedule -> In m tried).
Proof.
  intros tried.
  set (L := length schedule).
  assert (HL : 0 < L) by (unfold L; destruct schedule; [contradiction|cbn; lia]).
  assert (Hf : forall o, judge_model_for schedule judge_model attempt_idx o
                         = nth ((attempt_idx + o) mod L) schedule "").
  { intros o. unfold judge_model_for, L. destruct schedule; [contradiction|reflexivity]. }
  assert (Ht : tried = map (fun i => nth i schedule "")
                           (map (fun o => (attempt_idx + o) mod L) (seq 0 L))).
  { unfold tried. rewrite map_map. apply map_ext. exact Hf. }
  rewrite Ht. split.
  - apply NoDup_map_on.
    + intros x y Hx Hy Hxy.
      apply in_map_iff in Hx as [o1 [<- H1]]. apply in_map_iff in Hy as [o2 [<- H2]].
      apply (proj1 (NoDup_nth schedule "") Hnd); [apply Nat.mod_upper_bound; lia
                                                  |apply Nat.mod_upper_bound; lia|exact Hxy].
    + apply NoDup_map_on; [|apply seq_NoDup].
      intros x y Hx Hy. apply in_seq in Hx, Hy. apply rotate_index_inj; lia.
  - intros m Hm. apply In_nth with (d := "") in Hm as [j [Hj <-]].
    apply (in_map (fun i => nth i schedule "")). apply rotate_indices_cover. exact Hj.
Qed.

Lemma judge_retries_rotate_witness :
  NoDup (map (judge_model_for ["j1"; "j2"; "j3"] "jd" 5) (seq 0 3))
  /\ (forall m, In m ["j1"; "j2"; "j3"] ->
        In m (map (judge_model_for ["j1"; "j2"; "j3"] "jd" 5) (seq 0 3))).
Proof.
  apply (judge_retries_rotate ["j1"; "j2"; "j3"] "jd" 5); [discriminate|].
  repeat constructor; cbn; intuition discriminate.
Defined.

End JudgeRotationExtras.
